(** * io_export_egg: a shallow embedding of the Panda3D egg exporter

    The development follows [src/io_export_egg.py].  Python strings are
    [string]s, dictionaries are stdpp [gmap]s, floats are IEEE-754 values
    of [spec_float], and the methods of [ExportEggWorker] run in a small
    state-and-exception monad over the worker object and the host. *)

From Stdlib Require Import ZArith Ascii String List Bool Lia DecimalString SpecFloat.
From stdpp Require Import base option list gmap strings fin_maps sorting.

Local Open Scope string_scope.
Local Open Scope Z_scope.

(** ** Python string primitives *)

Module Str.

Fixpoint replace (old new : ascii) (s : string) : string :=
  match s with
  | EmptyString => EmptyString
  | String a s' =>
      String (if Ascii.eqb a old then new else a) (replace old new s')
  end.

(** [s.rfind(c)]: the highest index of [c] in [s], or [-1]. *)
Fixpoint rfind (c : ascii) (s : string) : Z :=
  match s with
  | EmptyString => -1
  | String a s' =>
      let r := rfind c s' in
      if 0 <=? r then r + 1 else if Ascii.eqb a c then 0 else -1
  end.

(** [s[n:]] and [s[:n]] for a non-negative [n]. *)
Fixpoint drop (n : nat) (s : string) : string :=
  match n, s with
  | O, _ => s
  | S n', String _ s' => drop n' s'
  | S _, EmptyString => EmptyString
  end.

Fixpoint take (n : nat) (s : string) : string :=
  match n, s with
  | S n', String a s' => String a (take n' s')
  | _, _ => EmptyString
  end.

(** [s.split(c)]: never empty; a separator at either end gives an empty
    segment there. *)
Fixpoint split (c : ascii) (s : string) : list string :=
  match s with
  | EmptyString => [EmptyString]
  | String a s' =>
      if Ascii.eqb a c then EmptyString :: split c s'
      else match split c s' with
           | seg :: rest => String a seg :: rest
           | [] => [String a EmptyString]
           end
  end.

(** [c.join(l)] *)
Fixpoint join (c : string) (l : list string) : string :=
  match l with
  | [] => EmptyString
  | [s] => s
  | s :: rest => s ++ c ++ join c rest
  end.

Fixpoint contains (c : ascii) (s : string) : bool :=
  match s with
  | EmptyString => false
  | String a s' => Ascii.eqb a c || contains c s'
  end.

Definition startswith (p s : string) : bool := String.prefix p s.

Fixpoint endswith_char (c : ascii) (s : string) : bool :=
  match s with
  | EmptyString => false
  | String a EmptyString => Ascii.eqb a c
  | String _ s' => endswith_char c s'
  end.

(** [s.rstrip(c)] for a single character. *)
Fixpoint rstrip (c : ascii) (s : string) : string :=
  match s with
  | EmptyString => EmptyString
  | String a s' =>
      match rstrip c s' with
      | EmptyString => if Ascii.eqb a c then EmptyString else String a EmptyString
      | t => String a t
      end
  end.

Fixpoint all_char (c : ascii) (s : string) : bool :=
  match s with
  | EmptyString => true
  | String a s' => Ascii.eqb a c && all_char c s'
  end.

(** [l[-1]] on the result of a split. *)
Definition last (l : list string) : string := List.last l EmptyString.

(** [str(n)] and ['%d' % n] for a non-negative integer. *)
Definition of_nat (n : nat) : string := NilEmpty.string_of_uint (Nat.to_uint n).

End Str.

(** ** [os.path] on a POSIX host *)

Module posixpath.

Definition sep : ascii := "/"%char.
Definition extsep : ascii := "."%char.

Definition basename (p : string) : string :=
  let i := Str.rfind sep p + 1 in
  Str.drop (Z.to_nat i) p.

Definition dirname (p : string) : string :=
  let i := Str.rfind sep p + 1 in
  let head := Str.take (Z.to_nat i) p in
  if negb (String.eqb head EmptyString) && negb (Str.all_char sep head)
  then Str.rstrip sep head
  else head.

(** The leading-dot scan of [genericpath._splitext]: [fuel] bounds the
    [while filenameIndex < dotIndex] loop. *)
Fixpoint splitext_scan (fuel : nat) (p : string) (filenameIndex dotIndex : Z)
  : string * string :=
  match fuel with
  | O => (p, EmptyString)
  | S fuel' =>
      if filenameIndex <? dotIndex then
        if negb (String.eqb (Str.take 1 (Str.drop (Z.to_nat filenameIndex) p))
                            (String extsep EmptyString))
        then (Str.take (Z.to_nat dotIndex) p, Str.drop (Z.to_nat dotIndex) p)
        else splitext_scan fuel' p (filenameIndex + 1) dotIndex
      else (p, EmptyString)
  end.

Definition splitext (p : string) : string * string :=
  let sepIndex := Str.rfind sep p in
  let dotIndex := Str.rfind extsep p in
  if sepIndex <? dotIndex
  then splitext_scan (String.length p) p (sepIndex + 1) dotIndex
  else (p, EmptyString).

Definition isabs (s : string) : bool := Str.startswith "/" s.

(** [join(a, b)] with one tail component. *)
Definition join (a b : string) : string :=
  if Str.startswith "/" b then b
  else if String.eqb a EmptyString || Str.endswith_char sep a then a ++ b
  else a ++ "/" ++ b.

Definition join_all (comps : list string) : string :=
  match comps with
  | [] => EmptyString
  | a :: p => fold_left join p a
  end.

Definition normpath_step (initial_slashes : nat) (new_comps : list string)
    (comp : string) : list string :=
  if String.eqb comp EmptyString || String.eqb comp "." then new_comps
  else if negb (String.eqb comp "..")
          || (Nat.eqb initial_slashes 0 && bool_decide (new_comps = []))
          || (negb (bool_decide (new_comps = []))
              && String.eqb (Str.last new_comps) "..")
  then (new_comps ++ [comp])%list
  else removelast new_comps.

Definition normpath (path : string) : string :=
  if String.eqb path EmptyString then "."
  else
    let initial_slashes :=
      if Str.startswith "/" path then
        if Str.startswith "//" path && negb (Str.startswith "///" path)
        then 2%nat else 1%nat
      else 0%nat in
    let comps := Str.split sep path in
    let new_comps := fold_left (normpath_step initial_slashes) comps [] in
    let path := Str.join "/" new_comps in
    let path :=
      match initial_slashes with
      | O => path
      | 1%nat => "/" ++ path
      | _ => "//" ++ path
      end in
    if String.eqb path EmptyString then "." else path.

Definition abspath (cwd path : string) : string :=
  if negb (isabs path) then normpath (join cwd path) else normpath path.

Fixpoint commonprefix_len (a b : list string) : nat :=
  match a, b with
  | x :: a', y :: b' => if String.eqb x y then S (commonprefix_len a' b') else O
  | _, _ => O
  end.

Definition nonempty_parts (p : string) : list string :=
  List.filter (fun x => negb (String.eqb x EmptyString)) (Str.split sep p).

(** [relpath(path, start)]; [None] stands for the [ValueError] raised on
    an empty [path]. *)
Definition relpath (cwd path start : string) : option string :=
  if String.eqb path EmptyString then None
  else
    let start_list := nonempty_parts (abspath cwd start) in
    let path_list := nonempty_parts (abspath cwd path) in
    let i := commonprefix_len start_list path_list in
    let rel_list :=
      (List.repeat ".." (List.length start_list - i) ++ List.skipn i path_list)%list in
    Some (match rel_list with [] => "." | _ => join_all rel_list end).

(** One pass of the loop of [_joinrealpath], for a component that is
    no symbolic link. *)
Definition joinrealpath_step (path name : string) : string :=
  if String.eqb name EmptyString || String.eqb name "." then path
  else if String.eqb name ".." then
    if negb (String.eqb path EmptyString) then
      if String.eqb (basename path) ".."
      then join (join (dirname path) "..") ".."
      else dirname path
    else ".."
  else join path name.

(** [realpath(filename)] on a file system without symbolic links. *)
Definition realpath (cwd filename : string) : string :=
  let path := if isabs filename then "/" else EmptyString in
  let rest := if isabs filename then Str.drop 1 filename else filename in
  abspath cwd (fold_left joinrealpath_step (Str.split sep rest) path).

End posixpath.

(** ** Name sanitizers *)

Definition good_file_name (filepath : string) : string :=
  let filename := posixpath.basename filepath in
  let name := fst (posixpath.splitext filename) in
  let string := Str.replace "-" "_" (Str.replace " " "_" name) in
  string.

Definition good_bone_name (bone_name : string) : string :=
  Str.replace "-" "_" (Str.replace "." "_" bone_name).

Definition good_mesh_name (mesh_name : string) : string :=
  Str.last (Str.split ":" mesh_name).

Definition good_texture_name (filepath : string) : string :=
  let texfile := posixpath.basename filepath in
  Str.replace "." "_" texfile.

Definition good_material_name (material_name : string) : string :=
  Str.last (Str.split ":" (Str.replace " " "_" material_name)).

(** ** Floats and their fixed-point formatting

    A Python float is an IEEE-754 binary64 value; Blender's own data
    (vertex weights, [mathutils.Vector] components) is binary32, every
    value of which is also a binary64 value.  Both are values of
    [spec_float]. *)

Definition float : Type := spec_float.

Module Float.

Definition zero : float := S754_zero false.

(** [a != 0.0] *)
Definition ne_zero (a : float) : bool := negb (SFeqb a zero).

(** [a == b] *)
Definition eqb (a b : float) : bool := SFeqb a b.

(** Single-precision subtraction, as [mathutils.Vector.__sub__] does it. *)
Definition sub32 (a b : float) : float := SFsub 24 128 a b.

Definition of_Z (z : Z) : float :=
  match z with
  | Z0 => S754_zero false
  | Zpos p => S754_finite false p 0
  | Zneg p => S754_finite true p 0
  end.

(** [round_half_even n d]: the integer nearest to [n / d] for [d > 0],
    ties to the even one. *)
Definition round_half_even (n d : Z) : Z :=
  let q := n / d in
  let r := n mod d in
  match 2 * r ?= d with
  | Lt => q
  | Gt => q + 1
  | Eq => if Z.even q then q else q + 1
  end.

(** The magnitude of a finite float [m * 2^e], scaled by [10^p] and
    rounded to an integer. *)
Definition scaled (p : nat) (m : positive) (e : Z) : Z :=
  let n := Zpos m * 10 ^ Z.of_nat p in
  if 0 <=? e then n * 2 ^ e else round_half_even n (2 ^ (- e)).

Definition digits (n : Z) : string := NilEmpty.string_of_uint (N.to_uint (Z.to_N n)).

Fixpoint zeros (k : nat) : string :=
  match k with
  | O => EmptyString
  | S k' => String "0" (zeros k')
  end.

(** The decimal digits of [n], at least [p + 1] of them, with a point
    before the last [p] (no point when [p] is zero). *)
Definition fixed (p : nat) (n : Z) : string :=
  let ds := digits n in
  let ds := zeros (S p - String.length ds) ++ ds in
  let k := (String.length ds - p)%nat in
  match p with
  | O => ds
  | _ => Str.take k ds ++ "." ++ Str.drop k ds
  end.

(** ['%.pf' % x] and ['{0:.pf}'.format(x)]. *)
Definition format_f (p : nat) (x : float) : string :=
  match x with
  | S754_nan => "nan"
  | S754_infinity s => if s then "-inf" else "inf"
  | S754_zero s => (if s then "-" else EmptyString) ++ fixed p 0
  | S754_finite s m e => (if s then "-" else EmptyString) ++ fixed p (scaled p m e)
  end.

End Float.

(** ** The scene, as the exporter reads it from the host

    One module per Blender type, with the attribute names of the source. *)

Module Vector.
Record t := mk { x : float; y : float; z : float }.
(** [a - b] *)
Definition sub (a b : t) : t :=
  mk (Float.sub32 (x a) (x b)) (Float.sub32 (y a) (y b)) (Float.sub32 (z a) (z b)).
End Vector.

Module Color.
Record t := mk { r : float; g : float; b : float }.
End Color.

Module Image.
Record t := mk {
  filepath : string;
  colorspace_settings_name : string;
  use_alpha : bool;
  source : string }.
End Image.

Module Texture.
Record t := mk {
  name : string;
  type : string;
  image : option Image.t;
  extension : string;
  repeat_x : Z;
  repeat_y : Z }.
End Texture.

Module TextureSlot.
Record t := mk {
  texture : option Texture.t;
  texture_coords : string;
  mapping : string }.
End TextureSlot.

Module Material.
Record t := mk {
  name : string;
  diffuse_color : Color.t;
  specular_color : Color.t;
  specular_alpha : float;
  ambient : float;
  emit : float;
  specular_hardness : Z;
  texture_slots : list (option TextureSlot.t) }.
End Material.

Module VertexGroup.
Record t := mk { name : string }.
End VertexGroup.

Module VertexGroupElement.
Record t := mk { group : nat; weight : float }.
End VertexGroupElement.

Module MeshVertex.
Record t := mk {
  index : nat;
  co : Vector.t;
  normal : Vector.t;
  groups : list VertexGroupElement.t }.
End MeshVertex.

Module MeshLoop.
Record t := mk { vertex_index : nat }.
End MeshLoop.

Module MeshPolygon.
Record t := mk {
  index : nat;
  material_index : nat;
  loop_indices : list nat }.
End MeshPolygon.

Module Mesh.
Record t := mk {
  name : string;
  vertices : list MeshVertex.t;
  loops : list MeshLoop.t;
  polygons : list MeshPolygon.t;
  materials : list (option Material.t);
  (** the active UV layer, one coordinate pair per loop, if there is one *)
  uv_layer : option (list (float * float)) }.
End Mesh.

Module Object.
Record t := mk {
  name : string;
  type : string;
  data : Mesh.t;
  vertex_groups : list VertexGroup.t;
  active_material : option Material.t }.
End Object.

Module Bone.
#[warnings="-register-all"] Inductive t := mk (name : string) (head_local : Vector.t)
                  (parent : option t) (children : list t).
Definition name (b : t) : string := let 'mk n _ _ _ := b in n.
Definition head_local (b : t) : Vector.t := let 'mk _ h _ _ := b in h.
Definition parent (b : t) : option t := let 'mk _ _ p _ := b in p.
Definition children (b : t) : list t := let 'mk _ _ _ c := b in c.
End Bone.

(** The selected armature object: [human.data.bones] and [human.children]. *)
Module Armature.
Record t := mk {
  bones : list Bone.t;
  children : list Object.t }.
End Armature.

(** ** Exceptions and results *)

Inductive exn :=
  KeyError | TypeError | NameError | AttributeError | IndexError
| UnboundLocalError | ValueError | RuntimeError.

Inductive result (A : Type) : Type :=
| Return (a : A)
| Raise (e : exn).
Arguments Return {A} a.
Arguments Raise {A} e.

Global Instance result_ret : MRet result := fun A a => Return a.
Global Instance result_bind : MBind result := fun A B f c =>
  match c with
  | Return a => f a
  | Raise e => Raise e
  end.

(** [d[k]] on a dictionary and [l[i]] on a list. *)
Definition getitem `{Countable K} {V} (d : gmap K V) (k : K) : result V :=
  match d !! k with
  | Some v => Return v
  | None => Raise KeyError
  end.

Definition list_getitem {A} (l : list A) (i : nat) : result A :=
  match l !! i with
  | Some v => Return v
  | None => Raise IndexError
  end.

(** A [for] loop that threads a local variable and stops at the first
    exception. *)
Fixpoint for_fold {A B} (body : B -> A -> result B) (l : list A) (b : B)
  : result B :=
  match l with
  | [] => Return b
  | a :: l' => b' ← body b a; for_fold body l' b'
  end.

(** ** Dictionaries that are iterated

    A Python dictionary is iterated in the order in which its keys were
    first assigned; assigning to a key that is there keeps its place.
    The dictionaries that the exporter iterates without sorting are
    lists of items in that order. *)

Record odict (K V : Type) := ODict { oitems : list (K * V) }.
Arguments ODict {K V} _.
Arguments oitems {K V} _.

(** [d[k]] *)
Fixpoint assoc {K V} `{EqDecision K} (k : K) (l : list (K * V)) : option V :=
  match l with
  | [] => None
  | (k', v) :: l' => if decide (k' = k) then Some v else assoc k l'
  end.

(** [d[k] = v] *)
Fixpoint assign {K V} `{EqDecision K} (k : K) (v : V) (l : list (K * V))
  : list (K * V) :=
  match l with
  | [] => [(k, v)]
  | (k', v') :: l' =>
      if decide (k' = k) then (k, v) :: l' else (k', v') :: assign k v l'
  end.

Global Instance odict_empty {K V} : Empty (odict K V) := ODict [].
Global Instance odict_lookup {K V} `{EqDecision K} : Lookup K V (odict K V) :=
  fun k d => assoc k (oitems d).
Global Instance odict_insert {K V} `{EqDecision K} : Insert K V (odict K V) :=
  fun k v d => ODict (assign k v (oitems d)).

Definition odict_getitem {K V} `{EqDecision K} (d : odict K V) (k : K)
  : result V :=
  match d !! k with
  | Some v => Return v
  | None => Raise KeyError
  end.

(** ** The skin weight index *)

Abbreviation weight_dict_t := (odict nat (odict nat float)).
Abbreviation weights_t := (gmap string (list nat)).
Abbreviation bone_weight_dict_t := (gmap string (gmap string weights_t)).

Definition _mesh_to_weight_dict (mesh_obj : Object.t)
  : list string * weight_dict_t :=
  let group_names := map VertexGroup.name (Object.vertex_groups mesh_obj) in
  let group_names_tot := length group_names in
  let mesh := Object.data mesh_obj in
  let weight_dict : weight_dict_t := ∅ in
  if Nat.eqb group_names_tot 0 then (group_names, weight_dict)
  else
    let weight_dict :=
      foldl (fun weight_dict v =>
        foldl (fun (weight_dict : weight_dict_t) g =>
          let g_index := VertexGroupElement.group g in
          if Nat.ltb g_index group_names_tot then
            match weight_dict !! MeshVertex.index v with
            | Some d =>
                <[MeshVertex.index v :=
                    <[g_index := VertexGroupElement.weight g]> d]> weight_dict
            | None =>
                <[MeshVertex.index v :=
                    <[g_index := VertexGroupElement.weight g]> ∅]> weight_dict
            end
          else weight_dict)
        weight_dict (MeshVertex.groups v))
      weight_dict (Mesh.vertices mesh) in
    (group_names, weight_dict).

Section WeightIndex.

(** [self._human], [bpy.data.objects] and the precision [p] of
    [self._vertex_weight_precision = '{0:.pf}']. *)
Variable _human : Armature.t.
Variable objects : gmap string Object.t.
Variable _vertex_weight_precision : nat.

Definition mesh_names : list string :=
  map Object.name
      (List.filter (fun child => String.eqb (Object.type child) "MESH")
                   (Armature.children _human)).

(** One pass of the innermost loop body. *)
Definition add_weight (group_names : list string) (mesh_name : string)
    (v_index : nat) (bone_weight_dict : bone_weight_dict_t)
    (item : nat * float) : result bone_weight_dict_t :=
  let '(g_index, weight) := item in
  bone_name ← list_getitem group_names g_index;
  let weight_str := Float.format_f _vertex_weight_precision weight in
  by_mesh ← getitem bone_weight_dict bone_name;
  weights ← getitem by_mesh mesh_name;
  if Float.ne_zero weight then
    let weights' :=
      match (weights : weights_t) !! weight_str with
      | None => <[weight_str := [v_index]]> weights
      | Some l => <[weight_str := (l ++ [v_index])%list]> weights
      end in
    Return (<[bone_name := <[mesh_name := weights']> by_mesh]> bone_weight_dict)
  else Return bone_weight_dict.

Definition add_mesh (bone_weight_dict : bone_weight_dict_t)
    (mesh_name : string) : result bone_weight_dict_t :=
  mesh ← getitem objects mesh_name;
  let '(group_names, weight_dict) := _mesh_to_weight_dict mesh in
  for_fold (fun bwd '(v_index, v_groups) =>
              for_fold (add_weight group_names mesh_name v_index)
                       (oitems v_groups) bwd)
           (oitems weight_dict) bone_weight_dict.

Definition _meshes_to_weight_dict : result bone_weight_dict_t :=
  let bones := Armature.bones _human in
  let bone_weight_dict : bone_weight_dict_t :=
    foldl (fun d bone => <[Bone.name bone := ∅]> d) ∅ bones in
  bone_weight_dict ←
    for_fold (fun bwd bone =>
                for_fold (fun bwd mesh_name =>
                            by_mesh ← getitem bwd (Bone.name bone);
                            Return (<[Bone.name bone :=
                                        <[mesh_name := ∅]> by_mesh]> bwd))
                         mesh_names bwd)
             bones bone_weight_dict;
  for_fold add_mesh mesh_names bone_weight_dict.

End WeightIndex.

(** ** Sorting, for [sorted(...)] *)

Section Sorted.
Context {A : Type} (leb : A -> A -> bool).

Fixpoint insert_sorted (x : A) (l : list A) : list A :=
  match l with
  | [] => [x]
  | y :: l' => if leb x y then x :: y :: l' else y :: insert_sorted x l'
  end.

Definition sorted (l : list A) : list A := foldr insert_sorted [] l.
End Sorted.

(** ** The worker object, the host and the monad of the methods *)

Record Self := mkSelf {
  _use_rel_paths : bool;
  _human : Armature.t;
  _vertex_weight_precision : nat;
  _copied_files : gmap string bool;
  (** the text written so far, when the output file is open *)
  _egg_fp : option string;
  _tex_folder : option string;
  _outFolder : string;
  _separate_tex_folder : string;
  _filepath : string;
  _filename : string }.

(** What the host decides: the working directory, the file system's
    answers ([os.path.realpath], which follows its symbolic links,
    [os.path.exists], and whether [os.mkdir], [save_render] and [open]
    fail), [bpy.data.objects] and the name of the blend file. *)
Record Host := mkHost {
  cwd : string;
  realpath : string -> string;
  path_exists : string -> bool;
  mkdir_fails : string -> bool;
  save_render_fails : string -> string -> bool;
  open_fails : string -> bool;
  objects : gmap string Object.t;
  blend_filepath : string }.

(** What the methods do to the outside: lines printed, directories made,
    [image.save_render] calls as (source path, destination), files closed
    with their contents. *)
Record World := mkWorld {
  stdout : list string;
  mkdir_calls : list string;
  save_render_calls : list (string * string);
  closed_files : list (string * string) }.

Definition State : Type := Self * World.

Definition M (A : Type) : Type := State -> result A * State.

Global Instance M_ret : MRet M := fun A a st => (Return a, st).
Global Instance M_bind : MBind M := fun A B f c st =>
  match c st with
  | (Return a, st') => f a st'
  | (Raise e, st') => (Raise e, st')
  end.

Definition lift {A} (r : result A) : M A := fun st => (r, st).
Definition raise {A} (e : exn) : M A := lift (Raise e).
Definition get_self : M Self := fun st => (Return (fst st), st).
Definition put_self (s : Self) : M unit := fun st => (Return tt, (s, snd st)).
Definition modify_world (f : World -> World) : M unit :=
  fun st => (Return tt, (fst st, f (snd st))).

(** [try: c except: handler] *)
Definition try_except {A} (c : M A) (handler : M A) : M A := fun st =>
  match c st with
  | (Return a, st') => (Return a, st')
  | (Raise _, st') => handler st'
  end.

(** [try: c finally: cleanup] *)
Definition try_finally {A} (c : M A) (cleanup : M unit) : M A := fun st =>
  match c st with
  | (r, st') =>
      match cleanup st' with
      | (Return _, st'') => (r, st'')
      | (Raise e, st'') => (Raise e, st'')
      end
  end.

Fixpoint for_each {A} (l : list A) (body : A -> M unit) : M unit :=
  match l with
  | [] => mret tt
  | a :: l' => body a;; for_each l' body
  end.

Definition print (line : string) : M unit :=
  modify_world (fun w => mkWorld (stdout w ++ [line]) (mkdir_calls w)
                                 (save_render_calls w) (closed_files w)).

Definition set_copied_files (d : gmap string bool) (s : Self) : Self :=
  mkSelf (_use_rel_paths s) (_human s) (_vertex_weight_precision s) d
         (_egg_fp s) (_tex_folder s) (_outFolder s) (_separate_tex_folder s)
         (_filepath s) (_filename s).

Definition set_egg_fp (fp : option string) (s : Self) : Self :=
  mkSelf (_use_rel_paths s) (_human s) (_vertex_weight_precision s)
         (_copied_files s) fp (_tex_folder s) (_outFolder s)
         (_separate_tex_folder s) (_filepath s) (_filename s).

Definition set_tex_folder (f : option string) (s : Self) : Self :=
  mkSelf (_use_rel_paths s) (_human s) (_vertex_weight_precision s)
         (_copied_files s) (_egg_fp s) f (_outFolder s)
         (_separate_tex_folder s) (_filepath s) (_filename s).

Definition set_outFolder (f : string) (s : Self) : Self :=
  mkSelf (_use_rel_paths s) (_human s) (_vertex_weight_precision s)
         (_copied_files s) (_egg_fp s) (_tex_folder s) f
         (_separate_tex_folder s) (_filepath s) (_filename s).

(** [self._egg_fp.write(text)]; [None] has no [write]. *)
Definition write (text : string) : M unit :=
  self ← get_self;
  match _egg_fp self with
  | Some buf => put_self (set_egg_fp (Some (buf ++ text)) self)
  | None => raise AttributeError
  end.

(** The characters ["\n"] and the double quote. *)
Definition nl : string := String (Ascii.ascii_of_nat 10) EmptyString.
Definition dquote : string := String (Ascii.ascii_of_nat 34) EmptyString.

(** [indent_level*' '] *)
Fixpoint padding_of (indent_level : nat) : string :=
  match indent_level with
  | O => EmptyString
  | S n => String " " (padding_of n)
  end.

(** ['%s' % v] for a value that may be [None]. *)
Definition str_or_None (v : option string) : string :=
  match v with
  | Some s => s
  | None => "None"
  end.

(** [obj.attr] when [obj] may be [None]. *)
Definition attr {A} (obj : option A) : result A :=
  match obj with
  | Some a => Return a
  | None => Raise AttributeError
  end.

(** ** The BMesh view of a mesh

    [bm.from_mesh(mesh)] gives every vertex its face corners
    ([link_loops]); they are listed here in polygon order.  A loop knows
    its index into the UV layer and the material index of its face. *)

Module BMLoop.
Record t := mk { index : nat; face_material_index : nat }.
End BMLoop.

Definition link_loops_of (mesh : Mesh.t) (v : nat) : list BMLoop.t :=
  flat_map (fun poly =>
    flat_map (fun li =>
      match Mesh.loops mesh !! li with
      | Some l =>
          if Nat.eqb (MeshLoop.vertex_index l) v
          then [BMLoop.mk li (MeshPolygon.material_index poly)]
          else []
      | None => []
      end) (MeshPolygon.loop_indices poly))
    (Mesh.polygons mesh).

(** [bm.verts], after [ensure_lookup_table()]. *)
Definition bm_verts (mesh : Mesh.t) : list (list BMLoop.t) :=
  map (link_loops_of mesh) (seq 0 (length (Mesh.vertices mesh))).

(** [loop[uv_layer].uv]; a missing layer is no valid key. *)
Definition loop_uv (uv_layer : option (list (float * float))) (loop : BMLoop.t)
  : result (float * float) :=
  match uv_layer with
  | None => Raise TypeError
  | Some layer => list_getitem layer (BMLoop.index loop)
  end.

Definition uv_eqb (a b : float * float) : bool :=
  Float.eqb (fst a) (fst b) && Float.eqb (snd a) (snd b).

(** The image textures of a material, as the list comprehensions over
    [mat.texture_slots.values()] name them. *)
Definition image_texture_names (mat : Material.t) : result (list string) :=
  for_fold (fun acc texture_slot =>
              match texture_slot with
              | None => Return acc
              | Some slot =>
                  texture ← attr (TextureSlot.texture slot);
                  if String.eqb (Texture.type texture) "IMAGE" then
                    image ← attr (Texture.image texture);
                    Return (acc ++ [good_texture_name (Image.filepath image)])%list
                  else Return acc
              end)
           (Material.texture_slots mat) [].

(** ** [ExportEggWorker] *)

Section Worker.

Variable host : Host.

(** The [except] branch evaluates ['Unable to create separate folder:' %
    folder], a format string with no conversion: a [TypeError], raised
    before anything is printed or returned. *)
Definition _get_sub_folder : M (option string) :=
  self ← get_self;
  let folder := posixpath.join (_outFolder self) (_separate_tex_folder self) in
  if negb (path_exists host folder) then
    if mkdir_fails host folder then
      msg ← lift (Raise TypeError : result string);
      print msg;;
      mret None
    else
      modify_world (fun w => mkWorld (stdout w) (mkdir_calls w ++ [folder])
                                     (save_render_calls w) (closed_files w));;
      mret (Some folder)
  else mret (Some folder).

Definition _setup_tex_folder : M unit :=
  self ← get_self;
  put_self (set_outFolder (realpath host (posixpath.dirname (_filepath self)))
                          self);;
  folder ← _get_sub_folder;
  self ← get_self;
  put_self (set_tex_folder folder self).

Definition __init__ (human : Armature.t) (weight_precision : nat)
    (filepath : string) (use_rel_paths : bool) : M unit :=
  put_self {| _use_rel_paths := true;
              _human := human;
              _vertex_weight_precision := weight_precision;
              _copied_files := ∅;
              _egg_fp := None;
              _tex_folder := None;
              _outFolder := EmptyString;
              _separate_tex_folder := "textures";
              _filepath := filepath;
              _filename := good_file_name filepath |};;
  _setup_tex_folder.

Definition _copy_texture_to_new_location (image : Image.t) : M string :=
  self ← get_self;
  let filepath := Image.filepath image in
  let filename := posixpath.basename filepath in
  tex_folder ← lift (match _tex_folder self with
                     | Some f => Return f
                     | None => Raise TypeError
                     end);
  let newpath := posixpath.abspath (cwd host) (posixpath.join tex_folder filename) in
  done ← try_except (lift (getitem (_copied_files self) filepath);; mret true)
                    (mret false);
  (if negb done then
     try_except
       (modify_world (fun w => mkWorld (stdout w) (mkdir_calls w)
                                 (save_render_calls w ++ [(filepath, newpath)])
                                 (closed_files w));;
        if save_render_fails host filepath newpath then raise RuntimeError
        else mret tt)
       (print ("Unable to copy '" ++ filepath ++ "' -> '" ++ newpath ++ "'"));;
     self ← get_self;
     put_self (set_copied_files (<[filepath := true]> (_copied_files self)) self)
   else mret tt);;
  self ← get_self;
  if _use_rel_paths self then
    relpath ← lift (match posixpath.relpath (cwd host) newpath (_outFolder self) with
                    | Some p => Return p
                    | None => Raise ValueError
                    end);
    mret (posixpath.normpath relpath)
  else mret newpath.

(** The module defines no global [colorspace_settings]. *)
Definition colorspace_settings : result Image.t := Raise NameError.

Definition _get_image_format (image : Image.t) : M string :=
  let colorspaceName := Image.colorspace_settings_name image in
  let retVal := EmptyString in
  retVal ←
    (if String.eqb colorspaceName "sRGB" then mret "RGB"
     else
       let retVal := EmptyString in
       msg ← lift (cs ← colorspace_settings;
                   Return ("undefined colorspace_settings.name "
                           ++ Image.colorspace_settings_name cs
                           ++ " for texture image " ++ Image.filepath image));
       print msg;;
       mret retVal);
  mret (if Image.use_alpha image then retVal ++ "A" else retVal).

Definition _get_texture_wrap_u (texture : Texture.t) : M (option string) :=
  if String.eqb (Texture.extension texture) "REPEAT"
     && Z.eqb (Texture.repeat_x texture) 1
  then mret (Some "repeat")
  else
    print ("undefined extension " ++ Texture.extension texture ++ " "
           ++ "for texture image " ++ Texture.name texture ++ ", "
           ++ "texture.repeat_x="
           ++ Float.format_f 6 (Float.of_Z (Texture.repeat_x texture)));;
    mret None.

Definition _get_texture_wrap_v (texture : Texture.t) : M (option string) :=
  if String.eqb (Texture.extension texture) "REPEAT"
     && Z.eqb (Texture.repeat_y texture) 1
  then mret (Some "repeat")
  else
    print ("undefined extension " ++ Texture.extension texture ++ " "
           ++ "for texture image " ++ Texture.name texture ++ ", "
           ++ "texture.repeat_y="
           ++ Float.format_f 6 (Float.of_Z (Texture.repeat_y texture)));;
    mret None.

Definition _get_texture_type (texture_coords mapping : string) : M string :=
  if String.eqb texture_coords "UV" && String.eqb mapping "FLAT"
  then mret "2d"
  else
    print ("undefined texture type for texture_coords " ++ texture_coords
           ++ " " ++ "and mapping=" ++ mapping);;
    mret "undefined".

Definition _write_texture (texture : option Texture.t)
    (texture_coords mapping : string) : M unit :=
  match texture with
  | None => mret tt
  | Some texture =>
      match Texture.image texture with
      | None => mret tt
      | Some image =>
          newpath ← _copy_texture_to_new_location image;
          let texname := good_texture_name (Image.filepath image) in
          (* [self._egg_fp.write] is looked up before its argument is
             evaluated *)
          self ← get_self;
          _ ← lift (attr (_egg_fp self));
          format ← _get_image_format image;
          wrapu ← _get_texture_wrap_u texture;
          wrapv ← _get_texture_wrap_v texture;
          type ← _get_texture_type texture_coords mapping;
          write ("<Texture> " ++ texname ++ " {" ++ nl
                 ++ "  " ++ dquote ++ newpath ++ dquote ++ nl
                 ++ "  <Scalar> format { " ++ format ++ " }" ++ nl
                 ++ "  <Scalar> wrapu { " ++ str_or_None wrapu ++ " }" ++ nl
                 ++ "  <Scalar> wrapv { " ++ str_or_None wrapv ++ " }" ++ nl
                 ++ "  <Scalar> type { " ++ type ++ " }" ++ nl
                 ++ "}" ++ nl ++ nl)
      end
  end.

Definition image_textures (mat : Material.t)
  : result (list (Texture.t * string * string)) :=
  for_fold (fun acc tslot =>
              match tslot with
              | None => Return acc
              | Some slot =>
                  texture ← attr (TextureSlot.texture slot);
                  if String.eqb (Texture.type texture) "IMAGE"
                     && String.eqb (match Texture.image texture with
                                    | Some image => Image.source image
                                    | None => EmptyString
                                    end) "FILE"
                  then Return (acc ++ [(texture, TextureSlot.texture_coords slot,
                                        TextureSlot.mapping slot)])%list
                  else Return acc
              end)
           (Material.texture_slots mat) [].

Definition _write_textures (rmeshes : list Object.t) : M unit :=
  for_each rmeshes (fun rmesh =>
    let materials := Mesh.materials (Object.data rmesh) in
    for_each materials (fun mat =>
      match mat with
      | Some mat =>
          imageTextures ← lift (image_textures mat);
          for_each imageTextures (fun '(texture, texture_coords, mapping) =>
            image ← lift (attr (Texture.image texture));
            self ← get_self;
            if negb (bool_decide (is_Some (_copied_files self !! Image.filepath image)))
            then _write_texture (Some texture) texture_coords mapping
            else mret tt)
      | None => mret tt
      end)).

Definition fmt4 (x : float) : string := Float.format_f 4 x.

Definition _write_materials (rmeshes : list Object.t) : M unit :=
  for_each rmeshes (fun rmesh =>
    mat ← lift (attr (Object.active_material rmesh));
    let material_name := good_material_name (Material.name mat) in
    write ("<Material> " ++ material_name ++ " {" ++ nl
           ++ "  <Scalar> diffr { " ++ fmt4 (Color.r (Material.diffuse_color mat)) ++ " }" ++ nl
           ++ "  <Scalar> diffg { " ++ fmt4 (Color.g (Material.diffuse_color mat)) ++ " }" ++ nl
           ++ "  <Scalar> diffb { " ++ fmt4 (Color.b (Material.diffuse_color mat)) ++ " }" ++ nl
           ++ "  <Scalar> specr { " ++ fmt4 (Color.r (Material.specular_color mat)) ++ " }" ++ nl
           ++ "  <Scalar> specg { " ++ fmt4 (Color.g (Material.specular_color mat)) ++ " }" ++ nl
           ++ "  <Scalar> specb { " ++ fmt4 (Color.b (Material.specular_color mat)) ++ " }" ++ nl
           ++ "  <Scalar> speca { " ++ fmt4 (Material.specular_alpha mat) ++ " }" ++ nl
           ++ "  <Scalar> ambr { " ++ fmt4 (Material.ambient mat) ++ " }" ++ nl
           ++ "  <Scalar> ambg { " ++ fmt4 (Material.ambient mat) ++ " }" ++ nl
           ++ "  <Scalar> ambb { " ++ fmt4 (Material.ambient mat) ++ " }" ++ nl
           ++ "  <Scalar> emitr { " ++ fmt4 (Material.emit mat) ++ " }" ++ nl
           ++ "  <Scalar> emitg { " ++ fmt4 (Material.emit mat) ++ " }" ++ nl
           ++ "  <Scalar> emitb { " ++ fmt4 (Material.emit mat) ++ " }" ++ nl
           ++ "  <Scalar> shininess { "
           ++ fmt4 (Float.of_Z (Material.specular_hardness mat)) ++ " }" ++ nl
           ++ "}" ++ nl ++ nl)).

Definition _write_bone_translation (bone : Bone.t) (indent_level : nat) : M unit :=
  let loc := Bone.head_local bone in
  let padding := padding_of indent_level in
  let loc :=
    match Bone.parent bone with
    | Some parent => Vector.sub loc (Bone.head_local parent)
    | None => loc
    end in
  write (padding ++ "<Translate> { "
         ++ " " ++ Float.format_f 5 (Vector.x loc)
         ++ " " ++ Float.format_f 5 (Vector.y loc)
         ++ " " ++ Float.format_f 5 (Vector.z loc) ++ " }" ++ nl).

Definition _write_bone_vertex_ref (meshes_weights : gmap string weights_t)
    (indent_level : nat) : M unit :=
  let padding := padding_of indent_level in
  for_each (sorted String.leb (map fst (map_to_list meshes_weights)))
    (fun mesh_name =>
       weights_dict ← lift (getitem meshes_weights mesh_name);
       let meshName := good_mesh_name mesh_name in
       for_each (sorted String.leb (map fst (map_to_list weights_dict)))
         (fun weight =>
            vertex_indices ← lift (getitem weights_dict weight);
            write (padding ++ "<VertexRef> {" ++ nl ++ padding ++ "  ");;
            for_each (sorted Nat.leb vertex_indices)
              (fun vertex_index => write (Str.of_nat vertex_index ++ " "));;
            write (nl ++ padding ++ "  <Scalar> membership { " ++ weight ++ " }" ++ nl
                   ++ padding ++ "  <Ref> { " ++ meshName ++ "_Mesh }" ++ nl
                   ++ padding ++ "}" ++ nl))).

Fixpoint _write_bone (bone : Bone.t) (bones_weights : bone_weight_dict_t)
    (indent_level : nat) {struct bone} : M unit :=
  let bname := good_bone_name (Bone.name bone) in
  let padding := padding_of indent_level in
  write (padding ++ "<Joint> " ++ bname ++ " {" ++ nl
         ++ padding ++ "  <Transform> {" ++ nl);;
  _write_bone_translation bone (indent_level + 4);;
  write (padding ++ "  }" ++ nl);;
  match bone with
  | Bone.mk _ _ _ children =>
      (fix each (l : list Bone.t) : M unit :=
         match l with
         | [] => mret tt
         | child_bone :: l' =>
             _write_bone child_bone bones_weights (indent_level + 2);; each l'
         end) children
  end;;
  meshes_weights ← lift (getitem bones_weights (Bone.name bone));
  _write_bone_vertex_ref meshes_weights (indent_level + 2);;
  write (padding ++ "}" ++ nl).

Definition _write_armature (meshes : list Object.t) (name : string)
    (indent_level : nat) : M unit :=
  self ← get_self;
  let skel_bones := Armature.bones (_human self) in
  bone_weight_dict ←
    lift (_meshes_to_weight_dict (_human self) (objects host)
                                 (_vertex_weight_precision self));
  let roots :=
    List.filter (fun bone => negb (bool_decide (is_Some (Bone.parent bone))))
                skel_bones in
  root ← lift (list_getitem roots 0);
  _write_bone root bone_weight_dict indent_level.

Definition _uv_from_vert_first (uv_layer : option (list (float * float)))
    (v : list BMLoop.t) : result (option (float * float)) :=
  match v with
  | link_loop :: _ =>
      uv ← loop_uv uv_layer link_loop;
      Return (Some uv)
  | [] => Return None
  end.

(** After the loop the variable [loop] holds the last face corner; with
    no face corner it was never bound. *)
Definition _uv_from_vert_set (uv_layer : option (list (float * float)))
    (bvertex : list BMLoop.t) (mesh : Mesh.t)
  : result (list (string * (float * float))) :=
  uv_set ← for_fold (fun uv_set loop =>
                       uv ← loop_uv uv_layer loop;
                       if negb (existsb (uv_eqb uv) uv_set)
                       then Return (uv_set ++ [uv])%list
                       else Return uv_set)
                    bvertex [];
  loop ← match List.last (map Some bvertex) None with
         | Some loop => Return loop
         | None => Raise UnboundLocalError
         end;
  mat ← list_getitem (Mesh.materials mesh) (BMLoop.face_material_index loop);
  mat ← attr mat;
  let material_name := good_material_name (Material.name mat) in
  texture_names ← image_texture_names mat;
  Return
    (match texture_names, uv_set with
     | [tex], [uv] => [(tex, uv)]
     | [tex], _ => map (fun uv => (tex, uv)) uv_set
     | _, [uv] => map (fun tex => (tex, uv)) texture_names
     | _, _ => []
     end).

Definition _write_vertex (vertex : MeshVertex.t) (indent_level : nat)
    (bvertex : list BMLoop.t) (uv_layer : option (list (float * float)))
    (mesh : Mesh.t) (group_names : list string) (weights : odict nat float)
  : M unit :=
  let padding := padding_of indent_level in
  uv_first ← lift (_uv_from_vert_first uv_layer bvertex);
  uv_set ← lift (_uv_from_vert_set uv_layer bvertex mesh);
  write (padding ++ "<Vertex> " ++ Str.of_nat (MeshVertex.index vertex) ++ " {" ++ nl
         ++ padding ++ "  " ++ fmt4 (Vector.x (MeshVertex.co vertex)) ++ " "
         ++ fmt4 (Vector.y (MeshVertex.co vertex)) ++ " "
         ++ fmt4 (Vector.z (MeshVertex.co vertex)) ++ nl);;
  uv ← lift (match uv_first with
             | Some uv => Return uv
             | None => Raise TypeError
             end);
  write (padding ++ "  <UV> { " ++ fmt4 (fst uv) ++ " " ++ fmt4 (snd uv) ++ " }" ++ nl);;
  write (padding ++ "  <Normal> { "
         ++ fmt4 (Vector.x (MeshVertex.normal vertex)) ++ " "
         ++ fmt4 (Vector.y (MeshVertex.normal vertex)) ++ " "
         ++ fmt4 (Vector.z (MeshVertex.normal vertex)) ++ " }" ++ nl);;
  for_each (oitems weights) (fun '(index, weight) =>
    name ← lift (list_getitem group_names index);
    let bname := good_bone_name name in
    if Float.ne_zero weight then
      write (padding ++ "  // " ++ bname ++ ":" ++ Float.format_f 8 weight ++ nl)
    else mret tt);;
  write (padding ++ "}" ++ nl).

Definition _write_vertexPool (mesh_obj : Object.t) (indent_level : nat) : M unit :=
  let padding := padding_of indent_level in
  let mesh := Object.data mesh_obj in
  let mesh_name := good_mesh_name (Mesh.name mesh) in
  write (padding ++ "<VertexPool> " ++ mesh_name ++ "_Mesh {" ++ nl);;
  let '(group_names, weight_dict) := _mesh_to_weight_dict mesh_obj in
  let verts := bm_verts mesh in
  let uv_layer := Mesh.uv_layer mesh in
  for_each (Mesh.vertices mesh) (fun vertex =>
    bvertex ← lift (list_getitem verts (MeshVertex.index vertex));
    weights ← lift (odict_getitem weight_dict (MeshVertex.index vertex));
    _write_vertex vertex (indent_level + 2) bvertex uv_layer mesh
                  group_names weights);;
  write (padding ++ "}" ++ nl).

Definition _write_polygons (mesh : Mesh.t) (indent_level : nat) : M unit :=
  let padding := padding_of indent_level in
  let mesh_name := good_mesh_name (Mesh.name mesh) in
  for_each (Mesh.polygons mesh) (fun poly =>
    mat ← lift (list_getitem (Mesh.materials mesh) (MeshPolygon.material_index poly));
    mat ← lift (attr mat);
    let material_name := good_material_name (Material.name mat) in
    texture_names ← lift (image_texture_names mat);
    write (padding ++ "<Polygon> " ++ Str.of_nat (MeshPolygon.index poly) ++ " {" ++ nl);;
    for_each texture_names (fun tex_name =>
      write (padding ++ "  <TRef> { " ++ tex_name ++ " }" ++ nl));;
    write (padding ++ "  <MRef> { " ++ material_name ++ " }" ++ nl
           ++ padding ++ "  <VertexRef> { " ++ nl
           ++ padding ++ "    ");;
    for_each (MeshPolygon.loop_indices poly) (fun loop_index =>
      loop ← lift (list_getitem (Mesh.loops mesh) loop_index);
      write (Str.of_nat (MeshLoop.vertex_index loop) ++ " "));;
    write ("<Ref> { " ++ mesh_name ++ "_Mesh }" ++ nl
           ++ padding ++ "  }" ++ nl
           ++ padding ++ "}" ++ nl)).

Definition _write_mesh_object (mesh_obj : Object.t) (indent_level : nat) : M unit :=
  let padding := padding_of indent_level in
  let mesh_name := good_mesh_name (Object.name mesh_obj) in
  write (padding ++ "  <Group> " ++ mesh_name ++ "_Mesh {" ++ nl);;
  _write_vertexPool mesh_obj (indent_level + 4);;
  _write_polygons (Object.data mesh_obj) (indent_level + 4);;
  write (padding ++ "  }" ++ nl).

Definition _write_groups (meshes : list Object.t) (name : string) : M unit :=
  write ("<Group> " ++ name ++ " {" ++ nl);;
  let indent_level := 2%nat in
  let padding := padding_of indent_level in
  self ← get_self;
  (if Nat.ltb 0 (length (Armature.bones (_human self)))
   then write (padding ++ "<Dart> { 1 }" ++ nl)
   else mret tt);;
  write (padding ++ "<Group> CharacterRoot {" ++ nl);;
  for_each meshes (fun mesh => _write_mesh_object mesh (indent_level + 2));;
  (if Nat.ltb 0 (length (Armature.bones (_human self)))
   then _write_armature meshes name (indent_level + 2)
   else mret tt);;
  write (padding ++ "}" ++ nl ++ "}" ++ nl).

(** [self._egg_fp.close()] *)
Definition close_egg_fp : M unit :=
  self ← get_self;
  match _egg_fp self with
  | Some text =>
      modify_world (fun w => mkWorld (stdout w) (mkdir_calls w)
                               (save_render_calls w)
                               (closed_files w ++ [(_filepath self, text)]))
  | None => mret tt
  end.

(** The two [bpy] calls that select object mode and the active object
    touch nothing the exporter reads and are left out. *)
Definition produce_egg : M string :=
  self ← get_self;
  let meshes :=
    List.filter (fun child => String.eqb (Object.type child) "MESH")
                (Armature.children (_human self)) in
  try_finally
    (try_except
       ((if open_fails host (_filepath self) then raise RuntimeError
         else put_self (set_egg_fp (Some EmptyString) self));;
        print ("Writing Egg file " ++ _filepath self))
       (self ← get_self;
        put_self (set_egg_fp None self);;
        print ("Unable to open file for writing " ++ _filepath self));;
     let blendFilename := posixpath.basename (blend_filepath host) in
     let eggFilename := _filename self ++ ".egg" in
     write ("<CoordinateSystem> { Z-Up }" ++ nl ++ nl
            ++ "<Comment> {" ++ nl
            ++ dquote ++ "io_export_egg.py " ++ blendFilename ++ " "
            ++ eggFilename ++ dquote ++ nl
            ++ "}" ++ nl ++ nl);;
     print "Exporting textures";;
     _write_textures meshes;;
     print "Exporting materials";;
     _write_materials meshes;;
     print "Exporting geometry & armature";;
     let name := _filename self in
     _write_groups meshes name)
    (close_egg_fp;;
     print "Done.");;
  mret "FINISHED".

End Worker.

(** ** [ExportEggOperator]

    The operator holds the options of the file dialog.  The precision is
    one of the strings ['4'], ['5'] and ['6'], kept here as the number it
    spells; the selection is Blender's [context.selected_objects]. *)

Module ExportEggOperator.

Record t := mk {
  vertex_membership_precision : nat;
  filepath : string;
  use_rel_paths : bool }.

(** [poll] returns the selection itself, which is true when it is not
    empty. *)
Definition poll (selected_objects : list Armature.t) : bool :=
  match selected_objects with
  | [] => false
  | _ :: _ => true
  end.

Definition execute (host : Host) (self : t)
    (selected_objects : list Armature.t) : M string :=
  human ← lift (list_getitem selected_objects 0);
  __init__ host human (vertex_membership_precision self) (filepath self)
           (use_rel_paths self);;
  produce_egg host.

End ExportEggOperator.

(** * Vocabulary of the properties

    The notions the theorems are stated with, and the scenes they are
    tried on.  Nothing here is part of the exporter. *)

Local Open Scope list_scope.

Implicit Types (wd : weight_dict_t) (t : nat * nat * float).
Implicit Types (bwd : bone_weight_dict_t).

(** Decimal literals: [dec n k] is the single-precision value nearest to
    [n / 10^k]. *)
Definition dec (n : Z) (k : nat) : float :=
  SFdiv 24 128 (binary_normalize 24 128 n 0 false)
               (binary_normalize 24 128 (10 ^ Z.of_nat k) 0 false).

(** ** Names *)

Definition sanitizers : list (string -> string) :=
  [good_file_name; good_bone_name; good_mesh_name; good_texture_name;
   good_material_name].

(** A name without ['.'], ['-'], space and [':']. *)
Definition clean_name (s : string) : Prop :=
  Str.contains "."%char s = false /\ Str.contains "-"%char s = false /\
  Str.contains " "%char s = false /\ Str.contains ":"%char s = false.

(** ** Texture relocation *)

(** Where the image goes, and what the caller gets back. *)
Definition destination (host : Host) (tex_folder : string) (image : Image.t)
  : string :=
  posixpath.abspath (cwd host)
    (posixpath.join tex_folder (posixpath.basename (Image.filepath image))).

Definition reference (host : Host) (self : Self) (tex_folder : string)
    (image : Image.t) : string :=
  let newpath := destination host tex_folder image in
  if _use_rel_paths self then
    match posixpath.relpath (cwd host) newpath (_outFolder self) with
    | Some p => posixpath.normpath p
    | None => newpath
    end
  else newpath.

(** The world after one [save_render] call, with its diagnostic if the
    call failed. *)
Definition log_save_render (host : Host) (src dst : string) (w : World) : World :=
  mkWorld (if save_render_fails host src dst
           then stdout w ++ ["Unable to copy '" +:+ src +:+ "' -> '" +:+ dst +:+ "'"]
           else stdout w)
          (mkdir_calls w) (save_render_calls w ++ [(src, dst)]) (closed_files w).

(** How often [image.save_render] was called on the source path [src]. *)
Definition copies_of (src : string) (calls : list (string * string)) : nat :=
  length (List.filter (fun c => String.eqb (fst c) src) calls).

(** What a request leaves alone, and what it keeps registered. *)
Definition request_keeps (src : string) (st st' : State) : Prop :=
  _tex_folder (fst st') = _tex_folder (fst st) /\
  _use_rel_paths (fst st') = _use_rel_paths (fst st) /\
  _outFolder (fst st') = _outFolder (fst st) /\
  is_Some (_copied_files (fst st') !! src) /\
  exists calls, save_render_calls (snd st') = save_render_calls (snd st) ++ calls
                /\ copies_of src calls = 0%nat.

(** ** The weight dictionary of one mesh *)

(** No key is listed twice: what holds of every dictionary that was built
    by assignments. *)
Definition owf {K V} (d : odict K V) : Prop := NoDup (oitems d).*1.

(** A weight dictionary without a repeated vertex, or a repeated group
    under a vertex. *)
Definition wd_wf (wd : weight_dict_t) : Prop :=
  owf wd /\ forall v d, wd !! v = Some d -> owf d.

(** The weight stored for vertex [v] and group [g]. *)
Definition entry wd (v g : nat) : option float := wd !! v ≫= (.!! g).

Definition key t : nat * nat := (t.1.1, t.1.2).

(** The (vertex, group, weight) triples of a mesh object, in the order
    of its vertices and of their group lists. *)
Definition weight_triples (mesh_obj : Object.t) : list (nat * nat * float) :=
  Mesh.vertices (Object.data mesh_obj) ≫= (fun v =>
    (fun e => (MeshVertex.index v, VertexGroupElement.group e,
               VertexGroupElement.weight e)) <$> MeshVertex.groups v).

Definition group_names_of (mesh_obj : Object.t) : list string :=
  map VertexGroup.name (Object.vertex_groups mesh_obj).

(** One assignment [weight_dict[v][g] = w] of [_mesh_to_weight_dict]. *)
Definition set_weight (tot : nat) wd t : weight_dict_t :=
  if Nat.ltb t.1.2 tot
  then <[t.1.1 := <[t.1.2 := t.2]> (default ∅ (wd !! t.1.1))]> wd
  else wd.

(** One weight entry per vertex and group: vertex indices are distinct
    within a mesh, and a vertex lists a group at most once. *)
Definition distinct_weights (mesh_obj : Object.t) : Prop :=
  NoDup (MeshVertex.index <$> Mesh.vertices (Object.data mesh_obj)) /\
  forall v, v ∈ Mesh.vertices (Object.data mesh_obj) ->
            NoDup (VertexGroupElement.group <$> MeshVertex.groups v).

(** The entries of a weight dictionary in iteration order: the vertex
    indices in the order of the outer dictionary, the groups of each in
    the order of its inner one. *)
Definition items_of wd : list (nat * nat * float) :=
  oitems wd ≫= (fun '(v, v_groups) =>
    (fun '(g, w) => (v, g, w)) <$> oitems v_groups).

(** ** The index, bucket by bucket *)

(** [bone_weight_dict[b][m]], when both keys are there. *)
Definition table bwd (b m : string) : option weights_t := bwd !! b ≫= (.!! m).

(** The vertex list under [bone_weight_dict[b][m][s]]; empty when a key
    is missing. *)
Definition bucket bwd (b m s : string) : list nat :=
  default [] (table bwd b m ≫= (.!! s)).

(** The triples that feed bucket [s] of bone [b]. *)
Definition feeds (prec : nat) (group_names : list string) (b s : string) t : Prop :=
  group_names !! t.1.2 = Some b /\ Float.ne_zero t.2 = true
  /\ Float.format_f prec t.2 = s.

Global Instance feeds_dec prec group_names b s t :
  Decision (feeds prec group_names b s t).
Proof. unfold feeds. apply _. Defined.

(** The vertices that a list of items puts in bucket [s] of bone [b]. *)
Definition contrib (prec : nat) (group_names : list string)
    (items : list (nat * nat * float)) (b s : string) : list nat :=
  (fun t => t.1.1) <$> filter (feeds prec group_names b s) items.

Definition same_tables bwd bwd' : Prop :=
  forall b m, is_Some (table bwd' b m) <-> is_Some (table bwd b m).

(** The innermost loop body, on one item of one mesh. *)
Definition add_item (prec : nat) (group_names : list string) (m : string) bwd t
  : result bone_weight_dict_t :=
  add_weight prec group_names m t.1.1 bwd (t.1.2, t.2).

(** What mesh [m] adds to bucket [s] of bone [b]. *)
Definition mesh_contrib (objects : gmap string Object.t) (prec : nat)
    (m b s : string) : list nat :=
  match objects !! m with
  | Some mesh =>
      contrib prec (group_names_of mesh)
              (items_of (snd (_mesh_to_weight_dict mesh))) b s
  | None => []
  end.

(** The first two loops allocate a table for every bone and mesh. *)
Definition allocate_step bwd (p : Bone.t * string) : result bone_weight_dict_t :=
  by_mesh ← getitem bwd (Bone.name p.1);
  Return (<[Bone.name p.1 := <[p.2 := ∅]> by_mesh]> bwd).

Definition no_vertices bwd : Prop := forall b m s, bucket bwd b m s = [].

Definition allocate (human : Armature.t) : result bone_weight_dict_t :=
  for_fold allocate_step
    (Armature.bones human ≫= (fun bone => pair bone <$> mesh_names human))
    (foldl (fun d bone => <[Bone.name bone := ∅]> d) ∅ (Armature.bones human)).

(** ** Scenes *)

(** [child] is one of the armature's mesh children. *)
Definition mesh_child (human : Armature.t) (child : Object.t) : Prop :=
  child ∈ Armature.children human /\ Object.type child = "MESH".

(** What Blender guarantees of a scene: object names are unique and
    [bpy.data.objects] finds each child under its name; the vertex
    groups of an object have distinct names; the vertices of a mesh have
    distinct indices, and a vertex lists a group at most once. *)
Record well_formed (human : Armature.t) (objects : gmap string Object.t)
  : Prop := {
  wf_names : NoDup (mesh_names human);
  wf_objects : forall child, mesh_child human child ->
                 objects !! Object.name child = Some child;
  wf_groups : forall child, mesh_child human child ->
                NoDup (group_names_of child);
  wf_weights : forall child, mesh_child human child -> distinct_weights child }.

(** Every vertex group that a vertex is assigned to is named after a
    bone of the armature. *)
Definition groups_name_bones (human : Armature.t) : Prop :=
  forall child vertex e b,
    mesh_child human child ->
    vertex ∈ Mesh.vertices (Object.data child) ->
    e ∈ MeshVertex.groups vertex ->
    group_names_of child !! VertexGroupElement.group e = Some b ->
    exists bone, bone ∈ Armature.bones human /\ Bone.name bone = b.

(** Vertex [v] of the mesh has a non-zero weight for the bone named
    [bone_name], and that weight is formatted as [s]. *)
Definition has_weight (prec : nat) (mesh_obj : Object.t) (bone_name : string)
    (v : nat) (s : string) : Prop :=
  exists vertex e,
    vertex ∈ Mesh.vertices (Object.data mesh_obj)
    /\ MeshVertex.index vertex = v
    /\ e ∈ MeshVertex.groups vertex
    /\ group_names_of mesh_obj !! VertexGroupElement.group e = Some bone_name
    /\ Float.ne_zero (VertexGroupElement.weight e) = true
    /\ Float.format_f prec (VertexGroupElement.weight e) = s.

(** C1 as stated: for the armature and its mesh children the builder
    builds an index, and the index has a table for every bone and every
    mesh child whose buckets together hold exactly the vertices of the
    mesh with a non-zero weight for the bone. *)
Definition index_built_complete (human : Armature.t)
    (objects : gmap string Object.t) (prec : nat) : Prop :=
  exists idx,
    _meshes_to_weight_dict human objects prec = Return idx
    /\ forall bone child,
         bone ∈ Armature.bones human -> mesh_child human child ->
         exists weights : weights_t,
           table idx (Bone.name bone) (Object.name child) = Some weights
           /\ forall v, (exists s l, weights !! s = Some l /\ v ∈ l)
                        <-> exists s, has_weight prec child (Bone.name bone) v s.

(** C3 as stated: every triple whose group index does not exceed the
    length of the group list and whose weight is not 0.0 has its vertex
    in a bucket. *)
Definition in_range_by_length (human : Armature.t)
    (objects : gmap string Object.t) (prec : nat) : Prop :=
  forall idx, _meshes_to_weight_dict human objects prec = Return idx ->
  forall child vertex e,
    mesh_child human child ->
    vertex ∈ Mesh.vertices (Object.data child) ->
    e ∈ MeshVertex.groups vertex ->
    ~ (length (group_names_of child) < VertexGroupElement.group e)%nat ->
    Float.ne_zero (VertexGroupElement.weight e) = true ->
    exists b s, MeshVertex.index vertex ∈ bucket idx b (Object.name child) s.

(** ** The output file *)

(** [st'] has the output file of [st] with some text appended (and no
    file if [st] has none). *)
Definition extends (st st' : State) : Prop :=
  exists text, _egg_fp (fst st') = (fun buf => buf +:+ text) <$> _egg_fp (fst st).

Definition appends {A} (c : M A) : Prop := forall st, extends st (snd (c st)).

(** ** Fixed-point text *)

Definition is_digit (c : ascii) : bool :=
  (48 <=? nat_of_ascii c)%nat && (nat_of_ascii c <=? 57)%nat.

Definition all_digits (s : string) : Prop :=
  Forall (fun c => is_digit c = true) (list_ascii_of_string s).

(** Text of the form [d...d.d...d] with at least one digit before the
    point and exactly [p] after it. *)
Definition decimals (p : nat) (s : string) : Prop :=
  exists ip fp,
    s = ip +:+ "." +:+ fp
    /\ all_digits ip /\ all_digits fp
    /\ (0 < String.length ip)%nat /\ String.length fp = p.

Definition is_finite (x : float) : bool :=
  match x with
  | S754_zero _ | S754_finite _ _ _ => true
  | _ => false
  end.

(** ** Joints *)

(** The line ['%s<Translate> { ' % padding + ' %.5f %.5f %.5f }\n' % loc]. *)
Definition translate_line (indent_level : nat) (loc : Vector.t) : string :=
  padding_of indent_level +:+ "<Translate> { "
  +:+ " " +:+ Float.format_f 5 (Vector.x loc)
  +:+ " " +:+ Float.format_f 5 (Vector.y loc)
  +:+ " " +:+ Float.format_f 5 (Vector.z loc) +:+ " }" +:+ nl.

(** The opening of a joint node, up to its transform. *)
Definition joint_open (bone : Bone.t) (indent_level : nat) : string :=
  padding_of indent_level +:+ "<Joint> " +:+ good_bone_name (Bone.name bone)
  +:+ " {" +:+ nl +:+ padding_of indent_level +:+ "  <Transform> {" +:+ nl.

(** What [_write_bone] does after the transform: the child joints, the
    vertex references, the closing brace. *)
Definition joint_rest (bone : Bone.t) (bones_weights : bone_weight_dict_t)
    (indent_level : nat) : M unit :=
  for_each (Bone.children bone)
    (fun child_bone => _write_bone child_bone bones_weights (indent_level + 2));;
  meshes_weights ← lift (getitem bones_weights (Bone.name bone));
  _write_bone_vertex_ref meshes_weights (indent_level + 2);;
  write (padding_of indent_level +:+ "}" +:+ nl).

(** ** Material records *)

(** The text of one [<Material>] record. *)
Definition material_record (mat : Material.t) : string :=
  "<Material> " +:+ good_material_name (Material.name mat) +:+ " {" +:+ nl
  +:+ "  <Scalar> diffr { " +:+ fmt4 (Color.r (Material.diffuse_color mat)) +:+ " }" +:+ nl
  +:+ "  <Scalar> diffg { " +:+ fmt4 (Color.g (Material.diffuse_color mat)) +:+ " }" +:+ nl
  +:+ "  <Scalar> diffb { " +:+ fmt4 (Color.b (Material.diffuse_color mat)) +:+ " }" +:+ nl
  +:+ "  <Scalar> specr { " +:+ fmt4 (Color.r (Material.specular_color mat)) +:+ " }" +:+ nl
  +:+ "  <Scalar> specg { " +:+ fmt4 (Color.g (Material.specular_color mat)) +:+ " }" +:+ nl
  +:+ "  <Scalar> specb { " +:+ fmt4 (Color.b (Material.specular_color mat)) +:+ " }" +:+ nl
  +:+ "  <Scalar> speca { " +:+ fmt4 (Material.specular_alpha mat) +:+ " }" +:+ nl
  +:+ "  <Scalar> ambr { " +:+ fmt4 (Material.ambient mat) +:+ " }" +:+ nl
  +:+ "  <Scalar> ambg { " +:+ fmt4 (Material.ambient mat) +:+ " }" +:+ nl
  +:+ "  <Scalar> ambb { " +:+ fmt4 (Material.ambient mat) +:+ " }" +:+ nl
  +:+ "  <Scalar> emitr { " +:+ fmt4 (Material.emit mat) +:+ " }" +:+ nl
  +:+ "  <Scalar> emitg { " +:+ fmt4 (Material.emit mat) +:+ " }" +:+ nl
  +:+ "  <Scalar> emitb { " +:+ fmt4 (Material.emit mat) +:+ " }" +:+ nl
  +:+ "  <Scalar> shininess { "
  +:+ fmt4 (Float.of_Z (Material.specular_hardness mat)) +:+ " }" +:+ nl
  +:+ "}" +:+ nl +:+ nl.

(** The records of a list of materials, one after the other. *)
Definition material_records (mats : list Material.t) : string :=
  foldr (fun mat text => material_record mat +:+ text) EmptyString mats.

(** C8 as stated: two meshes that share their active material yield a
    single record of it. *)
Definition shared_material_once (a b : Object.t) (mat : Material.t) : Prop :=
  Object.active_material a = Some mat -> Object.active_material b = Some mat ->
  forall self w buf,
    _egg_fp self = Some buf ->
    _egg_fp (_write_materials [a; b] (self, w)).2.1
    = Some (buf +:+ material_record mat).

(** ** A sample scene

    A root bone at the origin with one child bone at (0, 1, 0), and one
    mesh, a single textured triangle skinned to the child bone.  Vertex 1
    also carries a zero weight for the root, and vertex 2 a weight for a
    group index beyond the mesh's two vertex groups. *)

Module Sample.

Definition f0 : float := Float.zero.
Definition f1 : float := dec 1 0.
Definition origin : Vector.t := Vector.mk f0 f0 f0.
Definition up : Vector.t := Vector.mk f0 f0 f1.

Definition image : Image.t := Image.mk "/src/skin.png" "sRGB" true "FILE".
Definition texture : Texture.t :=
  Texture.mk "skin" "IMAGE" (Some image) "REPEAT" 1 1.
Definition slot : TextureSlot.t := TextureSlot.mk (Some texture) "UV" "FLAT".
Definition white : Color.t := Color.mk f1 f1 f1.
Definition material : Material.t :=
  Material.mk "MakeHuman:skin tone" white white f1 f1 f0 50 [Some slot; None].

Definition full (g : nat) : VertexGroupElement.t := VertexGroupElement.mk g f1.

Definition mesh : Mesh.t :=
  Mesh.mk "MakeHuman:Body"
    [MeshVertex.mk 0 origin up [full 1];
     MeshVertex.mk 1 (Vector.mk f1 f0 f0) up
       [full 1; VertexGroupElement.mk 0 f0];
     MeshVertex.mk 2 (Vector.mk f0 f1 f0) up
       [full 1; VertexGroupElement.mk 5 (dec 25 2)]]%nat
    [MeshLoop.mk 0; MeshLoop.mk 1; MeshLoop.mk 2]%nat
    [MeshPolygon.mk 0 0 [0; 1; 2]]%nat
    [Some material]
    (Some [(f0, f0); (f1, f0); (f0, f1)]).

Definition body : Object.t :=
  Object.mk "MakeHuman:Body" "MESH" mesh
    [VertexGroup.mk "root"; VertexGroup.mk "child.L"] (Some material).

Definition child_bone : Bone.t :=
  Bone.mk "child.L" (Vector.mk f0 f1 f0) (Some (Bone.mk "root" origin None [])) [].
Definition root_bone : Bone.t := Bone.mk "root" origin None [child_bone].

Definition human : Armature.t := Armature.mk [root_bone; child_bone] [body].

Definition objects : gmap string Object.t := {[ "MakeHuman:Body" := body ]}.

Definition host : Host :=
  mkHost "/work" (posixpath.realpath "/work")
         (fun _ => false) (fun _ => false) (fun _ _ => false)
         (fun _ => false) objects "/work/scene.blend".

Definition world : World := mkWorld [] [] [] [].

(** Any worker object, for [__init__] to overwrite. *)
Definition blank : Self :=
  mkSelf false human 0 ∅ None None EmptyString EmptyString EmptyString EmptyString.

(** The state after [ExportEggWorker(human, '4', '/out/my model.egg', False)]. *)
Definition constructed : State :=
  snd (__init__ host human 4 "/out/my model.egg" false (blank, world)).

(** A worker with the output file open and nothing written yet. *)
Definition opened : State := (set_egg_fp (Some EmptyString) blank, world).

(** The constructed worker, with the output file open. *)
Definition exporting : State :=
  (set_egg_fp (Some EmptyString) constructed.1, constructed.2).

(** Two more images: one in a linear color space, one more texture. *)
Definition linear_image : Image.t := Image.mk "/src/skin.png" "Linear" true "FILE".
Definition eyes : Image.t := Image.mk "/src/eyes.png" "sRGB" false "FILE".

End Sample.

(** A mesh with one vertex group and one vertex, whose only weight names
    group index 1: the index equals the length of the group list. *)
Module Boundary.

Definition mesh : Mesh.t :=
  Mesh.mk "Body"
    [MeshVertex.mk 0 Sample.origin Sample.up [Sample.full 1]]%nat
    [] [] [] None.

Definition body : Object.t :=
  Object.mk "Body" "MESH" mesh [VertexGroup.mk "root"] None.

Definition human : Armature.t :=
  Armature.mk [Bone.mk "root" Sample.origin None []] [body].

Definition objects : gmap string Object.t := {[ "Body" := body ]}.

End Boundary.

(** A triangle whose third vertex is in no vertex group. *)
Module Ungrouped.

Definition mesh : Mesh.t :=
  Mesh.mk "Body"
    [MeshVertex.mk 0 Sample.origin Sample.up [Sample.full 0];
     MeshVertex.mk 1 Sample.origin Sample.up [Sample.full 0];
     MeshVertex.mk 2 Sample.origin Sample.up []]%nat
    [MeshLoop.mk 0; MeshLoop.mk 1; MeshLoop.mk 2]%nat
    [MeshPolygon.mk 0 0 [0; 1; 2]]%nat
    [Some Sample.material]
    (Some [(Sample.f0, Sample.f0); (Sample.f1, Sample.f0); (Sample.f0, Sample.f1)]).

Definition body : Object.t :=
  Object.mk "Body" "MESH" mesh [VertexGroup.mk "root"] (Some Sample.material).

End Ungrouped.

(** Two meshes with the same active material. *)
Module Shared.

Definition hair : Object.t :=
  Object.mk "MakeHuman:Hair" "MESH" Sample.mesh [] (Some Sample.material).

Definition rmeshes : list Object.t := [Sample.body; hair].

Definition opened : State := Sample.opened.

End Shared.

(** ** The constructor and the export as a whole *)

(** [self._outFolder] and [self._tex_folder] for an output path. *)
Definition out_folder (host : Host) (filepath : string) : string :=
  realpath host (posixpath.dirname filepath).

Definition tex_folder_of (host : Host) (filepath : string) : string :=
  posixpath.join (out_folder host filepath) "textures".

(** The worker that [ExportEggWorker(human, weight_precision, filepath, _)]
    builds. *)
Definition new_worker (host : Host) (human : Armature.t)
    (weight_precision : nat) (filepath : string) : Self :=
  mkSelf true human weight_precision ∅ None
         (Some (tex_folder_of host filepath)) (out_folder host filepath)
         "textures" filepath (good_file_name filepath).

(** The world with one more line printed. *)
Definition printed (lines : list string) (w : World) : World :=
  mkWorld (stdout w ++ lines) (mkdir_calls w) (save_render_calls w)
          (closed_files w).

(** The diagnostic of a failed [save_render]. *)
Definition copy_diagnostic (src dst : string) : string :=
  "Unable to copy '" +:+ src +:+ "' -> '" +:+ dst +:+ "'".

(** The first lines of every document. *)
Definition header (host : Host) (self : Self) : string :=
  "<CoordinateSystem> { Z-Up }" +:+ nl +:+ nl
  +:+ "<Comment> {" +:+ nl
  +:+ dquote +:+ "io_export_egg.py "
  +:+ posixpath.basename (blend_filepath host) +:+ " "
  +:+ (_filename self +:+ ".egg") +:+ dquote +:+ nl
  +:+ "}" +:+ nl +:+ nl.

(** ** Texture records *)

(** What [_get_image_format], [_get_texture_wrap_u], [_get_texture_wrap_v]
    and [_get_texture_type] answer for a supported image. *)
Definition format_of (image : Image.t) : string :=
  if Image.use_alpha image then "RGBA" else "RGB".

Definition wrap_of (extension : string) (repeat : Z) : string :=
  if String.eqb extension "REPEAT" && Z.eqb repeat 1 then "repeat" else "None".

Definition type_of (texture_coords mapping : string) : string :=
  if String.eqb texture_coords "UV" && String.eqb mapping "FLAT"
  then "2d" else "undefined".

(** The text of one [<Texture>] record. *)
Definition texture_record (texture : Texture.t) (image : Image.t)
    (newpath texture_coords mapping : string) : string :=
  "<Texture> " +:+ good_texture_name (Image.filepath image) +:+ " {" +:+ nl
  +:+ "  " +:+ dquote +:+ newpath +:+ dquote +:+ nl
  +:+ "  <Scalar> format { " +:+ format_of image +:+ " }" +:+ nl
  +:+ "  <Scalar> wrapu { "
  +:+ wrap_of (Texture.extension texture) (Texture.repeat_x texture) +:+ " }" +:+ nl
  +:+ "  <Scalar> wrapv { "
  +:+ wrap_of (Texture.extension texture) (Texture.repeat_y texture) +:+ " }" +:+ nl
  +:+ "  <Scalar> type { " +:+ type_of texture_coords mapping +:+ " }" +:+ nl
  +:+ "}" +:+ nl +:+ nl.

(** ** More scenes *)

Module Cases.

(** A host on which nothing can be created, copied or opened. *)
Definition failing_host : Host :=
  mkHost "/work" (posixpath.realpath "/work")
         (fun _ => false) (fun _ => true) (fun _ _ => true)
         (fun _ => true) Sample.objects "/work/scene.blend".

(** A worker whose texture folder is there, on that host. *)
Definition worker : Self :=
  new_worker failing_host Sample.human 4 "/out/my model.egg".

(** The same worker with the output file open and nothing written. *)
Definition writing : Self := set_egg_fp (Some EmptyString) worker.

(** Two bones of an arm, neither at the origin: the upper arm at
    (1, 2, 3) and the forearm, its child, at (1.5, 2.25, 5). *)
Definition upper_arm : Bone.t :=
  Bone.mk "upper arm.L" (Vector.mk (dec 1 0) (dec 2 0) (dec 3 0)) None [].
Definition forearm : Bone.t :=
  Bone.mk "forearm.L" (Vector.mk (dec 15 1) (dec 225 2) (dec 5 0))
          (Some upper_arm) [].

(** A clamped texture on a generated coordinate system. *)
Definition clamped : Texture.t :=
  Texture.mk "decal" "IMAGE" (Some Sample.eyes) "CLIP" 1 2.

(** A second image called [skin.png], from another directory. *)
Definition other_skin : Image.t := Image.mk "/lib/skin.png" "sRGB" true "FILE".

(** A body with a third vertex group, [helper], that is no bone; vertex 0
    carries the weight 0.0 for it. *)
Definition helped : Object.t :=
  Object.mk "MakeHuman:Body" "MESH"
    (Mesh.mk "MakeHuman:Body"
       [MeshVertex.mk 0 Sample.origin Sample.up
          [Sample.full 1; VertexGroupElement.mk 2 Sample.f0]]
       [] [] [] None)
    [VertexGroup.mk "root"; VertexGroup.mk "child.L"; VertexGroup.mk "helper"]
    None.

(** The sample armature with that body as its only child. *)
Definition helped_human : Armature.t :=
  Armature.mk [Sample.root_bone; Sample.child_bone] [helped].

Definition helped_objects : gmap string Object.t :=
  {[ "MakeHuman:Body" := helped ]}.

(** A mesh object without an active material. *)
Definition bare : Object.t :=
  Object.mk "Bare" "MESH" Sample.mesh [VertexGroup.mk "root"] None.

End Cases.

(** ** What a computation leaves alone *)

(** [c] takes every state to one that is [R]-related to it, whether it
    returns or raises. *)
Definition keeps {A} (R : State -> State -> Prop) (c : M A) : Prop :=
  forall st, R st (c st).2.

(** The fields of the worker that only the constructor sets. *)
Definition same_config (s s' : Self) : Prop :=
  _use_rel_paths s' = _use_rel_paths s /\ _human s' = _human s
  /\ _vertex_weight_precision s' = _vertex_weight_precision s
  /\ _tex_folder s' = _tex_folder s /\ _outFolder s' = _outFolder s
  /\ _separate_tex_folder s' = _separate_tex_folder s
  /\ _filepath s' = _filepath s /\ _filename s' = _filename s.

(** [st'] is [st] with text appended to the output file, and nothing
    else: the world is the same, and so is the rest of the worker. *)
Definition only_appends (st st' : State) : Prop :=
  st'.2 = st.2 /\ same_config st.1 st'.1
  /\ _copied_files st'.1 = _copied_files st.1 /\ extends st st'.

(** From [st] to [st'] the export went on: the configuration is the
    same, the file has grown, lines were printed, and no directory was
    made and no file closed. *)
Definition went_on (st st' : State) : Prop :=
  same_config st.1 st'.1 /\ extends st st'
  /\ mkdir_calls st'.2 = mkdir_calls st.2
  /\ closed_files st'.2 = closed_files st.2
  /\ exists lines, stdout st'.2 = stdout st.2 ++ lines.

(** From [st] to [st'] every [save_render] call was for a source path
    that was not registered before, no path was copied twice, every
    copied path is registered, and every copy went into the texture
    folder under the base name of its source. *)
Definition copies_once (host : Host) (st st' : State) : Prop :=
  _tex_folder st'.1 = _tex_folder st.1
  /\ exists calls,
       save_render_calls st'.2 = save_render_calls st.2 ++ calls
       /\ NoDup calls.*1
       /\ (forall src, is_Some (_copied_files st'.1 !! src)
             <-> is_Some (_copied_files st.1 !! src) \/ src ∈ calls.*1)
       /\ (forall src, src ∈ calls.*1 -> _copied_files st.1 !! src = None)
       /\ (forall src dst, (src, dst) ∈ calls ->
             exists tex_folder,
               _tex_folder st.1 = Some tex_folder
               /\ dst = posixpath.abspath (cwd host)
                          (posixpath.join tex_folder (posixpath.basename src))).

(** What [produce_egg] does between the header and the [finally]
    clause. *)
Definition after_header (host : Host) (self : Self) : M unit :=
  let meshes :=
    List.filter (fun child => String.eqb (Object.type child) "MESH")
                (Armature.children (_human self)) in
  print "Exporting textures";;
  _write_textures host meshes;;
  print "Exporting materials";;
  _write_materials meshes;;
  print "Exporting geometry & armature";;
  _write_groups host meshes (_filename self).

(** The [finally] clause, on a worker whose file is open. *)
Definition closed_with (text : string) (st : State) : State :=
  (st.1, mkWorld (stdout st.2 ++ ["Done."]) (mkdir_calls st.2)
                 (save_render_calls st.2)
                 (closed_files st.2 ++ [(_filepath st.1, text)])).

(** ** The keys of the index *)

(** The index has a key for the name of every bone, and no other. *)
Definition keyed_by_bones (human : Armature.t) bwd : Prop :=
  forall k, is_Some (bwd !! k) <->
            exists bone, bone ∈ Armature.bones human /\ Bone.name bone = k.

(** ** Vertex references *)

(** Two tables with the same weight strings and, under each, the same
    vertex indices in any order; two dictionaries of a bone with the same
    meshes and such tables. *)
Definition same_vertices (t t' : weights_t) : Prop :=
  forall s, option_Forall2 Permutation (t !! s) (t' !! s).

Definition same_buckets (mw mw' : gmap string weights_t) : Prop :=
  forall m, option_Forall2 same_vertices (mw !! m) (mw' !! m).

(** ** Scenes that can be exported *)

(** On every state that satisfies [P], [c] returns, in a state that
    satisfies [P]. *)
Definition runs {A} (P : State -> Prop) (c : M A) : Prop :=
  forall st, P st -> exists a st', c st = (Return a, st') /\ P st'.

(** The output file is open and the worker is configured as [self]. *)
Definition writing_for (self : Self) (st : State) : Prop :=
  is_Some (_egg_fp st.1) /\ same_config self st.1.

(** The root bones of an armature, as [_write_armature] lists them. *)
Definition roots (human : Armature.t) : list Bone.t :=
  List.filter (fun bone => negb (bool_decide (is_Some (Bone.parent bone))))
              (Armature.bones human).

(** [bone] is [root] or one of the bones below it. *)
Inductive below (root : Bone.t) : Bone.t -> Prop :=
| below_root : below root root
| below_child bone child :
    below root bone -> child ∈ Bone.children bone -> below root child.

(** The bone has the name of a bone of the armature. *)
Definition listed (human : Armature.t) (bone : Bone.t) : Prop :=
  exists b, b ∈ Armature.bones human /\ Bone.name b = Bone.name bone.

(** An armature whose skeleton can be written: the scene is well formed,
    the assigned vertex groups are named after bones, there is a root
    bone, and the bones below the first root are bones of the armature. *)
Record armature_ok (host : Host) (human : Armature.t) : Prop := {
  ok_scene : well_formed human (objects host);
  ok_groups : groups_name_bones human;
  ok_root : exists root,
      roots human !! 0%nat = Some root
      /\ forall bone, below root bone -> listed human bone }.

(** A material whose image textures can be named: every texture slot in
    use has a texture, and a texture of type [IMAGE] has an image. *)
Definition material_ok (mat : Material.t) : Prop :=
  forall slot, Some slot ∈ Material.texture_slots mat ->
    exists texture,
      TextureSlot.texture slot = Some texture
      /\ (Texture.type texture = "IMAGE" -> is_Some (Texture.image texture)).

(** Vertex [v] is a corner of some polygon of the mesh. *)
Definition has_corner (mesh : Mesh.t) (v : nat) : Prop :=
  exists poly li loop,
    poly ∈ Mesh.polygons mesh /\ li ∈ MeshPolygon.loop_indices poly
    /\ Mesh.loops mesh !! li = Some loop /\ MeshLoop.vertex_index loop = v.

(** A mesh object whose geometry can be written: vertex indices are
    positions in the vertex list; every vertex carries a weight for one
    of the vertex groups and is a corner of a polygon; there is a UV
    layer with a coordinate pair for every loop; every polygon has its
    material, and its loops are loops of the mesh. *)
Record mesh_ok (mesh_obj : Object.t) : Prop := {
  ok_index : forall vertex,
      vertex ∈ Mesh.vertices (Object.data mesh_obj) ->
      (MeshVertex.index vertex
       < length (Mesh.vertices (Object.data mesh_obj)))%nat;
  ok_group : forall vertex,
      vertex ∈ Mesh.vertices (Object.data mesh_obj) ->
      exists e, e ∈ MeshVertex.groups vertex
                /\ (VertexGroupElement.group e
                    < length (Object.vertex_groups mesh_obj))%nat;
  ok_corner : forall vertex,
      vertex ∈ Mesh.vertices (Object.data mesh_obj) ->
      has_corner (Object.data mesh_obj) (MeshVertex.index vertex);
  ok_uv : exists layer,
      Mesh.uv_layer (Object.data mesh_obj) = Some layer
      /\ (length (Mesh.loops (Object.data mesh_obj)) <= length layer)%nat;
  ok_material : forall poly,
      poly ∈ Mesh.polygons (Object.data mesh_obj) ->
      exists mat,
        Mesh.materials (Object.data mesh_obj) !! MeshPolygon.material_index poly
        = Some (Some mat)
        /\ material_ok mat;
  ok_loops : forall poly li,
      poly ∈ Mesh.polygons (Object.data mesh_obj) ->
      li ∈ MeshPolygon.loop_indices poly ->
      (li < length (Mesh.loops (Object.data mesh_obj)))%nat }.

(** A mesh object whose textures can be written: every texture slot in
    use of every material has a texture, and an image of an [IMAGE]
    texture that comes from a file is in the [sRGB] color space. *)
Definition textures_ok (mesh_obj : Object.t) : Prop :=
  forall mat slot,
    Some mat ∈ Mesh.materials (Object.data mesh_obj) ->
    Some slot ∈ Material.texture_slots mat ->
    exists texture,
      TextureSlot.texture slot = Some texture
      /\ forall image,
           Texture.image texture = Some image ->
           Texture.type texture = "IMAGE" ->
           Image.source image = "FILE" ->
           Image.colorspace_settings_name image = "sRGB".

(** A scene that [produce_egg] can export: the textures, the active
    material and the geometry of every mesh child can be written, and so
    can the skeleton if the armature has bones. *)
Record exportable (host : Host) (human : Armature.t) : Prop := {
  ex_textures : forall mesh, mesh_child human mesh -> textures_ok mesh;
  ex_materials : forall mesh,
      mesh_child human mesh -> is_Some (Object.active_material mesh);
  ex_meshes : forall mesh, mesh_child human mesh -> mesh_ok mesh;
  ex_armature : Armature.bones human <> [] -> armature_ok host human }.

(** ** Vertex records *)

(** The comment line of one weight of a vertex; a weight of 0.0 has
    none. *)
Definition weight_comment (indent_level : nat) (group_names : list string)
    (item : nat * float) : string :=
  if Float.ne_zero item.2
  then padding_of indent_level +:+ "  // "
       +:+ good_bone_name (default EmptyString (group_names !! item.1))
       +:+ ":" +:+ Float.format_f 8 item.2 +:+ nl
  else EmptyString.

Definition weight_comments (indent_level : nat) (group_names : list string)
    (items : list (nat * float)) : string :=
  foldr (fun item text => weight_comment indent_level group_names item +:+ text)
        EmptyString items.

(** The text of one [<Vertex>] record with the UV coordinates [uv]. *)
Definition vertex_record (vertex : MeshVertex.t) (indent_level : nat)
    (uv : float * float) (group_names : list string)
    (weights : odict nat float) : string :=
  let padding := padding_of indent_level in
  (padding +:+ "<Vertex> " +:+ Str.of_nat (MeshVertex.index vertex) +:+ " {" +:+ nl
   +:+ padding +:+ "  " +:+ fmt4 (Vector.x (MeshVertex.co vertex)) +:+ " "
   +:+ fmt4 (Vector.y (MeshVertex.co vertex)) +:+ " "
   +:+ fmt4 (Vector.z (MeshVertex.co vertex)) +:+ nl)
  +:+ (padding +:+ "  <UV> { " +:+ fmt4 uv.1 +:+ " " +:+ fmt4 uv.2 +:+ " }" +:+ nl)
  +:+ (padding +:+ "  <Normal> { "
       +:+ fmt4 (Vector.x (MeshVertex.normal vertex)) +:+ " "
       +:+ fmt4 (Vector.y (MeshVertex.normal vertex)) +:+ " "
       +:+ fmt4 (Vector.z (MeshVertex.normal vertex)) +:+ " }" +:+ nl)
  +:+ weight_comments indent_level group_names (oitems weights)
  +:+ (padding +:+ "}" +:+ nl).

(** * Properties *)

(** ** The primitives on examples *)

Example ex_good_file_name : good_file_name "/tmp/out dir/my-model v2.egg" = "my_model_v2".
Proof. reflexivity. Qed.
Example ex_posix1 : posixpath.normpath "/a//b/../c/./d/" = "/a/c/d".
Proof. reflexivity. Qed.
Example ex_posix2 : posixpath.relpath "/w" "/out/textures/skin.png" "/out" = Some "textures/skin.png".
Proof. reflexivity. Qed.
Example ex_posix3 : posixpath.splitext ".bashrc" = (".bashrc", EmptyString).
Proof. reflexivity. Qed.
Example ex_posix4 : posixpath.splitext "a.b.c" = ("a.b", ".c").
Proof. reflexivity. Qed.
Example ex_posix5 : posixpath.dirname "/out/model.egg" = "/out".
Proof. reflexivity. Qed.

Example ex_posix6 : posixpath.realpath "/work" "//out" = "/out".
Proof. reflexivity. Qed.

Example ex_posix7 : posixpath.realpath "/work" "models/../out/." = "/work/out".
Proof. reflexivity. Qed.
Example ex_split : Str.split ":" "a:b:" = ["a"; "b"; EmptyString].
Proof. reflexivity. Qed.
Example ex_fmt1 : Float.format_f 4 (dec 12344 5) = "0.1234".
Proof. vm_compute. reflexivity. Qed.
Example ex_fmt2 : Float.format_f 5 (dec (-15) 1) = "-1.50000".
Proof. vm_compute. reflexivity. Qed.
Example ex_fmt3 : Float.format_f 4 (Float.of_Z 50) = "50.0000".
Proof. vm_compute. reflexivity. Qed.
Example ex_fmt4 : Float.format_f 1 (dec 25 2) = "0.2".
Proof. vm_compute. reflexivity. Qed.
Example ex_fmt5 : Float.format_f 0 (dec 35 1) = "4".
Proof. vm_compute. reflexivity. Qed.
Example ex_fmt6 : Float.format_f 4 (dec 1 0) = "1.0000".
Proof. vm_compute. reflexivity. Qed.
Example ex_fmt7 : Float.format_f 8 (dec 1 1) = "0.10000000".
Proof. vm_compute. reflexivity. Qed.

(** ** Strings *)

Section StrFacts.

Lemma contains_replace_old old new s :
  new <> old -> Str.contains old (Str.replace old new s) = false.
Proof.
  intros Hne. induction s as [|a s IH]; simpl; [reflexivity|].
  rewrite IH, orb_false_r.
  destruct (Ascii.eqb_spec a old) as [->|Ha].
  - apply Ascii.eqb_neq. exact Hne.
  - apply Ascii.eqb_neq. exact Ha.
Qed.

Lemma contains_replace_other c old new s :
  c <> new -> Str.contains c s = false ->
  Str.contains c (Str.replace old new s) = false.
Proof.
  intros Hne. induction s as [|a s IH]; simpl; [reflexivity|].
  intros H. apply orb_false_iff in H as [Ha Hs].
  rewrite (IH Hs), orb_false_r.
  destruct (Ascii.eqb a old); [|exact Ha].
  apply Ascii.eqb_neq. congruence.
Qed.

Lemma replace_absent old new s :
  Str.contains old s = false -> Str.replace old new s = s.
Proof.
  induction s as [|a s IH]; simpl; [reflexivity|].
  intros H. apply orb_false_iff in H as [Ha Hs].
  rewrite Ha, (IH Hs). reflexivity.
Qed.

Lemma replace_length old new s :
  String.length (Str.replace old new s) = String.length s.
Proof. induction s as [|a s IH]; simpl; congruence. Qed.

Lemma split_nonempty c s : Str.split c s <> [].
Proof.
  destruct s as [|a s]; simpl; [discriminate|].
  destruct (Ascii.eqb a c); [discriminate|].
  destruct (Str.split c s); discriminate.
Qed.

Lemma split_segments_free d c s :
  (d = c \/ Str.contains d s = false) ->
  Forall (fun seg => Str.contains d seg = false) (Str.split c s).
Proof.
  induction s as [|a s IH]; simpl; intros H.
  - repeat constructor.
  - assert (Hs : d = c \/ Str.contains d s = false).
    { destruct H as [H|H]; [left; exact H|].
      apply orb_false_iff in H as [_ H]. right; exact H. }
    specialize (IH Hs).
    destruct (Ascii.eqb_spec a c) as [->|Hac].
    + constructor; [reflexivity|exact IH].
    + assert (Ha : Ascii.eqb a d = false).
      { destruct H as [->|H]; [apply Ascii.eqb_neq; exact Hac|].
        apply orb_false_iff in H as [H _]. exact H. }
      destruct (Str.split c s) as [|seg rest] eqn:E.
      * constructor; [simpl; rewrite Ha; reflexivity|constructor].
      * inversion IH as [|? ? Hseg Hrest]; subst.
        constructor; [simpl; rewrite Ha, Hseg; reflexivity|exact Hrest].
Qed.

Lemma last_split_free d c s :
  (d = c \/ Str.contains d s = false) ->
  Str.contains d (Str.last (Str.split c s)) = false.
Proof.
  intros H. pose proof (split_segments_free d c s H) as HF.
  pose proof (split_nonempty c s) as Hne.
  unfold Str.last.
  destruct (Str.split c s) as [|x l]; [congruence|].
  rewrite Forall_forall in HF. apply HF.
  apply list_elem_of_In. apply (List.exists_last) in Hne as (l' & y & E).
  rewrite E, List.last_last. apply in_or_app. right. left. reflexivity.
Qed.

Lemma split_absent c s : Str.contains c s = false -> Str.split c s = [s].
Proof.
  induction s as [|a s IH]; simpl; [reflexivity|].
  intros H. apply orb_false_iff in H as [Ha Hs].
  rewrite Ha, (IH Hs). reflexivity.
Qed.

Lemma last_split_empty c s :
  Str.last (Str.split c s) = EmptyString <->
  s = EmptyString \/ Str.endswith_char c s = true.
Proof.
  unfold Str.last. induction s as [|a s IH]; simpl.
  - split; [left; reflexivity|reflexivity].
  - pose proof (split_nonempty c s) as Hne.
    destruct (Ascii.eqb_spec a c) as [->|Hac].
    + destruct (Str.split c s) as [|x l] eqn:E; [congruence|].
      change (List.last (EmptyString :: x :: l) EmptyString)
        with (List.last (x :: l) EmptyString).
      rewrite IH. destruct s as [|b s].
      * split; [right; reflexivity|left; reflexivity].
      * split; [intros [H|H]; [discriminate|right; exact H]
               |intros [H|H]; [discriminate|right; exact H]].
    + destruct (Str.split c s) as [|x l] eqn:E; [congruence|].
      destruct l as [|y l].
      * simpl. split; [discriminate|].
        intros [H|H]; [discriminate|].
        destruct s as [|b s].
        -- discriminate.
        -- exfalso. simpl in IH.
           assert (Hx : x = EmptyString) by (apply IH; right; exact H).
           subst x. simpl in E.
           destruct (Ascii.eqb b c).
           ++ injection E as E. exact (split_nonempty c s E).
           ++ destruct (Str.split c s); discriminate.
      * change (List.last (String a x :: y :: l) EmptyString)
          with (List.last (y :: l) EmptyString).
        change (List.last (x :: y :: l) EmptyString)
          with (List.last (y :: l) EmptyString) in IH.
        rewrite IH. destruct s as [|b s].
        -- simpl in E. discriminate.
        -- split; [intros [H|H]; [discriminate|right; exact H]
                  |intros [H|H]; [discriminate|right; exact H]].
Qed.

Lemma endswith_replace c old new s :
  c <> old -> c <> new ->
  Str.endswith_char c (Str.replace old new s) = Str.endswith_char c s.
Proof.
  intros Ho Hn. induction s as [|a s IH]; simpl; [reflexivity|].
  destruct s as [|b s].
  - simpl. destruct (Ascii.eqb_spec a old) as [->|Ha]; [|reflexivity].
    transitivity false; [apply Ascii.eqb_neq; congruence
                        |symmetry; apply Ascii.eqb_neq; congruence].
  - simpl in *. exact IH.
Qed.

Lemma replace_empty old new s :
  Str.replace old new s = EmptyString <-> s = EmptyString.
Proof. destruct s; simpl; split; congruence. Qed.

(** [rfind], and the tail behind the last occurrence. *)
Lemma rfind_range c s : -1 <= Str.rfind c s < Z.of_nat (String.length s).
Proof.
  induction s as [|a s IH]; simpl String.length; simpl Str.rfind; [lia|].
  destruct (Z.leb_spec 0 (Str.rfind c s)); [lia|].
  destruct (Ascii.eqb a c); lia.
Qed.

Lemma drop_rfind_free c s :
  Str.contains c (Str.drop (Z.to_nat (Str.rfind c s + 1)) s) = false.
Proof.
  induction s as [|a s IH]; simpl Str.rfind; [reflexivity|].
  pose proof (rfind_range c s) as Hr.
  destruct (Z.leb_spec 0 (Str.rfind c s)).
  - replace (Z.to_nat (Str.rfind c s + 1 + 1))
      with (S (Z.to_nat (Str.rfind c s + 1))) by lia.
    simpl. exact IH.
  - assert (E : Str.rfind c s = -1) by lia. rewrite E in IH. simpl in IH.
    destruct (Ascii.eqb a c) eqn:Ha; simpl; [exact IH|].
    rewrite Ha, IH. reflexivity.
Qed.

Lemma rfind_absent c s : Str.contains c s = false -> Str.rfind c s = -1.
Proof.
  induction s as [|a s IH]; simpl; [reflexivity|].
  intros H. apply orb_false_iff in H as [Ha Hs].
  rewrite (IH Hs), Ha. reflexivity.
Qed.

Lemma drop_rfind_empty c s :
  Str.drop (Z.to_nat (Str.rfind c s + 1)) s = EmptyString <->
  s = EmptyString \/ Str.endswith_char c s = true.
Proof.
  induction s as [|a s IH]; simpl Str.rfind.
  - simpl. split; [left; reflexivity|reflexivity].
  - pose proof (rfind_range c s) as Hr.
    destruct (Z.leb_spec 0 (Str.rfind c s)).
    + replace (Z.to_nat (Str.rfind c s + 1 + 1))
        with (S (Z.to_nat (Str.rfind c s + 1))) by lia.
      simpl Str.drop. rewrite IH.
      destruct s as [|b s]; [simpl in H; lia|].
      split; [intros [?|?]; [discriminate|right; assumption]
             |intros [?|?]; [discriminate|right; assumption]].
    + assert (E : Str.rfind c s = -1) by lia. rewrite E in IH. simpl in IH.
      destruct (Ascii.eqb a c) eqn:Ha; simpl Str.drop.
      * rewrite IH. destruct s as [|b s].
        -- simpl. rewrite Ha. split; [right; reflexivity|left; reflexivity].
        -- split; [intros [?|?]; [discriminate|right; assumption]
                  |intros [?|?]; [discriminate|right; assumption]].
      * split; [discriminate|]. intros [?|He]; [discriminate|].
        destruct s as [|b s]; [simpl in He; congruence|].
        assert (Hs : String b s = EmptyString) by (apply IH; right; exact He).
        discriminate.
Qed.

Lemma take_free c n s :
  Str.contains c s = false -> Str.contains c (Str.take n s) = false.
Proof.
  revert s; induction n as [|n IH]; intros [|a s]; simpl; try reflexivity.
  intros H. apply orb_false_iff in H as [Ha Hs].
  rewrite Ha, (IH _ Hs). reflexivity.
Qed.

Lemma take_nonempty n s :
  (0 < n)%nat -> s <> EmptyString -> Str.take n s <> EmptyString.
Proof. destruct n, s; simpl; intros; try lia; congruence. Qed.

End StrFacts.

(** ** The name sanitizers *)

Lemma basename_free p : Str.contains "/"%char (posixpath.basename p) = false.
Proof. apply drop_rfind_free. Qed.

Lemma basename_absent p :
  Str.contains "/"%char p = false -> posixpath.basename p = p.
Proof.
  intros H. unfold posixpath.basename, posixpath.sep.
  rewrite (rfind_absent _ _ H). reflexivity.
Qed.

Lemma basename_empty p :
  posixpath.basename p = EmptyString <->
  p = EmptyString \/ Str.endswith_char "/"%char p = true.
Proof. apply drop_rfind_empty. Qed.

Lemma splitext_scan_root fuel p fi di :
  fst (posixpath.splitext_scan fuel p fi di) = p \/
  (fi < di /\ fst (posixpath.splitext_scan fuel p fi di) = Str.take (Z.to_nat di) p).
Proof.
  revert fi; induction fuel as [|fuel IH]; intros fi; simpl; [left; reflexivity|].
  destruct (Z.ltb_spec fi di); [|left; reflexivity].
  destruct (negb _); [right; split; [lia|reflexivity]|].
  destruct (IH (fi + 1)) as [E|[Hlt E]]; [left; exact E|right; split; [lia|exact E]].
Qed.

Lemma splitext_root p :
  fst (posixpath.splitext p) = p \/
  exists n, (0 < n)%nat /\ fst (posixpath.splitext p) = Str.take n p.
Proof.
  unfold posixpath.splitext.
  destruct (Z.ltb_spec (Str.rfind posixpath.sep p) (Str.rfind posixpath.extsep p));
    [|left; reflexivity].
  pose proof (rfind_range posixpath.sep p).
  destruct (splitext_scan_root (String.length p) p
              (Str.rfind posixpath.sep p + 1) (Str.rfind posixpath.extsep p))
    as [E|[Hlt E]]; [left; exact E|].
  right. exists (Z.to_nat (Str.rfind posixpath.extsep p)). split; [lia|exact E].
Qed.

Lemma splitext_absent p :
  Str.contains "."%char p = false -> posixpath.splitext p = (p, EmptyString).
Proof.
  intros H. unfold posixpath.splitext, posixpath.extsep.
  rewrite (rfind_absent _ _ H).
  pose proof (rfind_range posixpath.sep p).
  destruct (Z.ltb_spec (Str.rfind posixpath.sep p) (-1)); [lia|reflexivity].
Qed.

Lemma good_bone_name_free s :
  Str.contains "."%char (good_bone_name s) = false /\
  Str.contains "-"%char (good_bone_name s) = false.
Proof.
  unfold good_bone_name. split.
  - apply contains_replace_other; [discriminate|].
    apply contains_replace_old. discriminate.
  - apply contains_replace_old. discriminate.
Qed.

Lemma good_material_name_free s :
  Str.contains " "%char (good_material_name s) = false /\
  Str.contains ":"%char (good_material_name s) = false.
Proof.
  unfold good_material_name. split.
  - apply last_split_free. right. apply contains_replace_old. discriminate.
  - apply last_split_free. left. reflexivity.
Qed.

Lemma good_texture_name_free p :
  Str.contains "."%char (good_texture_name p) = false /\
  Str.contains "/"%char (good_texture_name p) = false.
Proof.
  unfold good_texture_name. split.
  - apply contains_replace_old. discriminate.
  - apply contains_replace_other; [discriminate|apply basename_free].
Qed.

Lemma good_file_name_free p :
  Str.contains " "%char (good_file_name p) = false /\
  Str.contains "-"%char (good_file_name p) = false /\
  Str.contains "/"%char (good_file_name p) = false.
Proof.
  unfold good_file_name. repeat split.
  - apply contains_replace_other; [discriminate|].
    apply contains_replace_old. discriminate.
  - apply contains_replace_old. discriminate.
  - do 2 (apply contains_replace_other; [discriminate|]).
    destruct (splitext_root (posixpath.basename p)) as [->|(n & _ & ->)].
    + apply basename_free.
    + apply take_free, basename_free.
Qed.

(** C6, as amended: the bone, mesh, texture and material sanitizers are
    idempotent, and the file sanitizer is idempotent on every path whose
    sanitized name has no ['.'] left; each sanitizer's output is free of
    the characters its own rule removes -- bone names of ['.'] and ['-'],
    mesh names of [':'], texture names of ['.'] and ['/'], material names
    of space and [':'], file names of space, ['-'] and ['/']. *)
Theorem sanitizers_idempotent :
  (forall s, good_bone_name (good_bone_name s) = good_bone_name s) /\
  (forall s, good_mesh_name (good_mesh_name s) = good_mesh_name s) /\
  (forall p, good_texture_name (good_texture_name p) = good_texture_name p) /\
  (forall s, good_material_name (good_material_name s) = good_material_name s) /\
  (forall p, Str.contains "."%char (good_file_name p) = false ->
             good_file_name (good_file_name p) = good_file_name p) /\
  (forall s, Str.contains "."%char (good_bone_name s) = false /\
             Str.contains "-"%char (good_bone_name s) = false) /\
  (forall s, Str.contains ":"%char (good_mesh_name s) = false) /\
  (forall p, Str.contains "."%char (good_texture_name p) = false /\
             Str.contains "/"%char (good_texture_name p) = false) /\
  (forall s, Str.contains " "%char (good_material_name s) = false /\
             Str.contains ":"%char (good_material_name s) = false) /\
  (forall p, Str.contains " "%char (good_file_name p) = false /\
             Str.contains "-"%char (good_file_name p) = false /\
             Str.contains "/"%char (good_file_name p) = false).
Proof.
  repeat apply conj.
  - intros s. destruct (good_bone_name_free s) as [Hd Hm].
    unfold good_bone_name at 1.
    rewrite (replace_absent _ _ _ Hd), (replace_absent _ _ _ Hm). reflexivity.
  - intros s. unfold good_mesh_name at 1.
    rewrite split_absent; [reflexivity|].
    apply last_split_free. left. reflexivity.
  - intros p. destruct (good_texture_name_free p) as [Hd Hs].
    unfold good_texture_name at 1.
    rewrite (basename_absent _ Hs), (replace_absent _ _ _ Hd). reflexivity.
  - intros s. destruct (good_material_name_free s) as [Hs Hc].
    unfold good_material_name at 1.
    rewrite (replace_absent _ _ _ Hs), (split_absent _ _ Hc). reflexivity.
  - intros p Hd. destruct (good_file_name_free p) as (Hs & Hm & Hsl).
    unfold good_file_name at 1.
    rewrite (basename_absent _ Hsl), (splitext_absent _ Hd). simpl fst.
    rewrite (replace_absent _ _ _ Hs), (replace_absent _ _ _ Hm). reflexivity.
  - apply good_bone_name_free.
  - intros s. apply last_split_free. left. reflexivity.
  - apply good_texture_name_free.
  - apply good_material_name_free.
  - apply good_file_name_free.
Qed.

Lemma sanitizers_idempotent_witness :
  Str.contains "."%char (good_file_name "/out/my-model v2.egg") = false /\
  good_file_name (good_file_name "/out/my-model v2.egg")
  = good_file_name "/out/my-model v2.egg".
Proof.
  split; [reflexivity|].
  apply (proj1 (proj2 (proj2 (proj2 (proj2 sanitizers_idempotent))))).
  reflexivity.
Defined.

(** C6 as stated fails: the file sanitizer is not idempotent and leaves a
    ['.'] in the name of a file with two extensions. *)
Lemma sanitizers_not_all_clean :
  ~ Forall (fun f : string -> string =>
              forall s, f (f s) = f s /\ clean_name (f s)) sanitizers.
Proof.
  intros H. apply Forall_cons_1 in H as [H _].
  destruct (H "a.b.c") as [H1 _]. vm_compute in H1. discriminate.
Qed.

(** C7, as amended: the bone sanitizer keeps the length of its input, so
    a non-empty name stays non-empty; the mesh and material sanitizers
    give the empty string exactly for the empty name and for names ending
    in [':'], the texture and file sanitizers exactly for the empty path
    and for paths ending in ['/']. *)
Theorem sanitizers_nonempty :
  (forall s, String.length (good_bone_name s) = String.length s) /\
  (forall s, good_mesh_name s = EmptyString <->
             s = EmptyString \/ Str.endswith_char ":"%char s = true) /\
  (forall s, good_material_name s = EmptyString <->
             s = EmptyString \/ Str.endswith_char ":"%char s = true) /\
  (forall p, good_texture_name p = EmptyString <->
             p = EmptyString \/ Str.endswith_char "/"%char p = true) /\
  (forall p, good_file_name p = EmptyString <->
             p = EmptyString \/ Str.endswith_char "/"%char p = true).
Proof.
  repeat apply conj.
  - intros s. unfold good_bone_name. rewrite !replace_length. reflexivity.
  - intros s. apply last_split_empty.
  - intros s. unfold good_material_name.
    rewrite last_split_empty, replace_empty, endswith_replace by discriminate.
    reflexivity.
  - intros p. unfold good_texture_name. rewrite replace_empty. apply basename_empty.
  - intros p. unfold good_file_name. rewrite !replace_empty.
    rewrite <- basename_empty.
    destruct (splitext_root (posixpath.basename p)) as [->|(n & Hn & ->)];
      [reflexivity|].
    split; [|intros ->; destruct n; reflexivity].
    intros H. destruct (posixpath.basename p) as [|a b] eqn:E; [reflexivity|].
    exfalso. revert H. apply take_nonempty; [exact Hn|discriminate].
Qed.

Lemma sanitizers_nonempty_witness : good_mesh_name "MakeHuman:Body" <> EmptyString.
Proof.
  intros H.
  apply (proj1 (proj1 (proj2 sanitizers_nonempty) "MakeHuman:Body")) in H.
  destruct H as [H|H]; discriminate H.
Defined.

(** C7 as stated fails: a non-empty mesh name that ends in [':'] is
    sanitized to the empty string. *)
Lemma sanitizer_empty_output :
  ~ Forall (fun f : string -> string =>
              forall s, s <> EmptyString -> f s <> EmptyString) sanitizers.
Proof.
  intros H. apply Forall_cons_1 in H as [_ H].
  apply Forall_cons_1 in H as [_ H]. apply Forall_cons_1 in H as [H _].
  apply (H "Body:"); [discriminate|reflexivity].
Qed.

(** ** Running the monad *)

Lemma run_bind {A B} (c : M A) (f : A -> M B) st :
  (c ≫= f) st =
  match c st with
  | (Return a, st') => f a st'
  | (Raise e, st') => (Raise e, st')
  end.
Proof. reflexivity. Qed.

Lemma run_write text self w buf :
  _egg_fp self = Some buf ->
  write text (self, w) = (Return tt, (set_egg_fp (Some (buf +:+ text)) self, w)).
Proof. intros H. unfold write. rewrite run_bind. simpl. rewrite H. reflexivity. Qed.

Lemma run_write_closed text self w :
  _egg_fp self = None -> write text (self, w) = (Raise AttributeError, (self, w)).
Proof. intros H. unfold write. rewrite run_bind. simpl. rewrite H. reflexivity. Qed.

Lemma for_each_app {A} (l1 l2 : list A) body st :
  for_each (l1 ++ l2) body st =
  match for_each l1 body st with
  | (Return _, st') => for_each l2 body st'
  | (Raise e, st') => (Raise e, st')
  end.
Proof.
  revert st; induction l1 as [|a l1 IH]; intros st; simpl; [reflexivity|].
  rewrite !run_bind. destruct (body a st) as [[[]|e] st']; [apply IH|reflexivity].
Qed.

(** A loop whose body raises at some element, whatever the state, raises. *)
Lemma for_each_raises {A} (l : list A) body x :
  x ∈ l ->
  (forall st, exists e st', body x st = (Raise e, st')) ->
  forall st, exists e st', for_each l body st = (Raise e, st').
Proof.
  intros Hin Hx. induction l as [|a l IH]; intros st; [inversion Hin|].
  simpl. rewrite run_bind.
  destruct (body a st) as [[[]|e] st'] eqn:E; [|eauto].
  apply elem_of_cons in Hin as [->|Hin]; [|apply IH; exact Hin].
  destruct (Hx st) as (e & st'' & E'). congruence.
Qed.

(** Unfolds the monad's plumbing, and nothing of the strings. *)
Ltac mrun :=
  cbv beta iota zeta delta
    [mbind M_bind mret M_ret get_self put_self lift raise print modify_world
     write try_except fst snd negb
     stdout mkdir_calls save_render_calls closed_files
     _use_rel_paths _human _vertex_weight_precision _copied_files _egg_fp
     _tex_folder _outFolder _separate_tex_folder _filepath _filename
     set_copied_files set_egg_fp set_tex_folder set_outFolder].

(** ** The texture format of an unrecognized color space *)

(** C9: the specification promises an empty format string, a diagnostic
    and a continuing export.  The [else] branch builds its diagnostic from
    the undefined global [colorspace_settings]: for every image whose
    color space is not ['sRGB'] the method raises [NameError] before
    anything is printed, and no format string is returned. *)
Theorem get_image_format_unrecognized image st :
  Image.colorspace_settings_name image <> "sRGB" ->
  _get_image_format image st = (Raise NameError, st).
Proof.
  intros H. unfold _get_image_format.
  destruct (String.eqb_spec (Image.colorspace_settings_name image) "sRGB");
    [contradiction|reflexivity].
Qed.

(** ** The relative-path option *)

(** C5: the specification lets the configured boolean choose between
    the relative and the absolute form.  The constructor stores [True] whatever it is
    given, so a worker built with [use_rel_paths = False] is the worker
    built with [True], and [_copy_texture_to_new_location] takes the
    relative branch. *)
Theorem use_rel_paths_ignored host human weight_precision filepath st :
  __init__ host human weight_precision filepath false st
  = __init__ host human weight_precision filepath true st
  /\ _use_rel_paths
       (fst (snd (__init__ host human weight_precision filepath false st)))
     = true.
Proof.
  split; [reflexivity|].
  unfold __init__, _setup_tex_folder, _get_sub_folder. mrun.
  destruct (path_exists host _); mrun; [reflexivity|].
  destruct (mkdir_fails host _); reflexivity.
Qed.

(** ** Texture relocation *)

(** A constructor that returns leaves a worker with a texture folder and
    no registered copies: the state in which the first request of an
    export is made. *)
Lemma init_ready host human weight_precision filepath use_rel_paths st st' :
  __init__ host human weight_precision filepath use_rel_paths st
  = (Return tt, st') ->
  exists tex_folder,
    _tex_folder (fst st') = Some tex_folder /\ _copied_files (fst st') = ∅.
Proof.
  unfold __init__, _setup_tex_folder, _get_sub_folder. mrun.
  destruct (path_exists host _); mrun.
  - intros [= <-]. eexists. split; reflexivity.
  - destruct (mkdir_fails host _); mrun; [discriminate|].
    intros [= <-]. eexists. split; reflexivity.
Qed.

Section Relocation.

Variable host : Host.

Lemma normpath_nonempty path : posixpath.normpath path <> EmptyString.
Proof.
  unfold posixpath.normpath.
  destruct (String.eqb_spec path EmptyString); [discriminate|].
  match goal with |- (if String.eqb ?p _ then _ else _) <> _ =>
    destruct (String.eqb_spec p EmptyString); [discriminate|assumption] end.
Qed.

Lemma abspath_nonempty c path : posixpath.abspath c path <> EmptyString.
Proof. unfold posixpath.abspath. destruct (negb _); apply normpath_nonempty. Qed.

Lemma relpath_is_Some path start :
  path <> EmptyString -> is_Some (posixpath.relpath (cwd host) path start).
Proof.
  intros H. unfold posixpath.relpath.
  destruct (String.eqb_spec path EmptyString); [contradiction|eauto].
Qed.

(** A first request copies the image and registers its path. *)
Lemma copy_texture_first image self w tex_folder :
  _tex_folder self = Some tex_folder ->
  _copied_files self !! Image.filepath image = None ->
  _copy_texture_to_new_location host image (self, w) =
  (Return (reference host self tex_folder image),
   (set_copied_files (<[Image.filepath image := true]> (_copied_files self)) self,
    log_save_render host (Image.filepath image) (destination host tex_folder image) w)).
Proof.
  intros Htf Hnew. unfold _copy_texture_to_new_location, reference, getitem.
  fold (destination host tex_folder image).
  destruct self as [rel hum prec copied fp tf out sep fpath fname].
  simpl in Htf, Hnew. subst tf. mrun. rewrite Hnew. mrun.
  unfold log_save_render.
  destruct (relpath_is_Some (destination host tex_folder image) out
              (abspath_nonempty _ _)) as [p Hp].
  unfold destination in *.
  destruct (save_render_fails host _ _); mrun;
    destruct rel; mrun; rewrite ?Hp; reflexivity.
Qed.

(** A later request of a registered path copies nothing. *)
Lemma copy_texture_again image self w tex_folder done :
  _tex_folder self = Some tex_folder ->
  _copied_files self !! Image.filepath image = Some done ->
  _copy_texture_to_new_location host image (self, w) =
  (Return (reference host self tex_folder image), (self, w)).
Proof.
  intros Htf Hold. unfold _copy_texture_to_new_location, reference, getitem.
  fold (destination host tex_folder image).
  destruct self as [rel hum prec copied fp tf out sep fpath fname].
  simpl in Htf, Hold. subst tf. mrun. rewrite Hold. mrun.
  destruct (relpath_is_Some (destination host tex_folder image) out
              (abspath_nonempty _ _)) as [p Hp].
  unfold destination in *.
  destruct rel; mrun; rewrite ?Hp; reflexivity.
Qed.

End Relocation.

Section Dedup.

Variable host : Host.

Lemma copies_of_app src c1 c2 :
  copies_of src (c1 ++ c2) = (copies_of src c1 + copies_of src c2)%nat.
Proof. unfold copies_of. rewrite List.filter_app, length_app. reflexivity. Qed.

Lemma request_step other src st tex_folder :
  _tex_folder (fst st) = Some tex_folder ->
  is_Some (_copied_files (fst st) !! src) ->
  exists path st',
    _copy_texture_to_new_location host other st = (Return path, st')
    /\ request_keeps src st st'.
Proof.
  destruct st as [self w]. simpl. intros Htf Hreg.
  destruct (_copied_files self !! Image.filepath other) as [d|] eqn:E.
  - eexists _, _. split; [eapply copy_texture_again; eassumption|].
    repeat split; try assumption.
    exists []. rewrite app_nil_r. split; reflexivity.
  - eexists _, _. split; [eapply copy_texture_first; eassumption|].
    unfold request_keeps. destruct self; simpl in *.
    split; [reflexivity|]. split; [reflexivity|]. split; [reflexivity|]. split.
    + destruct (decide (Image.filepath other = src)) as [Heq|Hne].
      * rewrite Heq, lookup_insert_eq. eauto.
      * rewrite lookup_insert_ne by exact Hne. exact Hreg.
    + eexists. split; [reflexivity|].
      unfold copies_of. simpl.
      destruct (String.eqb_spec (Image.filepath other) src) as [Heq|Hne];
        [|reflexivity].
      rewrite Heq in E. rewrite E in Hreg. destruct Hreg as [? ?]. discriminate.
Qed.

Lemma requests_keep others src : forall st tex_folder,
  _tex_folder (fst st) = Some tex_folder ->
  is_Some (_copied_files (fst st) !! src) ->
  exists st',
    for_each others
      (fun other => _copy_texture_to_new_location host other;; mret tt) st
    = (Return tt, st')
    /\ request_keeps src st st'.
Proof.
  induction others as [|other others IH]; intros st tf Htf Hreg.
  - exists st. split; [reflexivity|].
    repeat split; try assumption. exists []. rewrite app_nil_r. split; reflexivity.
  - destruct (request_step other src st tf Htf Hreg)
      as (path & st1 & Hrun & Htf1 & Hrel1 & Hout1 & Hreg1 & calls1 & Hc1 & Hn1).
    destruct (IH st1 tf) as (st2 & Hrun2 & Htf2 & Hrel2 & Hout2 & Hreg2
                               & calls2 & Hc2 & Hn2);
      [congruence|exact Hreg1|].
    exists st2. split.
    + simpl. rewrite !run_bind, Hrun. mrun. exact Hrun2.
    + repeat split; try congruence.
      exists (calls1 ++ calls2). split.
      * rewrite Hc2, Hc1, app_assoc. reflexivity.
      * rewrite copies_of_app, Hn1, Hn2. reflexivity.
Qed.

(** C4: within one export, after the first request for a source path
    and any number of requests in between, a further request for the
    same path returns the same destination reference as the first, and
    over the whole run [save_render] was called exactly once on that
    path. *)
Theorem relocation_dedup image again others self w tex_folder :
  _tex_folder self = Some tex_folder ->
  _copied_files self !! Image.filepath image = None ->
  Image.filepath again = Image.filepath image ->
  exists path st1 st2 st3 calls,
    _copy_texture_to_new_location host image (self, w) = (Return path, st1)
    /\ for_each others
         (fun other => _copy_texture_to_new_location host other;; mret tt) st1
       = (Return tt, st2)
    /\ _copy_texture_to_new_location host again st2 = (Return path, st3)
    /\ save_render_calls (snd st3) = save_render_calls w ++ calls
    /\ copies_of (Image.filepath image) calls = 1%nat.
Proof.
  intros Htf Hnew Hsame.
  pose proof (copy_texture_first host image self w tex_folder Htf Hnew) as H1.
  set (st1 := (set_copied_files
                 (<[Image.filepath image := true]> (_copied_files self)) self,
               log_save_render host (Image.filepath image)
                               (destination host tex_folder image) w)) in *.
  assert (Htf1 : _tex_folder (fst st1) = Some tex_folder)
    by (destruct self; exact Htf).
  assert (Hreg1 : is_Some (_copied_files (fst st1) !! Image.filepath image)).
  { destruct self; simpl. rewrite lookup_insert_eq. eauto. }
  destruct (requests_keep others (Image.filepath image) st1 tex_folder Htf1 Hreg1)
    as (st2 & Hrun2 & Htf2 & Hrel2 & Hout2 & [d Hreg2] & calls2 & Hc2 & Hn2).
  destruct st2 as [self2 w2]. simpl in *.
  assert (Htf2' : _tex_folder self2 = Some tex_folder) by congruence.
  rewrite <- Hsame in Hreg2.
  pose proof (copy_texture_again host again self2 w2 tex_folder d Htf2' Hreg2) as H3.
  exists (reference host self tex_folder image), st1, (self2, w2), (self2, w2),
         ((Image.filepath image, destination host tex_folder image) :: calls2).
  repeat split.
  - exact H1.
  - exact Hrun2.
  - rewrite H3. f_equal. f_equal. unfold reference, destination.
    rewrite Hsame, Hrel2, Hout2. destruct self; reflexivity.
  - simpl. rewrite Hc2. subst st1. simpl. rewrite <- app_assoc. reflexivity.
  - unfold copies_of in *. simpl. rewrite String.eqb_refl. simpl.
    rewrite Hn2. reflexivity.
Qed.

End Dedup.

(** ** Dictionaries in insertion order *)

Section OdictFacts.

Context {K V : Type} `{EqDecision K}.
Implicit Types (d : odict K V) (l : list (K * V)).

Lemma olookup_empty k : (∅ : odict K V) !! k = None.
Proof. reflexivity. Qed.

Lemma olookup_insert_eq d k v : <[k := v]> d !! k = Some v.
Proof.
  destruct d as [l]. unfold lookup, insert, odict_lookup, odict_insert. simpl.
  induction l as [|[k' v'] l IH]; simpl.
  - rewrite decide_True by reflexivity. reflexivity.
  - destruct (decide (k' = k)) as [->|Hne]; simpl.
    + rewrite decide_True by reflexivity. reflexivity.
    + rewrite decide_False by exact Hne. exact IH.
Qed.

Lemma olookup_insert_ne d k k' v : k <> k' -> <[k := v]> d !! k' = d !! k'.
Proof.
  intros Hk. destruct d as [l].
  unfold lookup, insert, odict_lookup, odict_insert. simpl.
  induction l as [|[k0 v0] l IH]; simpl.
  - rewrite decide_False by exact Hk. reflexivity.
  - destruct (decide (k0 = k)) as [->|Hne]; simpl.
    + rewrite !decide_False by exact Hk. reflexivity.
    + destruct (decide (k0 = k')); [reflexivity|exact IH].
Qed.

Lemma oinsert_non_empty d k v : <[k := v]> d <> ∅.
Proof.
  destruct d as [[|[k' v'] l]]; unfold insert, odict_insert, empty, odict_empty;
    simpl; [discriminate|].
  destruct (decide (k' = k)); discriminate.
Qed.

Lemma ochoose d : d <> ∅ -> exists k v, d !! k = Some v.
Proof.
  destruct d as [[|[k v] l]]; [intros H; destruct H; reflexivity|].
  intros _. exists k, v. unfold lookup, odict_lookup. simpl.
  rewrite decide_True by reflexivity. reflexivity.
Qed.

Lemma assign_keys k v l :
  (assign k v l).*1 = if decide (k ∈ l.*1) then l.*1 else l.*1 ++ [k].
Proof.
  induction l as [|[k' v'] l IH].
  - destruct (decide _) as [H|_]; [inversion H|reflexivity].
  - change (assign k v ((k', v') :: l))
      with (if decide (k' = k) then (k, v) :: l else (k', v') :: assign k v l).
    destruct (decide (k' = k)) as [->|Hne].
    + destruct (decide (k ∈ ((k, v') :: l).*1)) as [_|H]; [reflexivity|].
      destruct H. rewrite fmap_cons. left.
    + rewrite !fmap_cons, IH. cbn [fst].
      destruct (decide (k ∈ l.*1)) as [Hin|Hout];
        destruct (decide (k ∈ k' :: l.*1)) as [Hin'|Hout'];
        try reflexivity.
      * destruct Hout'. right. exact Hin.
      * apply elem_of_cons in Hin' as [?|?]; [congruence|contradiction].
Qed.

Lemma owf_empty : owf (∅ : odict K V).
Proof. constructor. Qed.

Lemma owf_insert d k v : owf d -> owf (<[k := v]> d).
Proof.
  unfold owf, insert, odict_insert. simpl. intros H. rewrite assign_keys.
  destruct (decide (k ∈ (oitems d).*1)) as [Hin|Hout]; [exact H|].
  apply NoDup_app. split; [exact H|]. split; [|apply NoDup_singleton].
  intros x Hx ->%list_elem_of_singleton. contradiction.
Qed.

Lemma olookup_elem d k v : d !! k = Some v -> (k, v) ∈ oitems d.
Proof.
  destruct d as [l]. unfold lookup, odict_lookup. simpl.
  induction l as [|[k' v'] l IH]; simpl; [discriminate|].
  destruct (decide (k' = k)) as [->|Hne].
  - intros [= ->]. left.
  - intros H. right. apply IH. exact H.
Qed.

Lemma elem_of_oitems d k v : owf d -> (k, v) ∈ oitems d <-> d !! k = Some v.
Proof.
  intros Hwf. split; [|apply olookup_elem].
  destruct d as [l]. unfold owf, lookup, odict_lookup in *. simpl in *.
  induction l as [|[k' v'] l IH]; simpl; [intros H; inversion H|].
  rewrite fmap_cons in Hwf. apply NoDup_cons in Hwf as [Hnew Hwf].
  intros [[= -> ->]|Hin]%elem_of_cons.
  - rewrite decide_True by reflexivity. reflexivity.
  - destruct (decide (k' = k)) as [->|Hne]; [|apply IH; assumption].
    exfalso. apply Hnew. apply list_elem_of_fmap. exists (k, v). auto.
Qed.

Lemma NoDup_oitems d : owf d -> NoDup (oitems d).
Proof. intros H. eapply NoDup_fmap_1. exact H. Qed.

End OdictFacts.

(** ** The weight dictionary of one mesh *)

Lemma foldl_ext {A B} (f f' : A -> B -> A) l a :
  (forall a x, f a x = f' a x) -> foldl f a l = foldl f' a l.
Proof.
  intros H. revert a; induction l as [|x l IH]; intros a; simpl; [reflexivity|].
  rewrite H. apply IH.
Qed.

Lemma foldl_bind {A B C} (f : A -> B -> A) (h : C -> list B) l a :
  foldl f a (l ≫= h) = foldl (fun a x => foldl f a (h x)) a l.
Proof.
  revert a; induction l as [|x l IH]; intros a; [reflexivity|].
  rewrite bind_cons, foldl_app. apply IH.
Qed.

Lemma fmap_of_bind {A B C} (f : B -> C) (h : A -> list B) (l : list A) :
  f <$> (l ≫= h) = l ≫= (fun x => f <$> h x).
Proof.
  induction l as [|x l IH]; [reflexivity|].
  rewrite !bind_cons, fmap_app, IH. reflexivity.
Qed.

Lemma NoDup_fmap_eq {A B} (f : A -> B) (l : list A) x y :
  NoDup (f <$> l) -> x ∈ l -> y ∈ l -> f x = f y -> x = y.
Proof.
  intros Hnd [i Hi]%list_elem_of_lookup [j Hj]%list_elem_of_lookup Hxy.
  assert (i = j).
  { eapply (NoDup_lookup _ i j (f x) Hnd).
    - rewrite list_lookup_fmap, Hi. reflexivity.
    - rewrite list_lookup_fmap, Hj, Hxy. reflexivity. }
  subst j. congruence.
Qed.

Section WeightDict.

Lemma mesh_to_weight_dict_names mesh_obj :
  fst (_mesh_to_weight_dict mesh_obj) = group_names_of mesh_obj.
Proof. unfold _mesh_to_weight_dict. destruct (Nat.eqb _ 0); reflexivity. Qed.

Lemma foldl_set_weight_0 l wd : foldl (set_weight 0) wd l = wd.
Proof. induction l as [|t l IH]; [reflexivity|exact IH]. Qed.

Lemma mesh_to_weight_dict_fold mesh_obj :
  snd (_mesh_to_weight_dict mesh_obj)
  = foldl (set_weight (length (group_names_of mesh_obj))) ∅
          (weight_triples mesh_obj).
Proof.
  unfold _mesh_to_weight_dict. fold (group_names_of mesh_obj).
  destruct (Nat.eqb_spec (length (group_names_of mesh_obj)) 0) as [E|_].
  - rewrite E, foldl_set_weight_0. reflexivity.
  - simpl. unfold weight_triples. rewrite foldl_bind.
    apply foldl_ext. intros a v. rewrite foldl_fmap.
    apply foldl_ext. intros a' e. unfold set_weight. simpl.
    destruct (Nat.ltb _ _); [|reflexivity].
    destruct (a' !! MeshVertex.index v); reflexivity.
Qed.

Lemma entry_set_weight tot wd t v g :
  entry (set_weight tot wd t) v g =
  if decide (t.1.2 < tot /\ key t = (v, g))%nat then Some t.2 else entry wd v g.
Proof.
  unfold set_weight, entry, key. destruct t as [[v0 g0] w0]. simpl.
  destruct (Nat.ltb_spec g0 tot) as [Hlt|Hge].
  - destruct (decide (v0 = v)) as [->|Hv].
    + rewrite olookup_insert_eq. simpl.
      destruct (decide (g0 = g)) as [->|Hg].
      * rewrite olookup_insert_eq. rewrite decide_True by auto. reflexivity.
      * rewrite olookup_insert_ne by exact Hg.
        rewrite decide_False by (intros [_ ?]; congruence).
        destruct (wd !! v); [reflexivity|apply olookup_empty].
    + rewrite olookup_insert_ne by exact Hv.
      rewrite decide_False by (intros [_ ?]; congruence). reflexivity.
  - rewrite decide_False by (intros [? _]; lia). reflexivity.
Qed.

Lemma entry_foldl_other tot l : forall wd v g,
  (forall t, t ∈ l -> key t = (v, g) -> ~ (t.1.2 < tot)%nat) ->
  entry (foldl (set_weight tot) wd l) v g = entry wd v g.
Proof.
  induction l as [|t l IH]; intros wd v g H; [reflexivity|].
  simpl. rewrite IH by (intros; eapply H; [right|]; eassumption).
  rewrite entry_set_weight. apply decide_False. intros [Hlt Hk].
  exact (H t (list_elem_of_here _ _) Hk Hlt).
Qed.

Lemma entry_foldl_elem tot l : forall wd t,
  NoDup (key <$> l) -> t ∈ l -> (t.1.2 < tot)%nat ->
  entry (foldl (set_weight tot) wd l) t.1.1 t.1.2 = Some t.2.
Proof.
  induction l as [|t0 l IH]; intros wd t Hnd Hin Hlt; [inversion Hin|].
  rewrite fmap_cons in Hnd. apply NoDup_cons in Hnd as [Hnew Hnd].
  apply elem_of_cons in Hin as [->|Hin]; simpl.
  - rewrite entry_foldl_other.
    + rewrite entry_set_weight. apply decide_True. split; [exact Hlt|reflexivity].
    + intros t' Ht' Hk _. apply Hnew.
      eapply list_elem_of_fmap_2'; [exact Ht'|]. symmetry. exact Hk.
  - apply IH; assumption.
Qed.

(** With one triple per vertex and group, the dictionary holds exactly
    the triples whose group index is below the number of groups. *)
Lemma entry_foldl_iff tot l v g w :
  NoDup (key <$> l) ->
  entry (foldl (set_weight tot) ∅ l) v g = Some w <->
  (v, g, w) ∈ l /\ (g < tot)%nat.
Proof.
  intros Hnd. split.
  - intros H.
    destruct (decide (Exists (fun t => key t = (v, g) /\ (t.1.2 < tot)%nat) l))
      as [(t & Ht & Hk & Hlt)%Exists_exists|Hno].
    + pose proof (entry_foldl_elem tot l ∅ t Hnd Ht Hlt) as E.
      destruct t as [[v0 g0] w0]. unfold key in Hk. simpl in *.
      injection Hk as -> ->. rewrite E in H. injection H as ->. auto.
    + rewrite entry_foldl_other in H.
      * unfold entry in H. rewrite olookup_empty in H. discriminate.
      * intros t Ht Hk Hlt. apply Hno, Exists_exists. eauto.
  - intros [Hin Hlt]. exact (entry_foldl_elem tot l ∅ (v, g, w) Hnd Hin Hlt).
Qed.

End WeightDict.

Section WeightItems.

Lemma weight_triples_keys mesh_obj :
  distinct_weights mesh_obj -> NoDup (key <$> weight_triples mesh_obj).
Proof.
  intros [Hv Hg]. unfold weight_triples. rewrite fmap_of_bind.
  apply NoDup_bind.
  - intros v1 v2 k H1 H2 Hk1 Hk2. simpl in Hk1, Hk2.
    rewrite <- list_fmap_compose in Hk1, Hk2.
    apply list_elem_of_fmap in Hk1 as (e1 & -> & _).
    apply list_elem_of_fmap in Hk2 as (e2 & E & _).
    apply (NoDup_fmap_eq MeshVertex.index _ v1 v2 Hv H1 H2).
    unfold key in E. simpl in E. congruence.
  - intros v Hin. simpl. rewrite <- list_fmap_compose.
    apply NoDup_fmap_2_strong; [|eapply NoDup_fmap_1, Hg, Hin].
    intros e1 e2 H1 H2 E. unfold key in E. simpl in E.
    apply (NoDup_fmap_eq VertexGroupElement.group _ e1 e2 (Hg v Hin) H1 H2).
    congruence.
  - eapply NoDup_fmap_1, Hv.
Qed.

Lemma set_weight_wf tot wd t : wd_wf wd -> wd_wf (set_weight tot wd t).
Proof.
  intros [Hout Hin]. unfold set_weight.
  destruct (Nat.ltb t.1.2 tot); [|split; assumption]. split.
  - apply owf_insert. exact Hout.
  - intros v d. destruct (decide (t.1.1 = v)) as [<-|Hne].
    + rewrite olookup_insert_eq. intros [= <-]. apply owf_insert.
      destruct (wd !! t.1.1) as [d0|] eqn:E; simpl;
        [eapply Hin; exact E|apply owf_empty].
    + rewrite olookup_insert_ne by exact Hne. apply Hin.
Qed.

Lemma foldl_set_weight_wf tot l : forall wd,
  wd_wf wd -> wd_wf (foldl (set_weight tot) wd l).
Proof.
  induction l as [|t l IH]; intros wd H; [exact H|].
  simpl. apply IH, set_weight_wf, H.
Qed.

Lemma mesh_weight_dict_wf mesh_obj : wd_wf (snd (_mesh_to_weight_dict mesh_obj)).
Proof.
  rewrite mesh_to_weight_dict_fold. apply foldl_set_weight_wf.
  split; [apply owf_empty|]. intros v d H. rewrite olookup_empty in H.
  discriminate.
Qed.

Lemma elem_of_items wd v g w :
  wd_wf wd -> (v, g, w) ∈ items_of wd <-> entry wd v g = Some w.
Proof.
  intros [Hout Hin]. unfold items_of, entry. rewrite list_elem_of_bind. split.
  - intros ([v' vg] & Hx & Hvg). apply (elem_of_oitems _ _ _ Hout) in Hvg.
    apply list_elem_of_fmap in Hx as ([g' w'] & E & Hgw).
    apply (elem_of_oitems _ _ _ (Hin _ _ Hvg)) in Hgw. injection E as -> -> ->.
    rewrite Hvg. exact Hgw.
  - intros H. destruct (wd !! v) as [vg|] eqn:E; [|discriminate]. simpl in H.
    exists (v, vg). split; [|apply olookup_elem; exact E].
    apply list_elem_of_fmap. exists (g, w). split; [reflexivity|].
    apply olookup_elem. exact H.
Qed.

Lemma NoDup_items wd : wd_wf wd -> NoDup (items_of wd).
Proof.
  intros [Hout Hin]. unfold items_of. apply NoDup_bind.
  - intros [v1 vg1] [v2 vg2] t H1 H2 Ht1 Ht2.
    apply list_elem_of_fmap in Ht1 as ([g1 w1] & -> & _).
    apply list_elem_of_fmap in Ht2 as ([g2 w2] & E & _).
    injection E as -> _ _.
    apply (elem_of_oitems _ _ _ Hout) in H1, H2. congruence.
  - intros [v vg] Hv. apply (elem_of_oitems _ _ _ Hout) in Hv.
    apply NoDup_fmap_2_strong; [|apply NoDup_oitems; eapply Hin; exact Hv].
    intros [g1 w1] [g2 w2] _ _ E. congruence.
  - apply NoDup_oitems, Hout.
Qed.

(** The items of a mesh's weight dictionary are its triples with a group
    index in range. *)
Lemma elem_of_mesh_items mesh_obj v g w :
  distinct_weights mesh_obj ->
  (v, g, w) ∈ items_of (snd (_mesh_to_weight_dict mesh_obj)) <->
  (v, g, w) ∈ weight_triples mesh_obj
  /\ (g < length (group_names_of mesh_obj))%nat.
Proof.
  intros Hd. rewrite elem_of_items by apply mesh_weight_dict_wf.
  rewrite mesh_to_weight_dict_fold.
  apply entry_foldl_iff, weight_triples_keys, Hd.
Qed.

Lemma elem_of_weight_triples mesh_obj v g w :
  (v, g, w) ∈ weight_triples mesh_obj <->
  exists vertex e,
    vertex ∈ Mesh.vertices (Object.data mesh_obj)
    /\ e ∈ MeshVertex.groups vertex
    /\ MeshVertex.index vertex = v
    /\ VertexGroupElement.group e = g /\ VertexGroupElement.weight e = w.
Proof.
  unfold weight_triples. rewrite list_elem_of_bind. split.
  - intros (vertex & [e [E He]]%list_elem_of_fmap & Hv).
    injection E as -> -> ->. exists vertex, e. auto.
  - intros (vertex & e & Hv & He & <- & <- & <-).
    exists vertex. split; [|exact Hv].
    apply list_elem_of_fmap. exists e. auto.
Qed.

End WeightItems.

(** ** Loops that thread a dictionary *)

Lemma for_fold_ext {A B} (f f' : B -> A -> result B) l b :
  (forall b x, f b x = f' b x) -> for_fold f l b = for_fold f' l b.
Proof.
  intros H. revert b; induction l as [|x l IH]; intros b; simpl; [reflexivity|].
  rewrite H. destruct (f' b x); simpl; [apply IH|reflexivity].
Qed.

Lemma for_fold_cons {A B} (f : B -> A -> result B) x l b :
  for_fold f (x :: l) b = f b x ≫= for_fold f l.
Proof. reflexivity. Qed.

Lemma for_fold_app {A B} (f : B -> A -> result B) l1 l2 b :
  for_fold f (l1 ++ l2) b = for_fold f l1 b ≫= for_fold f l2.
Proof.
  revert b; induction l1 as [|x l1 IH]; intros b; simpl; [reflexivity|].
  destruct (f b x); simpl; [apply IH|reflexivity].
Qed.

Lemma for_fold_bind {A B C} (f : B -> A -> result B) (h : C -> list A) l b :
  for_fold f (l ≫= h) b = for_fold (fun b x => for_fold f (h x) b) l b.
Proof.
  revert b; induction l as [|x l IH]; intros b; [reflexivity|].
  rewrite bind_cons, for_fold_app. simpl.
  destruct (for_fold f (h x) b); simpl; [apply IH|reflexivity].
Qed.

Lemma for_fold_fmap {A B C} (f : B -> A -> result B) (k : C -> A) l b :
  for_fold f (k <$> l) b = for_fold (fun b x => f b (k x)) l b.
Proof.
  revert b; induction l as [|x l IH]; intros b; simpl; [reflexivity|].
  destruct (f b (k x)); simpl; [apply IH|reflexivity].
Qed.

(** ** The index, bucket by bucket *)

Section Buckets.

Variable prec : nat.

Lemma table_insert bwd b m by_mesh (x : weights_t) b' m' :
  bwd !! b = Some by_mesh ->
  table (<[b := <[m := x]> by_mesh]> bwd) b' m' =
  if decide (b' = b /\ m' = m) then Some x else table bwd b' m'.
Proof.
  intros Hb. unfold table.
  destruct (decide (b' = b)) as [->|Hne].
  - rewrite lookup_insert_eq, Hb. simpl.
    destruct (decide (m' = m)) as [->|Hm].
    + rewrite lookup_insert_eq, decide_True by auto. reflexivity.
    + rewrite lookup_insert_ne by congruence.
      rewrite decide_False by (intros [_ ?]; congruence). reflexivity.
  - rewrite lookup_insert_ne by congruence.
    rewrite decide_False by (intros [? _]; congruence). reflexivity.
Qed.

Lemma add_weight_inv group_names m v bwd g w bwd' :
  add_weight prec group_names m v bwd (g, w) = Return bwd' ->
  same_tables bwd bwd' /\
  forall b' m' s',
    bucket bwd' b' m' s' =
    bucket bwd b' m' s'
    ++ (if decide (m' = m) then contrib prec group_names [(v, g, w)] b' s' else []).
Proof.
  unfold add_weight, list_getitem, getitem.
  destruct (group_names !! g) as [b|] eqn:Hg; simpl; [|discriminate].
  destruct (bwd !! b) as [by_mesh|] eqn:Hb; simpl; [|discriminate].
  destruct (by_mesh !! m) as [weights|] eqn:Hm; simpl; [|discriminate].
  assert (Hnone : forall b' m' s', m' <> m \/ ~ feeds prec group_names b' s' (v, g, w) ->
            (if decide (m' = m) then contrib prec group_names [(v, g, w)] b' s' else [])
            = []).
  { intros b' m' s' H. destruct (decide (m' = m)) as [->|]; [|reflexivity].
    destruct H as [H|H]; [congruence|].
    unfold contrib. rewrite filter_cons, decide_False by exact H. reflexivity. }
  destruct (Float.ne_zero w) eqn:Hw; intros E; injection E as <-.
  - split.
    + intros b' m'. rewrite (table_insert _ _ _ _ _ _ _ Hb).
      destruct (decide (b' = b /\ m' = m)) as [[-> ->]|]; [|reflexivity].
      unfold table. rewrite Hb. simpl. rewrite Hm. split; eauto.
    + intros b' m' s'. unfold bucket at 1 2.
      rewrite (table_insert _ _ _ _ _ _ _ Hb).
      destruct (decide (b' = b /\ m' = m)) as [[-> ->]|Hne].
      * unfold table. rewrite Hb. simpl. rewrite Hm. simpl.
        rewrite decide_True by reflexivity.
        destruct (decide (s' = Float.format_f prec w)) as [->|Hs].
        -- unfold contrib. rewrite filter_cons, decide_True
             by (unfold feeds; simpl; auto).
           destruct (weights !! Float.format_f prec w) as [l|] eqn:Hl;
             rewrite lookup_insert_eq; simpl; reflexivity.
        -- unfold contrib. rewrite filter_cons, decide_False
             by (unfold feeds; simpl; intros (_ & _ & ?); congruence).
           simpl. rewrite app_nil_r.
           destruct (weights !! Float.format_f prec w) as [l|] eqn:Hl;
             rewrite lookup_insert_ne by congruence; reflexivity.
      * rewrite Hnone, app_nil_r; [reflexivity|].
        destruct (decide (m' = m)) as [->|]; [|left; assumption].
        right. unfold feeds. simpl. intros (Hg' & _). apply Hne.
        split; congruence.
  - split; [intros b' m'; reflexivity|].
    intros b' m' s'. rewrite Hnone, app_nil_r; [reflexivity|].
    right. unfold feeds. simpl. intros (_ & ? & _). congruence.
Qed.

Lemma add_weight_ok group_names m v bwd g w b :
  group_names !! g = Some b -> is_Some (table bwd b m) ->
  exists bwd', add_weight prec group_names m v bwd (g, w) = Return bwd'.
Proof.
  intros Hg [weights Ht]. unfold add_weight, list_getitem, getitem.
  rewrite Hg. simpl. unfold table in Ht.
  destruct (bwd !! b) as [by_mesh|]; simpl in *; [|discriminate].
  rewrite Ht. simpl. destruct (Float.ne_zero w); eauto.
Qed.

Lemma contrib_cons group_names t items b s :
  contrib prec group_names (t :: items) b s
  = contrib prec group_names [t] b s ++ contrib prec group_names items b s.
Proof.
  unfold contrib. rewrite !filter_cons.
  destruct (decide (feeds prec group_names b s t)); reflexivity.
Qed.

Lemma add_items_inv group_names m items : forall bwd bwd',
  for_fold (add_item prec group_names m) items bwd = Return bwd' ->
  same_tables bwd bwd' /\
  forall b' m' s',
    bucket bwd' b' m' s' =
    bucket bwd b' m' s'
    ++ (if decide (m' = m) then contrib prec group_names items b' s' else []).
Proof.
  induction items as [|[[v g] w] items IH]; intros bwd bwd' H.
  - injection H as <-. split; [intros b m'; reflexivity|].
    intros b' m' s'. destruct (decide (m' = m)); rewrite app_nil_r; reflexivity.
  - rewrite for_fold_cons in H.
    change (add_item prec group_names m bwd (v, g, w))
      with (add_weight prec group_names m v bwd (g, w)) in H.
    destruct (add_weight prec group_names m v bwd (g, w)) as [bwd1|] eqn:E;
      [|discriminate].
    change (for_fold (add_item prec group_names m) items bwd1 = Return bwd') in H.
    apply add_weight_inv in E as [Hs1 Hb1].
    apply IH in H as [Hs2 Hb2]. split.
    + intros b m'. etransitivity; [apply Hs2|apply Hs1].
    + intros b' m' s'. rewrite Hb2, Hb1, <- app_assoc. f_equal.
      destruct (decide (m' = m)); [|reflexivity].
      symmetry. apply contrib_cons.
Qed.

Lemma add_items_ok group_names m items : forall bwd,
  (forall t, t ∈ items ->
     exists b, group_names !! t.1.2 = Some b /\ is_Some (table bwd b m)) ->
  exists bwd', for_fold (add_item prec group_names m) items bwd = Return bwd'.
Proof.
  induction items as [|[[v g] w] items IH]; intros bwd H; [simpl; eauto|].
  destruct (H (v, g, w)) as (b & Hg & Ht); [left|]. simpl in Hg.
  destruct (add_weight_ok group_names m v bwd g w b Hg Ht) as [bwd1 E].
  rewrite for_fold_cons.
  change (add_item prec group_names m bwd (v, g, w))
    with (add_weight prec group_names m v bwd (g, w)).
  rewrite E.
  change (exists bwd', for_fold (add_item prec group_names m) items bwd1 = Return bwd').
  apply IH. intros t Hin. destruct (H t) as (b' & Hg' & Ht'); [right; exact Hin|].
  exists b'. split; [exact Hg'|].
  apply add_weight_inv in E as [Hs _]. apply Hs. exact Ht'.
Qed.

End Buckets.

(** ** Building the index *)

Section Build.

Variable human : Armature.t.
Variable objects : gmap string Object.t.
Variable prec : nat.

Lemma add_mesh_items bwd m :
  add_mesh objects prec bwd m =
  mesh ← getitem objects m;
  for_fold (add_item prec (group_names_of mesh) m)
           (items_of (snd (_mesh_to_weight_dict mesh))) bwd.
Proof.
  unfold add_mesh. destruct (getitem objects m) as [mesh|]; [|reflexivity].
  change (Return mesh ≫= ?f) with (f mesh). cbv beta.
  rewrite <- mesh_to_weight_dict_names.
  destruct (_mesh_to_weight_dict mesh) as [gn wd]. simpl fst. simpl snd.
  unfold items_of. rewrite for_fold_bind.
  apply for_fold_ext. intros b [v vg]. rewrite for_fold_fmap.
  apply for_fold_ext. intros b' [g w]. reflexivity.
Qed.

Lemma add_mesh_inv bwd m bwd' :
  add_mesh objects prec bwd m = Return bwd' ->
  same_tables bwd bwd' /\
  forall b' m' s',
    bucket bwd' b' m' s' =
    bucket bwd b' m' s' ++ (if decide (m' = m) then mesh_contrib objects prec m b' s' else []).
Proof.
  rewrite add_mesh_items. unfold getitem, mesh_contrib.
  destruct (objects !! m) as [mesh|]; [|discriminate].
  apply add_items_inv.
Qed.

Lemma add_meshes_inv names : forall bwd bwd',
  NoDup names ->
  for_fold (add_mesh objects prec) names bwd = Return bwd' ->
  same_tables bwd bwd' /\
  forall b m s,
    bucket bwd' b m s =
    bucket bwd b m s ++ (if decide (m ∈ names) then mesh_contrib objects prec m b s else []).
Proof.
  induction names as [|n names IH]; intros bwd bwd' Hnd H.
  - injection H as <-. split; [intros b m; reflexivity|].
    intros b m s. rewrite decide_False by (apply not_elem_of_nil).
    rewrite app_nil_r. reflexivity.
  - apply NoDup_cons in Hnd as [Hn Hnd]. rewrite for_fold_cons in H.
    destruct (add_mesh objects prec bwd n) as [bwd1|] eqn:E; [|discriminate].
    change (for_fold (add_mesh objects prec) names bwd1 = Return bwd') in H.
    apply add_mesh_inv in E as [Hs1 Hb1].
    apply IH in H as [Hs2 Hb2]; [|exact Hnd]. split.
    + intros b m. etransitivity; [apply Hs2|apply Hs1].
    + intros b m s. rewrite Hb2, Hb1, <- app_assoc. f_equal.
      destruct (decide (m = n)) as [->|Hne].
      * rewrite decide_False by exact Hn.
        rewrite decide_True by left. apply app_nil_r.
      * destruct (decide (m ∈ names)) as [Hin|Hout].
        -- rewrite decide_True by (right; exact Hin). reflexivity.
        -- rewrite decide_False; [reflexivity|].
           intros [?|?]%elem_of_cons; contradiction.
Qed.

Lemma add_meshes_ok names : forall bwd,
  (forall m, m ∈ names ->
     exists mesh, objects !! m = Some mesh /\
       forall t, t ∈ items_of (snd (_mesh_to_weight_dict mesh)) ->
         exists b, group_names_of mesh !! t.1.2 = Some b
                   /\ is_Some (table bwd b m)) ->
  exists bwd', for_fold (add_mesh objects prec) names bwd = Return bwd'.
Proof.
  induction names as [|n names IH]; intros bwd H; [simpl; eauto|].
  destruct (H n) as (mesh & Hmesh & Hitems); [left|].
  destruct (add_items_ok prec (group_names_of mesh) n _ bwd Hitems) as [bwd1 E].
  assert (E' : add_mesh objects prec bwd n = Return bwd1).
  { rewrite add_mesh_items. unfold getitem. rewrite Hmesh. exact E. }
  rewrite for_fold_cons, E'.
  change (exists bwd', for_fold (add_mesh objects prec) names bwd1 = Return bwd').
  apply IH. intros m Hm.
  destruct (H m) as (mesh' & Hmesh' & Hitems'); [right; exact Hm|].
  exists mesh'. split; [exact Hmesh'|].
  intros t Ht. destruct (Hitems' t Ht) as (b & Hb & Htab).
  exists b. split; [exact Hb|].
  apply add_mesh_inv in E' as [Hs _]. apply Hs. exact Htab.
Qed.

Lemma allocate_pairs ps : forall bwd,
  (forall p, p ∈ ps -> is_Some (bwd !! Bone.name p.1)) ->
  no_vertices bwd ->
  exists bwd',
    for_fold allocate_step ps bwd = Return bwd'
    /\ no_vertices bwd'
    /\ (forall b m, is_Some (table bwd b m) -> is_Some (table bwd' b m))
    /\ (forall p, p ∈ ps -> is_Some (table bwd' (Bone.name p.1) p.2)).
Proof.
  induction ps as [|[bone m] ps IH]; intros bwd Hkeys Hempty.
  - exists bwd. split; [reflexivity|]. split; [exact Hempty|].
    split; [auto|]. intros p Hp. inversion Hp.
  - destruct (Hkeys (bone, m)) as [by_mesh Hb]; [left|]. simpl in Hb.
    set (bwd1 := <[Bone.name bone := <[m := ∅]> by_mesh]> bwd).
    assert (Htab : forall b' m', table bwd1 b' m' =
              if decide (b' = Bone.name bone /\ m' = m) then Some ∅
              else table bwd b' m')
      by (intros; apply table_insert; exact Hb).
    destruct (IH bwd1) as (bwd' & Hrun & Hempty' & Hmono & Hall).
    + intros p Hp. subst bwd1.
      destruct (decide (Bone.name p.1 = Bone.name bone)) as [->|Hne].
      * rewrite lookup_insert_eq. eauto.
      * rewrite lookup_insert_ne by congruence. apply Hkeys. right. exact Hp.
    + intros b' m' s. unfold bucket. rewrite Htab.
      destruct (decide (b' = Bone.name bone /\ m' = m)); [reflexivity|].
      apply Hempty.
    + exists bwd'. split.
      { assert (Hstep : allocate_step bwd (bone, m) = Return bwd1)
          by (unfold allocate_step, getitem; simpl; rewrite Hb; reflexivity).
        rewrite for_fold_cons, Hstep. exact Hrun. }
      split; [exact Hempty'|]. split.
      * intros b' m' Hsome. apply Hmono. rewrite Htab.
        destruct (decide (b' = Bone.name bone /\ m' = m)); eauto.
      * intros p [->|Hp]%elem_of_cons; [|apply Hall; exact Hp].
        apply Hmono. simpl. rewrite Htab, decide_True by auto. eauto.
Qed.

Lemma initial_keys bones : forall (d : bone_weight_dict_t),
  no_vertices d ->
  let d' := foldl (fun d bone => <[Bone.name bone := ∅]> d) d bones in
  no_vertices d'
  /\ (forall k, is_Some (d !! k) -> is_Some (d' !! k))
  /\ (forall bone, bone ∈ bones -> is_Some (d' !! Bone.name bone)).
Proof.
  induction bones as [|bone bones IH]; intros d Hd; simpl.
  - split; [exact Hd|]. split; [auto|]. intros bone Hb. inversion Hb.
  - destruct (IH (<[Bone.name bone := ∅]> d)) as (H1 & H2 & H3).
    + intros b m s. unfold bucket, table.
      destruct (decide (b = Bone.name bone)) as [->|Hne].
      * rewrite lookup_insert_eq. simpl. rewrite lookup_empty. reflexivity.
      * rewrite lookup_insert_ne by congruence. apply Hd.
    + split; [exact H1|]. split.
      * intros k Hk. apply H2.
        destruct (decide (k = Bone.name bone)) as [->|Hne].
        -- rewrite lookup_insert_eq. eauto.
        -- rewrite lookup_insert_ne by congruence. exact Hk.
      * intros b [->|Hb]%elem_of_cons; [|apply H3; exact Hb].
        apply H2. rewrite lookup_insert_eq. eauto.
Qed.

Lemma build_phases :
  _meshes_to_weight_dict human objects prec
  = allocate human ≫= for_fold (add_mesh objects prec) (mesh_names human).
Proof.
  unfold _meshes_to_weight_dict, allocate. f_equal.
  rewrite for_fold_bind. apply for_fold_ext. intros b bone.
  rewrite for_fold_fmap. reflexivity.
Qed.

Lemma allocate_ok :
  exists bwd,
    allocate human = Return bwd /\ no_vertices bwd
    /\ forall bone m, bone ∈ Armature.bones human -> m ∈ mesh_names human ->
                      is_Some (table bwd (Bone.name bone) m).
Proof.
  destruct (initial_keys (Armature.bones human) ∅) as (H1 & _ & H3).
  { intros b m s. unfold bucket, table. rewrite lookup_empty. reflexivity. }
  destruct (fun Hk => allocate_pairs
              (Armature.bones human ≫= (fun bone => pair bone <$> mesh_names human))
              _ Hk H1) as (bwd & Hrun & Hempty & _ & Hall).
  { intros p (bone & [m [-> _]]%list_elem_of_fmap & Hbone)%list_elem_of_bind.
    apply H3. exact Hbone. }
  exists bwd. split; [exact Hrun|]. split; [exact Hempty|].
  intros bone m Hbone Hm. apply (Hall (bone, m)).
  apply list_elem_of_bind. exists bone. split; [|exact Hbone].
  apply list_elem_of_fmap. eauto.
Qed.

End Build.

(** ** The skin weight index of a scene *)

Section Index.

Variable human : Armature.t.
Variable objects : gmap string Object.t.
Variable prec : nat.

Lemma elem_of_mesh_names m :
  m ∈ mesh_names human <-> exists child, mesh_child human child /\ Object.name child = m.
Proof.
  unfold mesh_names, mesh_child.
  change (map Object.name ?l) with (Object.name <$> l).
  rewrite list_elem_of_fmap. split.
  - intros (child & -> & Hin). exists child. split; [|reflexivity].
    apply list_elem_of_In, filter_In in Hin as [Hin Ht].
    split; [apply list_elem_of_In; exact Hin|].
    apply String.eqb_eq. exact Ht.
  - intros (child & [Hin Ht] & <-). exists child. split; [reflexivity|].
    apply list_elem_of_In, filter_In. split; [apply list_elem_of_In; exact Hin|].
    apply String.eqb_eq. exact Ht.
Qed.

Lemma elem_of_contrib mesh_obj b s v :
  distinct_weights mesh_obj ->
  v ∈ contrib prec (group_names_of mesh_obj)
        (items_of (snd (_mesh_to_weight_dict mesh_obj))) b s
  <-> has_weight prec mesh_obj b v s.
Proof.
  intros Hd. unfold contrib, has_weight. rewrite list_elem_of_fmap. split.
  - intros ([[v' g] w] & -> & [Hf Hin]%list_elem_of_filter).
    apply (elem_of_mesh_items _ _ _ _ Hd) in Hin as [Hin _].
    apply elem_of_weight_triples in Hin as (vertex & e & Hv & He & Hi & Hg & Hw).
    destruct Hf as (Hb & Hz & Hs). simpl in *. subst.
    exists vertex, e. auto 10.
  - intros (vertex & e & Hv & Hi & He & Hb & Hz & Hs).
    exists (v, VertexGroupElement.group e, VertexGroupElement.weight e).
    split; [reflexivity|]. apply list_elem_of_filter. split.
    + unfold feeds. simpl. auto.
    + apply (elem_of_mesh_items _ _ _ _ Hd). split.
      * apply elem_of_weight_triples. exists vertex, e. auto 10.
      * eapply lookup_lt_Some. exact Hb.
Qed.

(** A vertex has at most one weight for a bone. *)
Lemma has_weight_unique mesh_obj b v s1 s2 :
  distinct_weights mesh_obj -> NoDup (group_names_of mesh_obj) ->
  has_weight prec mesh_obj b v s1 -> has_weight prec mesh_obj b v s2 -> s1 = s2.
Proof.
  intros [Hv Hg] Hn (x1 & e1 & Hx1 & Hi1 & He1 & Hb1 & _ & <-)
         (x2 & e2 & Hx2 & Hi2 & He2 & Hb2 & _ & <-).
  assert (x1 = x2) as <-
    by (apply (NoDup_fmap_eq MeshVertex.index _ _ _ Hv Hx1 Hx2); congruence).
  assert (e1 = e2) as <-; [|reflexivity].
  apply (NoDup_fmap_eq VertexGroupElement.group _ _ _ (Hg x1 Hx1) He1 He2).
  eapply NoDup_lookup; eassumption.
Qed.

Lemma NoDup_contrib mesh_obj b s :
  NoDup (group_names_of mesh_obj) ->
  NoDup (contrib prec (group_names_of mesh_obj)
           (items_of (snd (_mesh_to_weight_dict mesh_obj))) b s).
Proof.
  intros Hn. unfold contrib.
  apply NoDup_fmap_2_strong;
    [|apply NoDup_filter, NoDup_items, mesh_weight_dict_wf].
  intros [[v1 g1] w1] [[v2 g2] w2]
         [(Hb1 & _) Hin1]%list_elem_of_filter
         [(Hb2 & _) Hin2]%list_elem_of_filter E.
  simpl in *. subst v2.
  assert (g1 = g2) as <- by (eapply NoDup_lookup; eassumption).
  apply elem_of_items in Hin1, Hin2; [|apply mesh_weight_dict_wf..].
  congruence.
Qed.

(** The index that is built: a table for every bone and mesh, and in
    it exactly the contributions of that mesh. *)
Lemma index_buckets idx :
  well_formed human objects ->
  _meshes_to_weight_dict human objects prec = Return idx ->
  (forall bone child, bone ∈ Armature.bones human -> mesh_child human child ->
     is_Some (table idx (Bone.name bone) (Object.name child)))
  /\ forall b child s, mesh_child human child ->
       bucket idx b (Object.name child) s
       = contrib prec (group_names_of child)
                 (items_of (snd (_mesh_to_weight_dict child))) b s.
Proof.
  intros Hwf Hrun. rewrite build_phases in Hrun.
  destruct (allocate_ok human) as (bwd & Ha & Hempty & Htab).
  rewrite Ha in Hrun.
  change (for_fold (add_mesh objects prec) (mesh_names human) bwd = Return idx)
    in Hrun.
  apply add_meshes_inv in Hrun as [Hsame Hb]; [|apply Hwf]. split.
  - intros bone child Hbone Hchild. apply Hsame, Htab; [exact Hbone|].
    apply elem_of_mesh_names. eauto.
  - intros b child s Hchild. rewrite Hb, Hempty. simpl.
    rewrite decide_True by (apply elem_of_mesh_names; eauto).
    unfold mesh_contrib. rewrite (wf_objects _ _ Hwf child Hchild). reflexivity.
Qed.

Lemma build_ok :
  well_formed human objects -> groups_name_bones human ->
  exists idx, _meshes_to_weight_dict human objects prec = Return idx.
Proof.
  intros Hwf Hgb. rewrite build_phases.
  destruct (allocate_ok human) as (bwd & Ha & Hempty & Htab).
  rewrite Ha.
  change (exists idx,
            for_fold (add_mesh objects prec) (mesh_names human) bwd = Return idx).
  apply add_meshes_ok. intros m Hm.
  pose proof Hm as (child & Hchild & <-)%elem_of_mesh_names.
  exists child. split; [apply Hwf; exact Hchild|].
  intros [[v g] w] Hin.
  apply (elem_of_mesh_items _ _ _ _ (wf_weights _ _ Hwf child Hchild)) in Hin
    as [Hin Hlt].
  apply elem_of_weight_triples in Hin as (vertex & e & Hv & He & _ & Hg & _).
  destruct (lookup_lt_is_Some_2 _ _ Hlt) as [b Hb]. simpl.
  exists b. split; [exact Hb|]. subst g.
  destruct (Hgb child vertex e b Hchild Hv He Hb) as (bone & Hbone & <-).
  apply Htab; assumption.
Qed.

Lemma bucket_lookup idx b m (weights : weights_t) s :
  table idx b m = Some weights ->
  bucket idx b m s = default [] (weights !! s).
Proof. intros H. unfold bucket. rewrite H. reflexivity. Qed.

End Index.

(** ** The sample scenes are well formed *)

Lemma sample_mesh_child child : mesh_child Sample.human child -> child = Sample.body.
Proof. intros [Hin _]. apply list_elem_of_singleton in Hin. exact Hin. Qed.

Lemma sample_wf : well_formed Sample.human Sample.objects.
Proof.
  split.
  - apply (bool_decide_unpack _). vm_compute. exact I.
  - intros child ->%sample_mesh_child. reflexivity.
  - intros child ->%sample_mesh_child.
    apply (bool_decide_unpack _). vm_compute. exact I.
  - intros child ->%sample_mesh_child. split.
    + apply (bool_decide_unpack _). vm_compute. exact I.
    + intros v Hv. simpl in Hv.
      repeat (apply elem_of_cons in Hv as [->|Hv]);
        [apply (bool_decide_unpack _); vm_compute; exact I..|inversion Hv].
Qed.

Lemma sample_gb : groups_name_bones Sample.human.
Proof.
  intros child vertex e b ->%sample_mesh_child Hv He Hb. simpl in Hv.
  repeat (apply elem_of_cons in Hv as [->|Hv]); [| | |inversion Hv];
    simpl in He;
    repeat (apply elem_of_cons in He as [->|He]); try (inversion He; fail);
    simpl in Hb; try discriminate Hb; injection Hb as <-.
  all: first [exists Sample.root_bone; split; [left|reflexivity]
             |exists Sample.child_bone; split; [right; left|reflexivity]].
Qed.

Example sample_index :
  (fun idx => map (fun '(b, by_mesh) =>
                     (b, map (fun '(m, weights) => (m, map_to_list weights))
                             (map_to_list (by_mesh : gmap string weights_t))))
                  (map_to_list idx))
    <$> (match _meshes_to_weight_dict Sample.human Sample.objects 4 with
         | Return idx => Some idx
         | Raise _ => None
         end)
  = Some [("child.L", [("MakeHuman:Body", [("1.0000", [0; 1; 2]%nat)])]);
          ("root", [("MakeHuman:Body", [])])].
Proof. vm_compute. reflexivity. Qed.

Lemma boundary_mesh_child child : mesh_child Boundary.human child -> child = Boundary.body.
Proof. intros [Hin _]. apply list_elem_of_singleton in Hin. exact Hin. Qed.

Lemma boundary_wf : well_formed Boundary.human Boundary.objects.
Proof.
  split.
  - apply (bool_decide_unpack _). vm_compute. exact I.
  - intros child ->%boundary_mesh_child. reflexivity.
  - intros child ->%boundary_mesh_child.
    apply (bool_decide_unpack _). vm_compute. exact I.
  - intros child ->%boundary_mesh_child. split.
    + apply (bool_decide_unpack _). vm_compute. exact I.
    + intros v ->%list_elem_of_singleton.
      apply (bool_decide_unpack _). vm_compute. exact I.
Qed.

(** It fails where the group index equals the length: the triple is
    skipped, and its vertex is in no bucket. *)
Lemma group_index_at_length_skipped :
  ~ in_range_by_length Boundary.human Boundary.objects 4.
Proof.
  intros H.
  assert (Hrun : exists idx,
             _meshes_to_weight_dict Boundary.human Boundary.objects 4 = Return idx)
    by (vm_compute; eauto).
  destruct Hrun as [idx Hrun].
  assert (Hchild : mesh_child Boundary.human Boundary.body)
    by (split; [left|reflexivity]).
  destruct (H idx Hrun Boundary.body
              (MeshVertex.mk 0 Sample.origin Sample.up [Sample.full 1])
              (Sample.full 1) Hchild) as (b & s & Hin).
  - left.
  - left.
  - simpl. lia.
  - vm_compute. reflexivity.
  - destruct (index_buckets _ _ _ idx boundary_wf Hrun) as [_ Hb].
    rewrite Hb in Hin by exact Hchild.
    apply elem_of_contrib in Hin; [|apply boundary_wf, Hchild].
    destruct Hin as (vertex & e & ->%list_elem_of_singleton & _
                     & ->%list_elem_of_singleton & Hg & _).
    discriminate Hg.
Qed.

(** ** The output file only grows *)

Lemma string_app_cons (x : ascii) (a b : string) :
  String x a +:+ b = String x (a +:+ b).
Proof. reflexivity. Qed.

Lemma string_app_nil_r (s : string) : s +:+ EmptyString = s.
Proof.
  induction s as [|a s IH]; [reflexivity|].
  rewrite string_app_cons, IH. reflexivity.
Qed.

Lemma string_app_assoc (a b c : string) : (a +:+ b) +:+ c = a +:+ (b +:+ c).
Proof.
  induction a as [|x a IH]; [reflexivity|].
  rewrite !string_app_cons, IH. reflexivity.
Qed.

Lemma string_app_length (a b : string) :
  String.length (a +:+ b) = (String.length a + String.length b)%nat.
Proof.
  induction a as [|x a IH]; [reflexivity|].
  rewrite string_app_cons. simpl. rewrite IH. reflexivity.
Qed.

Lemma extends_same st st' : _egg_fp st'.1 = _egg_fp st.1 -> extends st st'.
Proof.
  intros H. exists EmptyString. rewrite H.
  destruct (_egg_fp st.1); simpl; [|reflexivity].
  rewrite string_app_nil_r. reflexivity.
Qed.

Lemma extends_refl st : extends st st.
Proof. apply extends_same. reflexivity. Qed.

Lemma extends_trans st1 st2 st3 :
  extends st1 st2 -> extends st2 st3 -> extends st1 st3.
Proof.
  intros [t1 H1] [t2 H2]. exists (t1 +:+ t2). rewrite H2, H1.
  destruct (_egg_fp st1.1); simpl; [|reflexivity].
  rewrite string_app_assoc. reflexivity.
Qed.

Section Appends.

Context {A B : Type}.

Lemma appends_ret (a : A) : appends (mret a).
Proof. intros st. apply extends_refl. Qed.

Lemma appends_lift (r : result A) : appends (lift r).
Proof. intros st. apply extends_refl. Qed.

Lemma appends_raise e : appends (raise e : M A).
Proof. intros st. apply extends_refl. Qed.

Lemma appends_bind (c : M A) (f : A -> M B) :
  appends c -> (forall a, appends (f a)) -> appends (c ≫= f).
Proof.
  intros Hc Hf st. rewrite run_bind. specialize (Hc st).
  destruct (c st) as [[a|e] st']; simpl in *; [|exact Hc].
  eapply extends_trans; [exact Hc|apply Hf].
Qed.

Lemma appends_try_except (c handler : M A) :
  appends c -> appends handler -> appends (try_except c handler).
Proof.
  intros Hc Hh st. unfold try_except. specialize (Hc st).
  destruct (c st) as [[a|e] st']; simpl in *; [exact Hc|].
  eapply extends_trans; [exact Hc|apply Hh].
Qed.

End Appends.

Lemma appends_for_each {A} (l : list A) (body : A -> M unit) :
  (forall a, appends (body a)) -> appends (for_each l body).
Proof.
  intros Hb. induction l as [|a l IH]; simpl; [apply appends_ret|].
  apply appends_bind; [apply Hb|intros _; exact IH].
Qed.

Lemma appends_get_self : appends get_self.
Proof. intros st. apply extends_refl. Qed.

Lemma appends_modify_world f : appends (modify_world f).
Proof. intros st. apply extends_same. reflexivity. Qed.

Lemma appends_print line : appends (print line).
Proof. apply appends_modify_world. Qed.

Lemma appends_write text : appends (write text).
Proof.
  intros [self w]. exists text.
  destruct (_egg_fp self) as [buf|] eqn:E.
  - rewrite (run_write _ _ _ _ E). simpl. rewrite E. destruct self; reflexivity.
  - rewrite (run_write_closed _ _ _ E). simpl. rewrite E. reflexivity.
Qed.

Lemma appends_update (f : Self -> Self) :
  (forall s, _egg_fp (f s) = _egg_fp s) ->
  appends (get_self ≫= fun self => put_self (f self)).
Proof.
  intros H [self w]. apply extends_same. simpl. apply H.
Qed.

Create HintDb appends.

Ltac appends_step :=
  first [ solve [auto 1 with appends nocore] |
  lazymatch goal with
  | |- appends (get_self ≫= fun self => put_self _) =>
      apply appends_update; intros []; reflexivity
  | |- appends (_ ≫= _) => apply appends_bind; [|intros ?]
  | |- appends (mret _) => apply appends_ret
  | |- appends (write _) => apply appends_write
  | |- appends (print _) => apply appends_print
  | |- appends (lift _) => apply appends_lift
  | |- appends (raise _) => apply appends_raise
  | |- appends get_self => apply appends_get_self
  | |- appends (modify_world _) => apply appends_modify_world
  | |- appends (for_each _ _) => apply appends_for_each; intros ?
  | |- appends (try_except _ _) => apply appends_try_except
  | |- appends (if ?b then _ else _) => destruct b
  | |- appends (match ?x with _ => _ end) => destruct x
  end ].

Ltac appends_auto := repeat appends_step.

Section WritersAppend.

Variable host : Host.

Lemma copy_texture_appends image :
  appends (_copy_texture_to_new_location host image).
Proof. unfold _copy_texture_to_new_location. appends_auto. Qed.

Lemma get_image_format_appends image : appends (_get_image_format image).
Proof. unfold _get_image_format. appends_auto. Qed.

Lemma write_texture_appends texture texture_coords mapping :
  appends (_write_texture host texture texture_coords mapping).
Proof.
  unfold _write_texture, _get_texture_wrap_u, _get_texture_wrap_v,
    _get_texture_type.
  destruct texture as [texture|]; [|apply appends_ret].
  destruct (Texture.image texture) as [image|]; [|apply appends_ret].
  apply appends_bind; [apply copy_texture_appends|intros ?].
  apply appends_bind; [apply appends_get_self|intros ?].
  apply appends_bind; [apply appends_lift|intros ?].
  apply appends_bind; [apply get_image_format_appends|intros ?].
  appends_auto.
Qed.

Hint Resolve copy_texture_appends get_image_format_appends
  write_texture_appends : appends.

Lemma write_textures_appends rmeshes : appends (_write_textures host rmeshes).
Proof. unfold _write_textures. appends_auto. Qed.

Lemma write_materials_appends rmeshes : appends (_write_materials rmeshes).
Proof. unfold _write_materials. appends_auto. Qed.

Lemma write_bone_translation_appends bone indent_level :
  appends (_write_bone_translation bone indent_level).
Proof. unfold _write_bone_translation. appends_auto. Qed.

Lemma write_bone_vertex_ref_appends meshes_weights indent_level :
  appends (_write_bone_vertex_ref meshes_weights indent_level).
Proof. unfold _write_bone_vertex_ref. appends_auto. Qed.

End WritersAppend.

(** Induction over a bone and the bones below it. *)
Lemma Bone_ind_children (P : Bone.t -> Prop) :
  (forall name head_local parent children,
     Forall P children -> P (Bone.mk name head_local parent children)) ->
  forall bone, P bone.
Proof.
  intros H. fix IH 1. intros [name head_local parent children].
  apply H. induction children as [|child children IHc]; constructor.
  - apply IH.
  - exact IHc.
Qed.

Section GeometryAppends.

Variable host : Host.

Hint Resolve write_bone_translation_appends write_bone_vertex_ref_appends
  : appends.

Lemma write_bone_appends bones_weights bone : forall indent_level,
  appends (_write_bone bone bones_weights indent_level).
Proof.
  induction bone as [name head_local parent children IH]
    using Bone_ind_children.
  intros indent_level. simpl.
  apply appends_bind; [appends_auto|intros _].
  apply appends_bind; [appends_auto|intros _].
  apply appends_bind; [appends_auto|intros _].
  apply appends_bind; [|intros _; appends_auto].
  induction IH as [|child children Hchild _ IHc]; [apply appends_ret|].
  apply appends_bind; [apply Hchild|intros _; exact IHc].
Qed.

Hint Resolve write_bone_appends : appends.

Lemma write_armature_appends meshes name indent_level :
  appends (_write_armature host meshes name indent_level).
Proof. unfold _write_armature. appends_auto. Qed.

Lemma write_vertex_appends vertex indent_level bvertex uv_layer mesh
    group_names weights :
  appends (_write_vertex vertex indent_level bvertex uv_layer mesh
                         group_names weights).
Proof. unfold _write_vertex. appends_auto. Qed.

Hint Resolve write_vertex_appends : appends.

Lemma write_vertexPool_appends mesh_obj indent_level :
  appends (_write_vertexPool mesh_obj indent_level).
Proof.
  unfold _write_vertexPool.
  destruct (_mesh_to_weight_dict mesh_obj) as [group_names weight_dict].
  appends_auto.
Qed.

Lemma write_polygons_appends mesh indent_level :
  appends (_write_polygons mesh indent_level).
Proof. unfold _write_polygons. appends_auto. Qed.

Hint Resolve write_vertexPool_appends write_polygons_appends : appends.

Lemma write_mesh_object_appends mesh_obj indent_level :
  appends (_write_mesh_object mesh_obj indent_level).
Proof. unfold _write_mesh_object. appends_auto. Qed.

Hint Resolve write_mesh_object_appends write_armature_appends : appends.

Lemma write_groups_appends meshes name : appends (_write_groups host meshes name).
Proof. unfold _write_groups. appends_auto. Qed.

End GeometryAppends.

(** ** Fixed-point text *)

Section FixedPoint.

Lemma all_digits_app a b : all_digits a -> all_digits b -> all_digits (a +:+ b).
Proof.
  unfold all_digits. induction a as [|x a IH]; intros Ha Hb; [exact Hb|].
  rewrite string_app_cons. simpl in *. inversion Ha; subst.
  constructor; auto.
Qed.

Lemma all_digits_take n s : all_digits s -> all_digits (Str.take n s).
Proof.
  unfold all_digits. revert s; induction n as [|n IH]; intros [|x s] H; simpl;
    try constructor; inversion H; subst; auto.
Qed.

Lemma all_digits_drop n s : all_digits s -> all_digits (Str.drop n s).
Proof.
  unfold all_digits. revert s; induction n as [|n IH]; intros [|x s] H; simpl;
    try assumption. inversion H; subst; auto.
Qed.

Lemma all_digits_zeros k : all_digits (Float.zeros k).
Proof. induction k as [|k IH]; simpl; constructor; [reflexivity|exact IH]. Qed.

Lemma all_digits_uint d : all_digits (NilEmpty.string_of_uint d).
Proof.
  unfold all_digits. induction d; simpl; constructor; try reflexivity; assumption.
Qed.

Lemma length_take n s :
  String.length (Str.take n s) = Nat.min n (String.length s).
Proof.
  revert s; induction n as [|n IH]; intros [|x s]; simpl; try reflexivity.
  rewrite IH. reflexivity.
Qed.

Lemma length_drop n s :
  String.length (Str.drop n s) = (String.length s - n)%nat.
Proof.
  revert s; induction n as [|n IH]; intros [|x s]; simpl; try reflexivity.
  apply IH.
Qed.

Lemma length_zeros k : String.length (Float.zeros k) = k.
Proof. induction k as [|k IH]; simpl; congruence. Qed.

Lemma fixed_decimals p n : (0 < p)%nat -> decimals p (Float.fixed p n).
Proof.
  intros Hp. unfold Float.fixed.
  set (ds := Float.zeros (S p - String.length (Float.digits n)) +:+ Float.digits n).
  assert (Hlen : (S p <= String.length ds)%nat).
  { subst ds. rewrite string_app_length, length_zeros. lia. }
  assert (Hds : all_digits ds).
  { subst ds. apply all_digits_app; [apply all_digits_zeros|].
    apply all_digits_uint. }
  destruct p as [|p]; [lia|].
  exists (Str.take (String.length ds - S p) ds),
         (Str.drop (String.length ds - S p) ds).
  split; [reflexivity|]. split; [apply all_digits_take, Hds|].
  split; [apply all_digits_drop, Hds|].
  rewrite length_take, length_drop. lia.
Qed.

(** A finite float is written with exactly [p] decimal places, after
    a minus sign if it is negative. *)
Lemma format_f_decimals p x :
  (0 < p)%nat -> is_finite x = true ->
  exists sign, (sign = EmptyString \/ sign = "-")
               /\ exists body, Float.format_f p x = sign +:+ body
                               /\ decimals p body.
Proof.
  intros Hp Hx. destruct x as [s|s| |s m e]; try discriminate; simpl.
  - exists (if s then "-" else EmptyString).
    split; [destruct s; auto|]. eexists. split; [reflexivity|].
    apply fixed_decimals, Hp.
  - exists (if s then "-" else EmptyString).
    split; [destruct s; auto|]. eexists. split; [reflexivity|].
    apply fixed_decimals, Hp.
Qed.

(** Rounding picks a nearest integer. *)
Lemma round_half_even_nearest n d :
  0 < d -> 2 * Z.abs (n - Float.round_half_even n d * d) <= d.
Proof.
  intros Hd. unfold Float.round_half_even.
  pose proof (Z.div_mod n d ltac:(lia)) as E.
  pose proof (Z.mod_pos_bound n d Hd) as Hr.
  destruct (Z.compare_spec (2 * (n mod d)) d) as [H|H|H];
    [destruct (Z.even (n / d))|..]; nia.
Qed.

End FixedPoint.

(** ** Bone translations *)

Section Translation.

Lemma write_bone_run bone bones_weights indent_level st :
  _write_bone bone bones_weights indent_level st =
  (write (joint_open bone indent_level);;
   _write_bone_translation bone (indent_level + 4);;
   write (padding_of indent_level +:+ "  }" +:+ nl);;
   joint_rest bone bones_weights indent_level) st.
Proof.
  destruct bone as [name head_local parent children].
  unfold joint_rest, joint_open. simpl _write_bone. simpl Bone.children.
  rewrite !run_bind.
  destruct (write _ st) as [[[]|e] st1]; [|reflexivity].
  rewrite !run_bind.
  destruct (_write_bone_translation _ _ st1) as [[[]|e] st2]; [|reflexivity].
  rewrite !run_bind.
  destruct (write _ st2) as [[[]|e] st3]; [|reflexivity].
  rewrite !run_bind.
  replace ((fix each (l : list Bone.t) : M () :=
              match l with
              | [] => mret ()
              | child_bone :: l' =>
                  _write_bone child_bone bones_weights (indent_level + 2);;
                  each l'
              end) children st3)
    with (for_each children
            (fun child_bone =>
               _write_bone child_bone bones_weights (indent_level + 2)) st3);
    [reflexivity|].
  generalize st3. induction children as [|c cs IH]; intros st'; [reflexivity|].
  simpl. rewrite !run_bind.
  destruct (_write_bone c _ _ st') as [[[]|e] st'']; [apply IH|reflexivity].
Qed.

Lemma joint_rest_appends bone bones_weights indent_level :
  appends (joint_rest bone bones_weights indent_level).
Proof.
  unfold joint_rest.
  apply appends_bind; [apply appends_for_each; intros; apply write_bone_appends|].
  intros _. apply appends_bind; [apply appends_lift|intros ?].
  apply appends_bind; [apply write_bone_vertex_ref_appends|intros _].
  apply appends_write.
Qed.

Lemma run_write_bone_translation bone indent_level self w buf :
  _egg_fp self = Some buf ->
  _write_bone_translation bone indent_level (self, w) =
  (Return tt,
   (set_egg_fp
      (Some (buf +:+ translate_line indent_level
                       (match Bone.parent bone with
                        | Some parent =>
                            Vector.sub (Bone.head_local bone)
                                       (Bone.head_local parent)
                        | None => Bone.head_local bone
                        end))) self, w)).
Proof. intros H. unfold _write_bone_translation. apply run_write, H. Qed.

End Translation.

(** C2: with the output file open, the translation written for a bone
    with a parent has as coordinates the coordinates of its head minus
    those of the parent's head, each difference taken in [mathutils]'
    single precision, and for a bone without a parent the coordinates of
    its head themselves; [_write_bone] writes it as the transform of the
    bone's joint node, before anything else of that node; and every
    finite coordinate is written with exactly 5 decimal places. *)
Theorem bone_translation_relative bone bones_weights indent_level self w buf :
  _egg_fp self = Some buf ->
  (forall parent, Bone.parent bone = Some parent ->
     let head := Bone.head_local bone in
     let phead := Bone.head_local parent in
     let loc :=
       Vector.mk (SFsub 24 128 (Vector.x head) (Vector.x phead))
                 (SFsub 24 128 (Vector.y head) (Vector.y phead))
                 (SFsub 24 128 (Vector.z head) (Vector.z phead)) in
     _write_bone_translation bone indent_level (self, w)
     = (Return tt,
        (set_egg_fp (Some (buf +:+ translate_line indent_level loc)) self, w))
     /\ exists rest,
          _egg_fp (fst (snd (_write_bone bone bones_weights indent_level (self, w))))
          = Some (buf +:+ joint_open bone indent_level
                      +:+ translate_line (indent_level + 4) loc
                      +:+ padding_of indent_level +:+ "  }" +:+ nl +:+ rest))
  /\ (Bone.parent bone = None ->
      let loc := Bone.head_local bone in
      _write_bone_translation bone indent_level (self, w)
      = (Return tt,
         (set_egg_fp (Some (buf +:+ translate_line indent_level loc)) self, w))
      /\ exists rest,
           _egg_fp (fst (snd (_write_bone bone bones_weights indent_level (self, w))))
           = Some (buf +:+ joint_open bone indent_level
                       +:+ translate_line (indent_level + 4) loc
                       +:+ padding_of indent_level +:+ "  }" +:+ nl +:+ rest))
  /\ (forall c, is_finite c = true ->
        exists sign body,
          Float.format_f 5 c = sign +:+ body
          /\ (sign = EmptyString \/ sign = "-") /\ decimals 5 body).
Proof.
  intros Hopen.
  assert (Hjoint : exists rest,
            _egg_fp (fst (snd (_write_bone bone bones_weights indent_level (self, w))))
            = Some (buf +:+ joint_open bone indent_level
                        +:+ translate_line (indent_level + 4)
                              (match Bone.parent bone with
                               | Some parent =>
                                   Vector.sub (Bone.head_local bone)
                                              (Bone.head_local parent)
                               | None => Bone.head_local bone
                               end)
                        +:+ padding_of indent_level +:+ "  }" +:+ nl +:+ rest)).
  { rewrite write_bone_run, run_bind, (run_write _ _ _ _ Hopen), run_bind.
    rewrite (run_write_bone_translation _ _ _ _ (buf +:+ joint_open bone indent_level))
      by (destruct self; reflexivity).
    rewrite run_bind.
    erewrite run_write by (destruct self; reflexivity).
    match goal with |- context [joint_rest ?b ?bw ?i ?st] =>
      destruct (joint_rest_appends b bw i st) as [rest Hrest];
      destruct (joint_rest b bw i st) as [r st'] end.
    exists rest. simpl in Hrest |- *. rewrite Hrest.
    destruct self; simpl. rewrite !string_app_assoc. reflexivity. }
  split; [|split].
  - intros parent Hp head phead loc. split.
    + rewrite (run_write_bone_translation _ _ _ _ _ Hopen), Hp. reflexivity.
    + rewrite Hp in Hjoint. exact Hjoint.
  - intros Hp loc. split.
    + rewrite (run_write_bone_translation _ _ _ _ _ Hopen), Hp. reflexivity.
    + rewrite Hp in Hjoint. exact Hjoint.
  - intros c Hc.
    destruct (format_f_decimals 5 c ltac:(lia) Hc) as (sign & Hs & body & E & Hd).
    eauto.
Qed.

Lemma bone_translation_relative_witness :
  _egg_fp Sample.opened.1 = Some EmptyString /\
  Bone.parent Cases.forearm = Some Cases.upper_arm /\
  Bone.head_local Cases.upper_arm
  = Vector.mk (dec 1 0) (dec 2 0) (dec 3 0) /\
  Bone.head_local Cases.forearm
  = Vector.mk (dec 15 1) (dec 225 2) (dec 5 0) /\
  _egg_fp (_write_bone_translation Cases.forearm 4 Sample.opened).2.1
  = Some ("    <Translate> {  0.50000 0.25000 2.00000 }" +:+ nl).
Proof.
  split; [reflexivity|]. split; [reflexivity|].
  split; [reflexivity|]. split; [reflexivity|].
  change Sample.opened with (Sample.opened.1, Sample.opened.2).
  rewrite (proj1 (proj1 (bone_translation_relative
                           Cases.forearm ∅ 4 Sample.opened.1 Sample.opened.2
                           EmptyString eq_refl) _ eq_refl)).
  vm_compute. reflexivity.
Defined.

(** A bone without a parent keeps its head: the same head as above is
    written unchanged. *)
Example root_translation_absolute :
  _egg_fp (_write_bone_translation
             (Bone.mk "arm" (Bone.head_local Cases.forearm) None [])
             2 Sample.opened).2.1
  = Some ("  <Translate> {  1.50000 2.25000 5.00000 }" +:+ nl).
Proof. vm_compute. reflexivity. Qed.

Lemma get_image_format_unrecognized_witness :
  Image.colorspace_settings_name Sample.linear_image <> "sRGB" /\
  _get_image_format Sample.linear_image Sample.constructed
  = (Raise NameError, Sample.constructed).
Proof.
  split; [discriminate|].
  apply get_image_format_unrecognized. discriminate.
Defined.

(** ** The vertex pool *)

Section VertexPool.

Lemma lookup_foldl_set_weight tot l v : forall wd,
  (forall t, t ∈ l -> t.1.1 <> v) ->
  foldl (set_weight tot) wd l !! v = wd !! v.
Proof.
  induction l as [|t l IH]; intros wd H; [reflexivity|].
  simpl. rewrite IH by (intros; apply H; right; assumption).
  unfold set_weight. destruct (Nat.ltb _ _); [|reflexivity].
  apply olookup_insert_ne. apply H. left.
Qed.

(** A vertex in no group has no entry in the weight dictionary. *)
Lemma ungrouped_vertex_has_no_entry mesh_obj vertex :
  NoDup (MeshVertex.index <$> Mesh.vertices (Object.data mesh_obj)) ->
  vertex ∈ Mesh.vertices (Object.data mesh_obj) ->
  MeshVertex.groups vertex = [] ->
  snd (_mesh_to_weight_dict mesh_obj) !! MeshVertex.index vertex = None.
Proof.
  intros Hnd Hin Hg. rewrite mesh_to_weight_dict_fold.
  rewrite lookup_foldl_set_weight; [apply olookup_empty|].
  intros [[v g] w] Ht Hv. simpl in Hv.
  apply elem_of_weight_triples in Ht as (x & e & Hx & He & Hi & _).
  assert (x = vertex) as ->
    by (apply (NoDup_fmap_eq MeshVertex.index _ _ _ Hnd Hx Hin); congruence).
  rewrite Hg in He. inversion He.
Qed.

Lemma bm_verts_lookup mesh i bvertex :
  bm_verts mesh !! i = Some bvertex -> bvertex = link_loops_of mesh i.
Proof.
  unfold bm_verts. change (map ?f ?l) with (f <$> l).
  rewrite list_lookup_fmap. intros H.
  destruct (seq 0 (length (Mesh.vertices mesh)) !! i) as [j|] eqn:E;
    [|discriminate].
  apply lookup_seq in E as [-> _]. simpl in H. congruence.
Qed.

Lemma write_vertex_without_corners vertex indent_level uv_layer mesh
    group_names weights st :
  exists e st',
    _write_vertex vertex indent_level [] uv_layer mesh group_names weights st
    = (Raise e, st').
Proof. exists UnboundLocalError, st. reflexivity. Qed.

End VertexPool.

(** C10: the specification promises a record for every vertex, also for
    a vertex in no vertex group and for a vertex without face corners.  The weight
    dictionary has no entry for a vertex in no group, although its
    docstring promises one dictionary per vertex, so
    [weight_dict[vertex.index]] raises [KeyError]; and for a vertex
    without face corners [_uv_from_vert_set] reads the loop variable that
    was never bound.  In both cases the writer raises and the pool is left
    unfinished. *)
Theorem vertexPool_raises mesh_obj indent_level vertex :
  vertex ∈ Mesh.vertices (Object.data mesh_obj) ->
  (NoDup (MeshVertex.index <$> Mesh.vertices (Object.data mesh_obj))
   /\ MeshVertex.groups vertex = [])
  \/ link_loops_of (Object.data mesh_obj) (MeshVertex.index vertex) = [] ->
  forall st, exists e st',
    _write_vertexPool mesh_obj indent_level st = (Raise e, st').
Proof.
  intros Hin Hcase st. unfold _write_vertexPool. rewrite run_bind.
  destruct (write _ st) as [[[]|e] st1]; [|eauto].
  pose proof (ungrouped_vertex_has_no_entry mesh_obj vertex) as Hwd.
  destruct (_mesh_to_weight_dict mesh_obj) as [group_names weight_dict].
  simpl in Hwd. rewrite run_bind.
  match goal with |- context [for_each ?l ?body st1] =>
    destruct (for_each_raises l body vertex Hin) with (st := st1)
      as (e & st2 & E) end.
  - intros st'. rewrite run_bind. unfold lift at 1.
    destruct (list_getitem _ _) as [bvertex|e] eqn:Eb; [|eauto].
    rewrite run_bind. unfold lift at 1.
    destruct (odict_getitem weight_dict _) as [weights|e] eqn:Ew; [|eauto].
    destruct Hcase as [[Hnd Hg]|Hloops].
    + unfold odict_getitem in Ew. rewrite (Hwd Hnd Hin Hg) in Ew. discriminate.
    + unfold list_getitem in Eb.
      destruct (bm_verts _ !! _) as [bv|] eqn:Eb'; [|discriminate].
      injection Eb as <-. apply bm_verts_lookup in Eb'. rewrite Hloops in Eb'.
      subst bv. apply write_vertex_without_corners.
  - rewrite E. eauto.
Qed.

Lemma vertexPool_raises_witness :
  exists e st',
    _write_vertexPool Ungrouped.body 4
      (set_egg_fp (Some EmptyString) Sample.blank, Sample.world)
    = (Raise e, st').
Proof.
  apply (vertexPool_raises Ungrouped.body 4
           (MeshVertex.mk 2 Sample.origin Sample.up [])).
  - right. right. left.
  - left. split; [|reflexivity].
    apply (bool_decide_unpack _). vm_compute. exact I.
Defined.

Example ungrouped_vertex_KeyError :
  fst (_write_vertexPool Ungrouped.body 4
         (set_egg_fp (Some EmptyString) Sample.blank, Sample.world))
  = Raise KeyError.
Proof. vm_compute. reflexivity. Qed.

(** ** Material records *)

Section Materials.

(** With the file open and an active material on every mesh, the
    writer appends one record per mesh. *)
Lemma run_write_materials rmeshes : forall mats self w buf,
  _egg_fp self = Some buf ->
  Object.active_material <$> rmeshes = Some <$> mats ->
  _write_materials rmeshes (self, w)
  = (Return tt, (set_egg_fp (Some (buf +:+ material_records mats)) self, w)).
Proof.
  induction rmeshes as [|rmesh rmeshes IH]; intros mats self w buf Hopen Hmats.
  - destruct mats; [|discriminate]. simpl. rewrite string_app_nil_r.
    destruct self; unfold set_egg_fp; simpl in *; subst; reflexivity.
  - destruct mats as [|mat mats]; [discriminate|].
    rewrite !fmap_cons in Hmats. injection Hmats as Hmat Hmats.
    unfold _write_materials. simpl for_each.
    rewrite !run_bind. unfold lift at 1, attr. rewrite Hmat.
    erewrite run_write by exact Hopen.
    fold (material_record mat).
    change (for_each rmeshes _) with (_write_materials rmeshes).
    erewrite IH; [|destruct self; reflexivity|exact Hmats].
    simpl. rewrite string_app_assoc. destruct self; reflexivity.
Qed.

(** It returns only if every mesh has an active material. *)
Lemma write_materials_returns rmeshes : forall st st',
  _write_materials rmeshes st = (Return tt, st') ->
  exists mats, Object.active_material <$> rmeshes = Some <$> mats.
Proof.
  induction rmeshes as [|rmesh rmeshes IH]; intros st st' Hrun.
  - exists []. reflexivity.
  - unfold _write_materials in Hrun. simpl for_each in Hrun.
    rewrite !run_bind in Hrun. unfold lift at 1, attr in Hrun.
    destruct (Object.active_material rmesh) as [mat|] eqn:Hmat; [|discriminate].
    destruct (write _ st) as [[[]|e] st1]; [|discriminate].
    change (for_each rmeshes _) with (_write_materials rmeshes) in Hrun.
    apply IH in Hrun as [mats Hmats]. exists (mat :: mats).
    rewrite !fmap_cons, Hmat, Hmats. reflexivity.
Qed.

(** It stops at the first mesh without an active material, with the
    records of the meshes before it in the file. *)
Lemma run_write_materials_missing before bad after mats self w buf :
  _egg_fp self = Some buf ->
  Object.active_material <$> before = Some <$> mats ->
  Object.active_material bad = None ->
  _write_materials (before ++ bad :: after) (self, w)
  = (Raise AttributeError,
     (set_egg_fp (Some (buf +:+ material_records mats)) self, w)).
Proof.
  intros Hopen Hmats Hbad. unfold _write_materials. rewrite for_each_app.
  change (for_each before _) with (_write_materials before).
  rewrite (run_write_materials before mats self w buf Hopen Hmats).
  simpl for_each. rewrite run_bind. unfold lift at 1, attr.
  rewrite Hbad. reflexivity.
Qed.

(** Either every mesh has an active material, or there is a first one
    without. *)
Lemma materials_split (rmeshes : list Object.t) :
  (exists mats, Object.active_material <$> rmeshes = Some <$> mats)
  \/ (exists before bad after mats,
        rmeshes = before ++ bad :: after
        /\ Object.active_material <$> before = Some <$> mats
        /\ Object.active_material bad = None).
Proof.
  induction rmeshes as [|rmesh rmeshes IH].
  - left. exists []. reflexivity.
  - destruct (Object.active_material rmesh) as [mat|] eqn:E.
    + destruct IH as [[mats H]|(before & bad & after & mats & -> & H & Hb)].
      * left. exists (mat :: mats). rewrite !fmap_cons, E, H. reflexivity.
      * right. exists (rmesh :: before), bad, after, (mat :: mats).
        split; [reflexivity|].
        split; [rewrite !fmap_cons, E, H; reflexivity|exact Hb].
    + right. exists [], rmesh, rmeshes, []. auto.
Qed.

End Materials.

(** ** The order of the document *)

Lemma run_print line self w :
  print line (self, w) =
  (Return tt, (self, mkWorld (stdout w ++ [line]) (mkdir_calls w)
                             (save_render_calls w) (closed_files w))).
Proof. reflexivity. Qed.

Lemma produce_egg_opened host self w :
  open_fails host (_filepath self) = false ->
  produce_egg host (self, w) =
  match after_header host self
          (set_egg_fp (Some (header host self)) self,
           printed ["Writing Egg file " +:+ _filepath self] w) with
  | (r, st1) =>
      match (close_egg_fp ≫= fun _ => print "Done.") st1 with
      | (Return _, st2) => (r ≫= fun _ => Return "FINISHED", st2)
      | (Raise e, st2) => (Raise e, st2)
      end
  end.
Proof.
  intros H. unfold produce_egg. rewrite run_bind.
  change (get_self (self, w)) with (Return self, (self, w)). cbv beta iota.
  rewrite run_bind. unfold try_finally.
  match goal with |- context [match ?c (self, w) with _ => _ end] =>
    set (body := c) end.
  assert (Hbody : body (self, w)
            = after_header host self
                (set_egg_fp (Some (header host self)) self,
                 printed ["Writing Egg file " +:+ _filepath self] w)).
  { subst body. rewrite run_bind. unfold try_except at 1.
    rewrite run_bind, H.
    change ((put_self (set_egg_fp (Some EmptyString) self)) (self, w))
      with (Return tt, (set_egg_fp (Some EmptyString) self, w)).
    cbv beta iota. rewrite run_print. cbv beta iota. rewrite run_bind.
    erewrite run_write by (destruct self; reflexivity).
    destruct self; reflexivity. }
  rewrite Hbody. clear Hbody body.
  destruct (after_header host self _) as [r st1].
  destruct ((close_egg_fp ≫= fun _ => print "Done.") st1) as [[[]|e] st2];
    [|reflexivity].
  destruct r as [[]|e]; reflexivity.
Qed.

Lemma run_finally text st :
  _egg_fp st.1 = Some text ->
  (close_egg_fp ≫= fun _ => print "Done.") st = (Return tt, closed_with text st).
Proof.
  destruct st as [self w]. intros H. rewrite run_bind. unfold close_egg_fp.
  rewrite run_bind.
  change (get_self (self, w)) with (Return self, (self, w)). cbv beta iota.
  simpl in H. rewrite H. reflexivity.
Qed.

(** Every run of the export, by what stops it: the file that cannot be
    opened, the texture writer, a mesh without an active material, or
    nothing before [_write_groups]. *)
Lemma produce_egg_outcomes host self w r st' :
  produce_egg host (self, w) = (r, st') ->
  let meshes :=
    List.filter (fun child => String.eqb (Object.type child) "MESH")
                (Armature.children (_human self)) in
  let st0 :=
    (set_egg_fp (Some (header host self)) self,
     printed ["Exporting textures"]
             (printed ["Writing Egg file " +:+ _filepath self] w)) in
  (open_fails host (_filepath self) = true
   /\ r = Raise AttributeError /\ _egg_fp st'.1 = None)
  \/ (open_fails host (_filepath self) = false
      /\ exists rt st_t pre,
           _write_textures host meshes st0 = (rt, st_t)
           /\ _egg_fp st_t.1 = Some (header host self +:+ pre)
           /\ match rt with
              | Raise e => r = Raise e /\ _egg_fp st'.1 = _egg_fp st_t.1
              | Return _ =>
                  (exists before bad after mats,
                     meshes = before ++ bad :: after
                     /\ Object.active_material <$> before = Some <$> mats
                     /\ Object.active_material bad = None
                     /\ r = Raise AttributeError
                     /\ _egg_fp st'.1
                        = Some ((header host self +:+ pre)
                                +:+ material_records mats))
                  \/ (exists mats rg st_g geometry,
                        Object.active_material <$> meshes = Some <$> mats
                        /\ _write_groups host meshes (_filename self)
                             (set_egg_fp
                                (Some ((header host self +:+ pre)
                                       +:+ material_records mats)) st_t.1,
                              printed ["Exporting geometry & armature"]
                                (printed ["Exporting materials"] st_t.2))
                           = (rg, st_g)
                        /\ _egg_fp st_g.1
                           = Some (((header host self +:+ pre)
                                    +:+ material_records mats)
                                   +:+ geometry)
                        /\ _egg_fp st'.1 = _egg_fp st_g.1
                        /\ r = (rg ≫= fun _ => Return "FINISHED"))
              end).
Proof.
  intros H meshes st0.
  destruct (open_fails host (_filepath self)) eqn:Hopen.
  - left. split; [reflexivity|].
    revert H. unfold produce_egg, try_finally, close_egg_fp.
    cbv beta iota zeta delta [mbind M_bind get_self fst]. rewrite Hopen.
    mrun. intros [= <- <-]. split; reflexivity.
  - right. split; [reflexivity|].
    rewrite (produce_egg_opened host self w Hopen) in H.
    unfold after_header in H. fold meshes in H.
    rewrite run_bind, run_print in H. cbv beta iota in H.
    rewrite run_bind in H.
    match type of H with context [_write_textures host meshes ?s] =>
      change s with st0 in H end.
    destruct (write_textures_appends host meshes st0) as [pre Hpre].
    destruct (_write_textures host meshes st0) as [rt [self_t w_t]] eqn:Ht.
    exists rt, (self_t, w_t), pre.
    split; [reflexivity|].
    assert (Htext : _egg_fp self_t = Some (header host self +:+ pre)).
    { simpl in Hpre. rewrite Hpre. destruct self; reflexivity. }
    split; [exact Htext|].
    destruct rt as [[]|e].
    2:{ rewrite (run_finally _ (self_t, w_t) Htext) in H. injection H as <- <-.
        split; reflexivity. }
    rewrite run_bind, run_print in H. cbv beta iota in H.
    rewrite run_bind in H.
    destruct (materials_split meshes)
      as [[mats Hm]|(before & bad & after & mats & Hs & Hm & Hbad)].
    + right.
      erewrite run_write_materials in H by eassumption.
      rewrite run_bind, run_print in H. cbv beta iota in H.
      match type of H with context [_write_groups host meshes ?n ?s] =>
        destruct (write_groups_appends host meshes n s) as [geometry Hg];
        destruct (_write_groups host meshes n s) as [rg st_g] eqn:Hrun end.
      assert (Hfile : _egg_fp st_g.1
                      = Some (((header host self +:+ pre)
                               +:+ material_records mats) +:+ geometry)).
      { simpl in Hg. rewrite Hg. destruct self_t; reflexivity. }
      rewrite (run_finally _ _ Hfile) in H. injection H as <- <-.
      exists mats, rg, st_g, geometry.
      split; [exact Hm|]. split; [exact Hrun|]. split; [exact Hfile|].
      split; reflexivity.
    + left. rewrite Hs in H.
      erewrite run_write_materials_missing in H by eassumption.
      erewrite run_finally in H by (destruct self_t; reflexivity).
      injection H as <- <-.
      exists before, bad, after, mats.
      split; [exact Hs|]. split; [exact Hm|]. split; [exact Hbad|].
      split; [reflexivity|]. destruct self_t; reflexivity.
Qed.

(** C8, as amended: with the file open, the material writer appends one
    record per mesh, in the order of the meshes, each for that mesh's
    active material -- so a material shared by two meshes gets two
    records -- up to the first mesh without an active material, where it
    raises [AttributeError]; it returns when every mesh has one.  In
    every run of the export the material records follow the header and
    the texture records, and [_write_groups], which writes the geometry
    and the armature, starts only when all of them are in the file and
    appends to it: when the file cannot be opened, the texture writer
    raises or a mesh has no active material, the export raises and
    [_write_groups] writes nothing. *)
Theorem material_record_per_mesh :
  (forall rmeshes self w buf,
     _egg_fp self = Some buf ->
     (forall mats,
        Object.active_material <$> rmeshes = Some <$> mats ->
        _write_materials rmeshes (self, w)
        = (Return tt,
           (set_egg_fp (Some (buf +:+ material_records mats)) self, w)))
     /\ (forall before bad after mats,
           rmeshes = before ++ bad :: after ->
           Object.active_material <$> before = Some <$> mats ->
           Object.active_material bad = None ->
           _write_materials rmeshes (self, w)
           = (Raise AttributeError,
              (set_egg_fp (Some (buf +:+ material_records mats)) self, w)))
     /\ ((exists mats, Object.active_material <$> rmeshes = Some <$> mats)
         \/ (exists before bad after mats,
               rmeshes = before ++ bad :: after
               /\ Object.active_material <$> before = Some <$> mats
               /\ Object.active_material bad = None)))
  /\ (forall host self w r st',
        produce_egg host (self, w) = (r, st') ->
        let meshes :=
          List.filter (fun child => String.eqb (Object.type child) "MESH")
                      (Armature.children (_human self)) in
        let st0 :=
          (set_egg_fp (Some (header host self)) self,
           printed ["Exporting textures"]
                   (printed ["Writing Egg file " +:+ _filepath self] w)) in
        (open_fails host (_filepath self) = true
         /\ r = Raise AttributeError /\ _egg_fp st'.1 = None)
        \/ (open_fails host (_filepath self) = false
            /\ exists rt st_t pre,
                 _write_textures host meshes st0 = (rt, st_t)
                 /\ _egg_fp st_t.1 = Some (header host self +:+ pre)
                 /\ match rt with
                    | Raise e => r = Raise e /\ _egg_fp st'.1 = _egg_fp st_t.1
                    | Return _ =>
                        (exists before bad after mats,
                           meshes = before ++ bad :: after
                           /\ Object.active_material <$> before = Some <$> mats
                           /\ Object.active_material bad = None
                           /\ r = Raise AttributeError
                           /\ _egg_fp st'.1
                              = Some ((header host self +:+ pre)
                                      +:+ material_records mats))
                        \/ (exists mats rg st_g geometry,
                              Object.active_material <$> meshes = Some <$> mats
                              /\ _write_groups host meshes (_filename self)
                                   (set_egg_fp
                                      (Some ((header host self +:+ pre)
                                             +:+ material_records mats)) st_t.1,
                                    printed ["Exporting geometry & armature"]
                                      (printed ["Exporting materials"] st_t.2))
                                 = (rg, st_g)
                              /\ _egg_fp st_g.1
                                 = Some (((header host self +:+ pre)
                                          +:+ material_records mats)
                                         +:+ geometry)
                              /\ _egg_fp st'.1 = _egg_fp st_g.1
                              /\ r = (rg ≫= fun _ => Return "FINISHED"))
                    end)).
Proof.
  split; [|apply produce_egg_outcomes].
  intros rmeshes self w buf Hopen. split; [|split].
  - intros mats. apply run_write_materials. exact Hopen.
  - intros before bad after mats ->. apply run_write_materials_missing.
    exact Hopen.
  - apply materials_split.
Qed.

Lemma material_record_per_mesh_witness :
  _egg_fp Shared.opened.1 = Some EmptyString /\
  Object.active_material <$> Shared.rmeshes
  = Some <$> [Sample.material; Sample.material] /\
  _write_materials Shared.rmeshes Shared.opened
  = (Return tt,
     (set_egg_fp (Some (EmptyString
                        +:+ material_records [Sample.material; Sample.material]))
                 Shared.opened.1, Shared.opened.2)).
Proof.
  split; [reflexivity|]. split; [reflexivity|].
  apply (proj1 (proj1 material_record_per_mesh Shared.rmeshes
                      Shared.opened.1 Shared.opened.2 EmptyString eq_refl)
               [Sample.material; Sample.material]).
  reflexivity.
Defined.

(** It fails: the record is written once for each of the two meshes. *)
Lemma shared_material_written_twice :
  ~ shared_material_once Sample.body Shared.hair Sample.material.
Proof.
  intros H.
  specialize (H eq_refl eq_refl Shared.opened.1 Shared.opened.2 EmptyString eq_refl).
  vm_compute in H. discriminate H.
Qed.

Example shared_material_two_records :
  _egg_fp (_write_materials Shared.rmeshes Shared.opened).2.1
  = Some (material_record Sample.material +:+ material_record Sample.material).
Proof. vm_compute. reflexivity. Qed.

(** ** The sample export *)

Lemma relocation_dedup_witness :
  _tex_folder Sample.constructed.1 = Some "/out/textures" /\
  _copied_files Sample.constructed.1 !! Image.filepath Sample.image = None /\
  exists path st1 st2 st3 calls,
    _copy_texture_to_new_location Sample.host Sample.image
      (Sample.constructed.1, Sample.constructed.2) = (Return path, st1)
    /\ for_each [Sample.eyes; Sample.image; Sample.eyes]
         (fun o => _copy_texture_to_new_location Sample.host o;; mret tt) st1
       = (Return tt, st2)
    /\ _copy_texture_to_new_location Sample.host Sample.image st2
       = (Return path, st3)
    /\ save_render_calls st3.2 = save_render_calls Sample.constructed.2 ++ calls
    /\ copies_of (Image.filepath Sample.image) calls = 1%nat.
Proof.
  assert (Htf : _tex_folder Sample.constructed.1 = Some "/out/textures")
    by (vm_compute; reflexivity).
  assert (Hnew : _copied_files Sample.constructed.1 !! Image.filepath Sample.image
                 = None)
    by (vm_compute; reflexivity).
  split; [exact Htf|]. split; [exact Hnew|].
  exact (relocation_dedup Sample.host Sample.image Sample.image
           [Sample.eyes; Sample.image; Sample.eyes]
           Sample.constructed.1 Sample.constructed.2
           "/out/textures" Htf Hnew eq_refl).
Defined.

(** The worker was built with [use_rel_paths = False], and the texture
    reference is relative all the same. *)
Example sample_reference_is_relative :
  fst (_copy_texture_to_new_location Sample.host Sample.image Sample.constructed)
  = Return "textures/skin.png"
  /\ destination Sample.host "/out/textures" Sample.image = "/out/textures/skin.png".
Proof. split; vm_compute; reflexivity. Qed.

(** A mesh without an active material stops the material writer before
    it has written anything, also when a later mesh has one. *)
Example bare_mesh_stops_materials :
  _write_materials [Cases.bare; Sample.body] Sample.opened
  = (Raise AttributeError, Sample.opened).
Proof. vm_compute. reflexivity. Qed.

(** With no file open, the texture writer copies the image and then
    raises [AttributeError] at the look-up of [write], before the format
    of the image is asked for. *)
Example unopened_texture_AttributeError :
  (fun out : result unit * State => (out.1, save_render_calls out.2.2))
    (_write_texture Sample.host
       (Some (Texture.mk "skin" "IMAGE" (Some Sample.linear_image) "REPEAT" 1 1))
       "UV" "FLAT" Sample.constructed)
  = (Raise AttributeError, [("/src/skin.png", "/out/textures/skin.png")]).
Proof. vm_compute. reflexivity. Qed.

(** A texture image in a color space other than sRGB stops the export. *)
Example linear_image_stops_export :
  fst (_write_texture Sample.host
         (Some (Texture.mk "skin" "IMAGE" (Some Sample.linear_image) "REPEAT" 1 1))
         "UV" "FLAT" Sample.exporting)
  = Raise NameError.
Proof. vm_compute. reflexivity. Qed.

(** The export of the sample scene returns, and the armature part of its
    document is the root joint at the origin, the child joint one unit
    along y, and one vertex reference with all three vertices. *)
Example sample_export_finishes :
  fst (produce_egg Sample.host Sample.constructed) = Return "FINISHED".
Proof. vm_compute. reflexivity. Qed.

Example sample_armature :
  (fun idx =>
     _egg_fp (_write_bone Sample.root_bone idx 0
                (set_egg_fp (Some EmptyString) Sample.blank, Sample.world)).2.1)
    <$> (match _meshes_to_weight_dict Sample.human Sample.objects 4 with
         | Return idx => Some idx
         | Raise _ => None
         end)
  = Some (Some (
      "<Joint> root {" +:+ nl +:+
      "  <Transform> {" +:+ nl +:+
      "    <Translate> {  0.00000 0.00000 0.00000 }" +:+ nl +:+
      "  }" +:+ nl +:+
      "  <Joint> child_L {" +:+ nl +:+
      "    <Transform> {" +:+ nl +:+
      "      <Translate> {  0.00000 1.00000 0.00000 }" +:+ nl +:+
      "    }" +:+ nl +:+
      "    <VertexRef> {" +:+ nl +:+
      "      0 1 2 " +:+ nl +:+
      "      <Scalar> membership { 1.0000 }" +:+ nl +:+
      "      <Ref> { Body_Mesh }" +:+ nl +:+
      "    }" +:+ nl +:+
      "  }" +:+ nl +:+
      "}" +:+ nl)).
Proof. vm_compute. reflexivity. Qed.

(** * Further properties of the exporter *)

(** ** The constructor *)

(** X1: when the texture folder is missing and cannot be created, the
    constructor raises [TypeError] (the [except] branch formats a string
    that has no conversion), prints nothing, and leaves the worker
    without a texture folder. *)
Theorem init_mkdir_failure host human weight_precision filepath use_rel_paths
    self w :
  path_exists host (tex_folder_of host filepath) = false ->
  mkdir_fails host (tex_folder_of host filepath) = true ->
  exists self',
    __init__ host human weight_precision filepath use_rel_paths (self, w)
    = (Raise TypeError, (self', w))
    /\ _tex_folder self' = None.
Proof.
  intros He Hm. unfold __init__, _setup_tex_folder, _get_sub_folder. mrun.
  fold (out_folder host filepath). fold (tex_folder_of host filepath).
  rewrite He, Hm. mrun. eexists. split; reflexivity.
Qed.

Lemma init_mkdir_failure_witness :
  exists self',
    __init__ Cases.failing_host Sample.human 4 "/out/my model.egg" true
             (Sample.blank, Sample.world)
    = (Raise TypeError, (self', Sample.world))
    /\ _tex_folder self' = None.
Proof.
  apply (init_mkdir_failure Cases.failing_host Sample.human 4 "/out/my model.egg" true
           Sample.blank Sample.world); reflexivity.
Defined.

(** The constructor, when the texture folder is there or can be made. *)
Lemma run_init host human weight_precision filepath use_rel_paths self w :
  path_exists host (tex_folder_of host filepath) = true
  \/ mkdir_fails host (tex_folder_of host filepath) = false ->
  __init__ host human weight_precision filepath use_rel_paths (self, w)
  = (Return tt,
     (new_worker host human weight_precision filepath,
      mkWorld (stdout w)
              (mkdir_calls w ++
               if path_exists host (tex_folder_of host filepath) then []
               else [tex_folder_of host filepath])
              (save_render_calls w) (closed_files w))).
Proof.
  intros H. unfold __init__, _setup_tex_folder, _get_sub_folder. mrun.
  fold (out_folder host filepath). fold (tex_folder_of host filepath).
  destruct (path_exists host (tex_folder_of host filepath)); mrun.
  - rewrite app_nil_r. destruct w; reflexivity.
  - destruct H as [H|H]; [discriminate|]. rewrite H. reflexivity.
Qed.

(** X2: in every other case the constructor returns, and leaves a
    worker for the output path: the output folder is what
    [os.path.realpath] gives on the host for the directory of the path,
    the texture folder is its [textures] sub-directory, the file name is the sanitized base name, nothing is
    registered as copied and no file is open.  The folder is created
    exactly when it was missing; nothing is printed, copied or closed. *)
Theorem init_texture_folder host human weight_precision filepath use_rel_paths
    self w :
  path_exists host (tex_folder_of host filepath) = true
  \/ mkdir_fails host (tex_folder_of host filepath) = false ->
  exists self' w',
    __init__ host human weight_precision filepath use_rel_paths (self, w)
    = (Return tt, (self', w'))
    /\ _outFolder self' = realpath host (posixpath.dirname filepath)
    /\ _tex_folder self' = Some (posixpath.join (_outFolder self') "textures")
    /\ _filename self' = good_file_name filepath
    /\ _human self' = human
    /\ _vertex_weight_precision self' = weight_precision
    /\ _copied_files self' = ∅ /\ _egg_fp self' = None
    /\ mkdir_calls w' =
       mkdir_calls w ++
       (if path_exists host (tex_folder_of host filepath) then []
        else [tex_folder_of host filepath])
    /\ stdout w' = stdout w /\ save_render_calls w' = save_render_calls w
    /\ closed_files w' = closed_files w.
Proof.
  intros H. eexists _, _. split; [apply run_init; exact H|].
  repeat split.
Qed.

Lemma init_texture_folder_witness :
  exists self' w',
    __init__ Sample.host Sample.human 4 "//out/my model.egg" false
             (Sample.blank, Sample.world)
    = (Return tt, (self', w'))
    /\ _outFolder self' = "/out"
    /\ _tex_folder self' = Some (posixpath.join (_outFolder self') "textures")
    /\ _filename self' = good_file_name "//out/my model.egg"
    /\ _human self' = Sample.human
    /\ _vertex_weight_precision self' = 4%nat
    /\ _copied_files self' = ∅ /\ _egg_fp self' = None
    /\ mkdir_calls w' = [] ++ ["/out/textures"]
    /\ stdout w' = [] /\ save_render_calls w' = []
    /\ closed_files w' = [].
Proof.
  apply (init_texture_folder Sample.host Sample.human 4 "//out/my model.egg"
           false Sample.blank Sample.world).
  right. reflexivity.
Defined.

(** ** Texture relocation, when a copy fails or two images share a name *)

(** X3: a failed [save_render] is not an error of the request: the
    diagnostic is printed, the source path is registered all the same and
    the reference is returned; a later request for the same image then
    returns the same reference without trying the copy again. *)
Theorem failed_copy_not_retried host image self w tex_folder :
  _tex_folder self = Some tex_folder ->
  _copied_files self !! Image.filepath image = None ->
  save_render_fails host (Image.filepath image)
                    (destination host tex_folder image) = true ->
  exists st1,
    _copy_texture_to_new_location host image (self, w)
    = (Return (reference host self tex_folder image), st1)
    /\ stdout st1.2 =
       stdout w ++ [copy_diagnostic (Image.filepath image)
                                    (destination host tex_folder image)]
    /\ save_render_calls st1.2 =
       save_render_calls w
       ++ [(Image.filepath image, destination host tex_folder image)]
    /\ _copied_files st1.1 !! Image.filepath image = Some true
    /\ _copy_texture_to_new_location host image st1
       = (Return (reference host self tex_folder image), st1).
Proof.
  intros Htf Hnew Hfail. eexists. split.
  { apply copy_texture_first; eassumption. }
  unfold log_save_render. rewrite Hfail. cbn [snd fst stdout save_render_calls].
  split; [reflexivity|]. split; [reflexivity|].
  assert (Hreg : _copied_files
            (set_copied_files
               (<[Image.filepath image := true]> (_copied_files self)) self)
            !! Image.filepath image = Some true)
    by (destruct self; simpl; apply lookup_insert_eq).
  split; [exact Hreg|].
  erewrite copy_texture_again;
    [|destruct self; exact Htf|exact Hreg].
  unfold reference. destruct self; reflexivity.
Qed.

Lemma failed_copy_not_retried_witness :
  exists st1,
    _copy_texture_to_new_location Cases.failing_host Sample.image
      (Cases.worker, Sample.world)
    = (Return (reference Cases.failing_host Cases.worker "/out/textures" Sample.image),
       st1)
    /\ stdout st1.2 =
       [] ++ [copy_diagnostic "/src/skin.png"
                (destination Cases.failing_host "/out/textures" Sample.image)]
    /\ save_render_calls st1.2 =
       [] ++ [("/src/skin.png",
               destination Cases.failing_host "/out/textures" Sample.image)]
    /\ _copied_files st1.1 !! "/src/skin.png" = Some true
    /\ _copy_texture_to_new_location Cases.failing_host Sample.image st1
       = (Return (reference Cases.failing_host Cases.worker "/out/textures" Sample.image),
          st1).
Proof.
  apply (failed_copy_not_retried Cases.failing_host Sample.image Cases.worker
           Sample.world "/out/textures"); vm_compute; reflexivity.
Defined.

(** X4: the destination of an image is made of its base name only, and
    the registry is keyed by the whole source path.  Two images with
    different paths and the same base name are therefore both copied, to
    the same destination, and get the same reference and the same texture
    name. *)
Theorem same_basename_same_destination host a b self w tex_folder :
  _tex_folder self = Some tex_folder ->
  posixpath.basename (Image.filepath a) = posixpath.basename (Image.filepath b) ->
  Image.filepath a <> Image.filepath b ->
  _copied_files self !! Image.filepath a = None ->
  _copied_files self !! Image.filepath b = None ->
  exists path dst st1 st2,
    _copy_texture_to_new_location host a (self, w) = (Return path, st1)
    /\ _copy_texture_to_new_location host b st1 = (Return path, st2)
    /\ save_render_calls st2.2 =
       save_render_calls w ++ [(Image.filepath a, dst); (Image.filepath b, dst)]
    /\ good_texture_name (Image.filepath a) = good_texture_name (Image.filepath b).
Proof.
  intros Htf Hbase Hne Ha Hb.
  pose proof (copy_texture_first host a self w tex_folder Htf Ha) as H1.
  set (self1 := set_copied_files
                  (<[Image.filepath a := true]> (_copied_files self)) self) in *.
  set (w1 := log_save_render host (Image.filepath a)
                             (destination host tex_folder a) w) in *.
  assert (Htf1 : _tex_folder self1 = Some tex_folder)
    by (destruct self; exact Htf).
  assert (Hb1 : _copied_files self1 !! Image.filepath b = None).
  { subst self1. destruct self; simpl in *.
    rewrite lookup_insert_ne by exact Hne. exact Hb. }
  pose proof (copy_texture_first host b self1 w1 tex_folder Htf1 Hb1) as H2.
  assert (Hdst : destination host tex_folder b = destination host tex_folder a)
    by (unfold destination; rewrite Hbase; reflexivity).
  exists (reference host self tex_folder a), (destination host tex_folder a).
  eexists _, _. split; [exact H1|]. split.
  - rewrite H2. f_equal. f_equal. unfold reference. rewrite Hdst.
    subst self1. destruct self; reflexivity.
  - split.
    + cbn [snd]. unfold log_save_render at 1. cbn [save_render_calls].
      subst w1. unfold log_save_render. cbn [save_render_calls].
      rewrite Hdst, <- app_assoc. reflexivity.
    + unfold good_texture_name. rewrite Hbase. reflexivity.
Qed.

Lemma same_basename_same_destination_witness :
  exists path dst st1 st2,
    _copy_texture_to_new_location Sample.host Sample.image
      (Cases.worker, Sample.world) = (Return path, st1)
    /\ _copy_texture_to_new_location Sample.host Cases.other_skin st1
       = (Return path, st2)
    /\ save_render_calls st2.2 =
       [] ++ [("/src/skin.png", dst); ("/lib/skin.png", dst)]
    /\ good_texture_name "/src/skin.png" = good_texture_name "/lib/skin.png".
Proof.
  apply (same_basename_same_destination Sample.host Sample.image
           Cases.other_skin Cases.worker Sample.world "/out/textures");
    [reflexivity|reflexivity|discriminate|reflexivity|reflexivity].
Defined.

(** ** An output file that cannot be opened *)

(** X5: when the output file cannot be opened, [produce_egg] prints
    that it is unable to open it, goes on with no file, and the first
    [write] raises [AttributeError]; [Done.] is still printed, nothing is
    copied or closed, and the exception reaches the caller. *)
Theorem produce_egg_unopened host self w :
  open_fails host (_filepath self) = true ->
  produce_egg host (self, w)
  = (Raise AttributeError,
     (set_egg_fp None self,
      printed ["Unable to open file for writing " +:+ _filepath self; "Done."] w)).
Proof.
  intros H. unfold produce_egg, try_finally, close_egg_fp.
  cbv beta iota zeta delta [mbind M_bind get_self fst]. rewrite H.
  mrun. unfold printed. rewrite <- app_assoc. reflexivity.
Qed.

Lemma produce_egg_unopened_witness :
  produce_egg Cases.failing_host (Cases.worker, Sample.world)
  = (Raise AttributeError,
     (set_egg_fp None Cases.worker,
      printed ["Unable to open file for writing /out/my model.egg"; "Done."]
              Sample.world)).
Proof.
  apply (produce_egg_unopened Cases.failing_host Cases.worker Sample.world).
  reflexivity.
Defined.

(** ** A mesh without an active material *)

(** X6: the material writer stops at the first mesh that has no active
    material: it raises [AttributeError], and the records of the meshes
    before it are already in the file. *)
Theorem write_materials_stops_at_missing before bad after mats self w buf :
  _egg_fp self = Some buf ->
  Object.active_material <$> before = Some <$> mats ->
  Object.active_material bad = None ->
  _write_materials (before ++ bad :: after) (self, w)
  = (Raise AttributeError,
     (set_egg_fp (Some (buf +:+ material_records mats)) self, w)).
Proof. apply run_write_materials_missing. Qed.

Lemma write_materials_stops_at_missing_witness :
  _write_materials ([Sample.body] ++ Cases.bare :: [Sample.body])
                   Sample.opened
  = (Raise AttributeError,
     (set_egg_fp (Some (EmptyString +:+ material_records [Sample.material]))
                 (Sample.opened).1, Sample.world)).
Proof.
  apply (write_materials_stops_at_missing [Sample.body] Cases.bare
           [Sample.body] [Sample.material] (Sample.opened).1 Sample.world
           EmptyString); reflexivity.
Defined.

(** ** Texture records *)

(** X7: for a supported ([sRGB]) image that was not copied yet, with
    the file open, [_write_texture] copies the image, registers it and
    appends one record: the texture name, the reference, the format
    [RGB] or [RGBA], and for each of the two wrap fields [repeat], or the
    text [None] when the texture does not simply repeat; the type is [2d]
    or [undefined].  Unsupported wrap and type values do not stop it. *)
Theorem write_texture_record host texture image texture_coords mapping
    self w tex_folder buf :
  Texture.image texture = Some image ->
  Image.colorspace_settings_name image = "sRGB" ->
  _tex_folder self = Some tex_folder ->
  _egg_fp self = Some buf ->
  _copied_files self !! Image.filepath image = None ->
  exists st',
    _write_texture host (Some texture) texture_coords mapping (self, w)
    = (Return tt, st')
    /\ _egg_fp st'.1 =
       Some (buf +:+ texture_record texture image
                       (reference host self tex_folder image)
                       texture_coords mapping)
    /\ _copied_files st'.1 = <[Image.filepath image := true]> (_copied_files self)
    /\ save_render_calls st'.2 =
       save_render_calls w
       ++ [(Image.filepath image, destination host tex_folder image)].
Proof.
  intros Himage Hcs Htf Hopen Hnew. unfold _write_texture. rewrite Himage.
  rewrite run_bind, (copy_texture_first host image self w tex_folder Htf Hnew).
  cbv beta iota.
  unfold _get_image_format, _get_texture_wrap_u, _get_texture_wrap_v,
    _get_texture_type, texture_record, format_of, wrap_of, type_of.
  rewrite Hcs. change ("sRGB" =? "sRGB")%string with true. cbv iota.
  destruct (Image.use_alpha image),
    (String.eqb (Texture.extension texture) "REPEAT"),
    (Z.eqb (Texture.repeat_x texture) 1), (Z.eqb (Texture.repeat_y texture) 1),
    (String.eqb texture_coords "UV"), (String.eqb mapping "FLAT");
    cbn [andb]; destruct self; simpl in Hopen; subst; mrun;
    (eexists; split; [reflexivity|]); simpl; auto.
Qed.

Lemma write_texture_record_witness :
  exists st',
    _write_texture Sample.host (Some Cases.clamped) "ORCO" "FLAT"
                   (Cases.writing, Sample.world)
    = (Return tt, st')
    /\ _egg_fp st'.1 =
       Some (EmptyString +:+
             texture_record Cases.clamped Sample.eyes
               (reference Sample.host Cases.writing "/out/textures" Sample.eyes)
               "ORCO" "FLAT")
    /\ _copied_files st'.1 = <["/src/eyes.png" := true]> ∅
    /\ save_render_calls st'.2 =
       [] ++ [("/src/eyes.png",
               destination Sample.host "/out/textures" Sample.eyes)].
Proof.
  apply (write_texture_record Sample.host Cases.clamped Sample.eyes "ORCO" "FLAT"
           Cases.writing Sample.world "/out/textures" EmptyString);
    reflexivity.
Defined.

Example clamped_texture_record :
  texture_record Cases.clamped Sample.eyes "textures/eyes.png" "ORCO" "FLAT"
  = "<Texture> eyes_png {" +:+ nl
    +:+ "  " +:+ dquote +:+ "textures/eyes.png" +:+ dquote +:+ nl
    +:+ "  <Scalar> format { RGB }" +:+ nl
    +:+ "  <Scalar> wrapu { None }" +:+ nl
    +:+ "  <Scalar> wrapv { None }" +:+ nl
    +:+ "  <Scalar> type { undefined }" +:+ nl
    +:+ "}" +:+ nl +:+ nl.
Proof. vm_compute. reflexivity. Qed.

(** ** What the writers leave alone *)

Section Keeps.

Variable R : State -> State -> Prop.
Hypothesis R_refl : forall st, R st st.
Hypothesis R_trans : forall st1 st2 st3, R st1 st2 -> R st2 st3 -> R st1 st3.

Lemma keeps_ret {A} (a : A) : keeps R (mret a).
Proof. intros st. apply R_refl. Qed.

Lemma keeps_lift {A} (r : result A) : keeps R (lift r).
Proof. intros st. apply R_refl. Qed.

Lemma keeps_raise {A} e : keeps R (raise e : M A).
Proof. intros st. apply R_refl. Qed.

Lemma keeps_get_self : keeps R get_self.
Proof. intros st. apply R_refl. Qed.

Lemma keeps_bind {A B} (c : M A) (f : A -> M B) :
  keeps R c -> (forall a, keeps R (f a)) -> keeps R (c ≫= f).
Proof.
  intros Hc Hf st. rewrite run_bind. specialize (Hc st).
  destruct (c st) as [[a|e] st']; simpl in *; [|exact Hc].
  eapply R_trans; [exact Hc|apply Hf].
Qed.

Lemma keeps_try_except {A} (c handler : M A) :
  keeps R c -> keeps R handler -> keeps R (try_except c handler).
Proof.
  intros Hc Hh st. unfold try_except. specialize (Hc st).
  destruct (c st) as [[a|e] st']; simpl in *; [exact Hc|].
  eapply R_trans; [exact Hc|apply Hh].
Qed.

Lemma keeps_for_each {A} (l : list A) (body : A -> M unit) :
  (forall a, keeps R (body a)) -> keeps R (for_each l body).
Proof.
  intros Hb. induction l as [|a l IH]; simpl; [apply keeps_ret|].
  apply keeps_bind; [apply Hb|intros _; exact IH].
Qed.

Hypothesis R_write : forall text, keeps R (write text).

Ltac keeps_step :=
  first [ assumption |
  lazymatch goal with
  | |- keeps R (_ ≫= _) => apply keeps_bind; [|intros ?]
  | |- keeps R (mret _) => apply keeps_ret
  | |- keeps R (write _) => apply R_write
  | |- keeps R (lift _) => apply keeps_lift
  | |- keeps R (raise _) => apply keeps_raise
  | |- keeps R get_self => apply keeps_get_self
  | |- keeps R (for_each _ _) => apply keeps_for_each; intros ?
  | |- keeps R (try_except _ _) => apply keeps_try_except
  | |- keeps R (if ?b then _ else _) => destruct b
  | |- keeps R (match ?x with _ => _ end) => destruct x
  end ].

Lemma keeps_write_materials rmeshes : keeps R (_write_materials rmeshes).
Proof. unfold _write_materials. repeat keeps_step. Qed.

Lemma keeps_write_bone_translation bone indent_level :
  keeps R (_write_bone_translation bone indent_level).
Proof. unfold _write_bone_translation. repeat keeps_step. Qed.

Lemma keeps_write_bone_vertex_ref meshes_weights indent_level :
  keeps R (_write_bone_vertex_ref meshes_weights indent_level).
Proof. unfold _write_bone_vertex_ref. repeat keeps_step. Qed.

Lemma keeps_write_bone bones_weights bone : forall indent_level,
  keeps R (_write_bone bone bones_weights indent_level).
Proof.
  induction bone as [name head_local parent children IH]
    using Bone_ind_children.
  intros indent_level. simpl.
  apply keeps_bind; [apply R_write|intros _].
  apply keeps_bind; [apply keeps_write_bone_translation|intros _].
  apply keeps_bind; [apply R_write|intros _].
  apply keeps_bind.
  - induction IH as [|child children Hchild _ IHc]; [apply keeps_ret|].
    apply keeps_bind; [apply Hchild|intros _; exact IHc].
  - intros _. apply keeps_bind; [apply keeps_lift|intros ?].
    apply keeps_bind; [apply keeps_write_bone_vertex_ref|intros _].
    apply R_write.
Qed.

Lemma keeps_write_armature host meshes name indent_level :
  keeps R (_write_armature host meshes name indent_level).
Proof.
  unfold _write_armature.
  repeat first [apply keeps_write_bone | keeps_step].
Qed.

Lemma keeps_write_vertex vertex indent_level bvertex uv_layer mesh
    group_names weights :
  keeps R (_write_vertex vertex indent_level bvertex uv_layer mesh
                         group_names weights).
Proof. unfold _write_vertex. repeat keeps_step. Qed.

Lemma keeps_write_vertexPool mesh_obj indent_level :
  keeps R (_write_vertexPool mesh_obj indent_level).
Proof.
  unfold _write_vertexPool.
  destruct (_mesh_to_weight_dict mesh_obj) as [group_names weight_dict].
  repeat first [apply keeps_write_vertex | keeps_step].
Qed.

Lemma keeps_write_polygons mesh indent_level :
  keeps R (_write_polygons mesh indent_level).
Proof. unfold _write_polygons. repeat keeps_step. Qed.

Lemma keeps_write_mesh_object mesh_obj indent_level :
  keeps R (_write_mesh_object mesh_obj indent_level).
Proof.
  unfold _write_mesh_object.
  repeat first [apply keeps_write_vertexPool | apply keeps_write_polygons
               | keeps_step].
Qed.

Lemma keeps_write_groups host meshes name :
  keeps R (_write_groups host meshes name).
Proof.
  unfold _write_groups.
  repeat first [apply keeps_write_mesh_object | apply keeps_write_armature
               | keeps_step].
Qed.

Hypothesis R_print : forall line, keeps R (print line).

Variable host : Host.
Hypothesis R_copy :
  forall image, keeps R (_copy_texture_to_new_location host image).

Lemma keeps_get_image_format image : keeps R (_get_image_format image).
Proof.
  unfold _get_image_format.
  repeat first [apply R_print | keeps_step].
Qed.

Lemma keeps_write_texture texture texture_coords mapping :
  keeps R (_write_texture host texture texture_coords mapping).
Proof.
  unfold _write_texture, _get_texture_wrap_u, _get_texture_wrap_v,
    _get_texture_type.
  destruct texture as [texture|]; [|apply keeps_ret].
  destruct (Texture.image texture) as [image|]; [|apply keeps_ret].
  apply keeps_bind; [apply R_copy|intros ?].
  apply keeps_bind; [apply keeps_get_self|intros ?].
  apply keeps_bind; [apply keeps_lift|intros ?].
  apply keeps_bind; [apply keeps_get_image_format|intros ?].
  repeat first [apply R_print | keeps_step].
Qed.

Lemma keeps_write_textures rmeshes : keeps R (_write_textures host rmeshes).
Proof.
  unfold _write_textures.
  repeat first [apply keeps_write_texture | keeps_step].
Qed.

End Keeps.

(** A request either changes nothing, or makes one [save_render] call
    for a path that was not registered and registers it. *)
Lemma copy_texture_cases host image st :
  (_copy_texture_to_new_location host image st).2 = st
  \/ exists tex_folder,
       _tex_folder st.1 = Some tex_folder
       /\ _copied_files st.1 !! Image.filepath image = None
       /\ (_copy_texture_to_new_location host image st).2
          = (set_copied_files
               (<[Image.filepath image := true]> (_copied_files st.1)) st.1,
             log_save_render host (Image.filepath image)
                             (destination host tex_folder image) st.2).
Proof.
  destruct st as [self w].
  destruct (_tex_folder self) as [tex_folder|] eqn:Htf.
  - destruct (_copied_files self !! Image.filepath image) as [done|] eqn:Hc.
    + left. erewrite copy_texture_again by eassumption. reflexivity.
    + right. exists tex_folder. split; [exact Htf|]. split; [exact Hc|].
      erewrite copy_texture_first by eassumption. reflexivity.
  - left. unfold _copy_texture_to_new_location. rewrite run_bind.
    change (get_self (self, w)) with (Return self, (self, w)).
    cbv beta iota. rewrite run_bind. rewrite Htf. reflexivity.
Qed.

Lemma same_config_refl s : same_config s s.
Proof. unfold same_config. tauto. Qed.

Lemma same_config_trans s1 s2 s3 :
  same_config s1 s2 -> same_config s2 s3 -> same_config s1 s3.
Proof. unfold same_config. intuition congruence. Qed.

Lemma same_config_egg_fp fp s : same_config s (set_egg_fp fp s).
Proof. destruct s. unfold same_config. simpl. tauto. Qed.

Lemma same_config_copied_files d s : same_config s (set_copied_files d s).
Proof. destruct s. unfold same_config. simpl. tauto. Qed.

Lemma write_state text st :
  (write text st).2
  = (set_egg_fp ((fun buf => buf +:+ text) <$> _egg_fp st.1) st.1, st.2).
Proof.
  destruct st as [self w]. destruct (_egg_fp self) as [buf|] eqn:E.
  - rewrite (run_write _ _ _ _ E). simpl. rewrite E. reflexivity.
  - rewrite (run_write_closed _ _ _ E). simpl. rewrite E.
    destruct self; simpl in *. subst. reflexivity.
Qed.

(** *** Nothing but text *)

Lemma only_appends_refl st : only_appends st st.
Proof.
  split; [reflexivity|]. split; [apply same_config_refl|].
  split; [reflexivity|apply extends_refl].
Qed.

Lemma only_appends_trans st1 st2 st3 :
  only_appends st1 st2 -> only_appends st2 st3 -> only_appends st1 st3.
Proof.
  intros (Hw1 & Hc1 & Hf1 & He1) (Hw2 & Hc2 & Hf2 & He2).
  split; [congruence|]. split; [eapply same_config_trans; eassumption|].
  split; [congruence|eapply extends_trans; eassumption].
Qed.

Lemma only_appends_write text : keeps only_appends (write text).
Proof.
  intros st. split; [rewrite write_state; reflexivity|].
  split; [rewrite write_state; apply same_config_egg_fp|].
  split; [rewrite write_state; destruct st as [[] ?]; reflexivity|].
  apply appends_write.
Qed.

(** X8: the material writer and the geometry writer (with the vertex
    pools, the polygons and the armature below it) have one effect only,
    whether they return or raise: text is appended to the output file.
    Nothing is printed, copied, created or closed, and no other field of
    the worker changes. *)
Theorem geometry_only_appends host meshes name :
  keeps only_appends (_write_materials meshes)
  /\ keeps only_appends (_write_groups host meshes name).
Proof.
  split.
  - apply keeps_write_materials;
      [apply only_appends_refl|apply only_appends_trans|apply only_appends_write].
  - apply keeps_write_groups;
      [apply only_appends_refl|apply only_appends_trans|apply only_appends_write].
Qed.

(** *** The export goes on *)

Lemma went_on_refl st : went_on st st.
Proof.
  split; [apply same_config_refl|]. split; [apply extends_refl|].
  split; [reflexivity|]. split; [reflexivity|].
  exists []. rewrite app_nil_r. reflexivity.
Qed.

Lemma went_on_trans st1 st2 st3 :
  went_on st1 st2 -> went_on st2 st3 -> went_on st1 st3.
Proof.
  intros (Hc1 & He1 & Hm1 & Hf1 & l1 & Hl1) (Hc2 & He2 & Hm2 & Hf2 & l2 & Hl2).
  split; [eapply same_config_trans; eassumption|].
  split; [eapply extends_trans; eassumption|].
  split; [congruence|]. split; [congruence|].
  exists (l1 ++ l2). rewrite Hl2, Hl1, app_assoc. reflexivity.
Qed.

Lemma went_on_write text : keeps went_on (write text).
Proof.
  intros st. split; [rewrite write_state; apply same_config_egg_fp|].
  split; [apply appends_write|].
  rewrite write_state. split; [reflexivity|]. split; [reflexivity|].
  exists []. rewrite app_nil_r. reflexivity.
Qed.

Lemma went_on_print line : keeps went_on (print line).
Proof.
  intros [self w]. split; [apply same_config_refl|].
  split; [apply extends_same; reflexivity|].
  split; [reflexivity|]. split; [reflexivity|]. exists [line]. reflexivity.
Qed.

Lemma went_on_copy host image :
  keeps went_on (_copy_texture_to_new_location host image).
Proof.
  intros st.
  destruct (copy_texture_cases host image st) as [->|(tf & _ & _ & ->)];
    [apply went_on_refl|].
  split; [apply same_config_copied_files|].
  split; [apply extends_same; destruct st as [[] ?]; reflexivity|].
  split; [reflexivity|]. split; [reflexivity|].
  unfold log_save_render. cbn [snd stdout].
  destruct (save_render_fails host _ _); [eexists; reflexivity|].
  exists []. rewrite app_nil_r. reflexivity.
Qed.

(** *** One copy for each source path *)

Lemma copies_once_same host st st' :
  _tex_folder st'.1 = _tex_folder st.1 ->
  _copied_files st'.1 = _copied_files st.1 ->
  save_render_calls st'.2 = save_render_calls st.2 ->
  copies_once host st st'.
Proof.
  intros Htf Hc Hs. split; [exact Htf|]. exists [].
  rewrite app_nil_r. split; [exact Hs|]. split; [constructor|].
  split; [|split].
  - intros src. rewrite Hc. split; [auto|]. intros [H|H]; [exact H|inversion H].
  - intros src H. inversion H.
  - intros src dst H. inversion H.
Qed.

Lemma copies_once_refl host st : copies_once host st st.
Proof. apply copies_once_same; reflexivity. Qed.

Lemma copies_once_trans host st1 st2 st3 :
  copies_once host st1 st2 -> copies_once host st2 st3 ->
  copies_once host st1 st3.
Proof.
  intros (Htf1 & c1 & Hs1 & Hn1 & Hr1 & Hnew1 & Hd1)
         (Htf2 & c2 & Hs2 & Hn2 & Hr2 & Hnew2 & Hd2).
  split; [congruence|]. exists (c1 ++ c2).
  split; [rewrite Hs2, Hs1, app_assoc; reflexivity|].
  rewrite fmap_app. split; [|split; [|split]].
  - apply NoDup_app. split; [exact Hn1|]. split; [|exact Hn2].
    intros src H1 H2. apply Hnew2 in H2.
    assert (H : is_Some (_copied_files st2.1 !! src)) by (apply Hr1; auto).
    rewrite H2 in H. destruct H; discriminate.
  - intros src. rewrite Hr2, Hr1, elem_of_app. tauto.
  - intros src [H|H]%elem_of_app; [apply Hnew1; exact H|].
    apply Hnew2 in H.
    destruct (_copied_files st1.1 !! src) eqn:E; [|reflexivity].
    assert (H' : is_Some (_copied_files st2.1 !! src)) by (apply Hr1; eauto).
    rewrite H in H'. destruct H'; discriminate.
  - intros src dst [H|H]%elem_of_app; [apply Hd1; exact H|].
    rewrite <- Htf1. apply Hd2. exact H.
Qed.

Lemma copies_once_write host text : keeps (copies_once host) (write text).
Proof.
  intros st. rewrite write_state.
  apply copies_once_same; destruct st as [[] ?]; reflexivity.
Qed.

Lemma copies_once_print host line : keeps (copies_once host) (print line).
Proof. intros [self w]. apply copies_once_same; reflexivity. Qed.

Lemma copies_once_copy host image :
  keeps (copies_once host) (_copy_texture_to_new_location host image).
Proof.
  intros st.
  destruct (copy_texture_cases host image st) as [->|(tf & Htf & Hnew & ->)];
    [apply copies_once_refl|].
  split; [destruct st as [[] ?]; reflexivity|].
  exists [(Image.filepath image, destination host tf image)].
  change ([(Image.filepath image, destination host tf image)].*1)
    with [Image.filepath image].
  split; [reflexivity|]. split; [apply NoDup_singleton|].
  split; [|split].
  - intros src. rewrite list_elem_of_singleton.
    assert (E : _copied_files
              (set_copied_files
                 (<[Image.filepath image := true]> (_copied_files st.1)) st.1)
            = <[Image.filepath image := true]> (_copied_files st.1))
      by (destruct st as [[] ?]; reflexivity).
    cbn [fst]. rewrite E.
    destruct (decide (src = Image.filepath image)) as [->|Hne].
    + rewrite lookup_insert_eq. split; eauto.
    + rewrite lookup_insert_ne by congruence. split; [auto|].
      intros [H|H]; [exact H|contradiction].
  - intros src ->%list_elem_of_singleton. exact Hnew.
  - intros src dst [= -> ->]%list_elem_of_singleton.
    exists tf. split; [exact Htf|reflexivity].
Qed.

(** ** The export as a whole *)

Lemma keeps_after_header (R : State -> State -> Prop) host self :
  (forall st, R st st) ->
  (forall st1 st2 st3, R st1 st2 -> R st2 st3 -> R st1 st3) ->
  (forall text, keeps R (write text)) ->
  (forall line, keeps R (print line)) ->
  (forall image, keeps R (_copy_texture_to_new_location host image)) ->
  keeps R (after_header host self).
Proof.
  intros Hrefl Htrans Hwrite Hprint Hcopy. unfold after_header.
  apply keeps_bind; [exact Htrans|apply Hprint|intros _].
  apply keeps_bind; [exact Htrans|apply keeps_write_textures; assumption|intros _].
  apply keeps_bind; [exact Htrans|apply Hprint|intros _].
  apply keeps_bind; [exact Htrans|apply keeps_write_materials; assumption|intros _].
  apply keeps_bind; [exact Htrans|apply Hprint|intros _].
  apply keeps_write_groups; assumption.
Qed.

(** X9: when the output file can be opened, [produce_egg] closes it
    exactly once however the export ends, by returning or by an
    exception of any writer.  The closed file begins with the header, its
    text is the text the worker holds, [Done.] is the last line printed,
    no directory is created, and the configuration of the worker is the
    one it started with. *)
Theorem produce_egg_closes host self w :
  open_fails host (_filepath self) = false ->
  let st' := (produce_egg host (self, w)).2 in
  exists text lines,
    _egg_fp st'.1 = Some (header host self +:+ text)
    /\ closed_files st'.2 =
       closed_files w ++ [(_filepath self, header host self +:+ text)]
    /\ stdout st'.2 =
       (stdout w ++ ["Writing Egg file " +:+ _filepath self]) ++ lines ++ ["Done."]
    /\ mkdir_calls st'.2 = mkdir_calls w
    /\ same_config self st'.1.
Proof.
  intros H st'. subst st'. rewrite (produce_egg_opened host self w H).
  match goal with |- context [after_header host self ?st] =>
    set (st0 := st);
    pose proof (keeps_after_header went_on host self went_on_refl went_on_trans
                  went_on_write went_on_print (went_on_copy host) st0)
      as (Hc & [text He] & Hm & Hf & lines & Hl) end.
  destruct (after_header host self st0) as [r st1]. cbn [snd] in *.
  assert (Hopen : _egg_fp st1.1 = Some (header host self +:+ text))
    by (rewrite He; subst st0; destruct self; reflexivity).
  rewrite (run_finally _ _ Hopen). exists text, lines. cbn [snd fst].
  assert (Hc' : same_config self st1.1).
  { eapply same_config_trans; [|exact Hc]. apply same_config_egg_fp. }
  split; [exact Hopen|]. split; [|split; [|split]].
  - cbn [closed_with snd fst closed_files]. rewrite Hf.
    destruct Hc' as (_ & _ & _ & _ & _ & _ & -> & _). reflexivity.
  - cbn [closed_with snd stdout]. rewrite Hl, <- app_assoc. reflexivity.
  - cbn [closed_with snd mkdir_calls]. rewrite Hm. reflexivity.
  - exact Hc'.
Qed.

Lemma produce_egg_closes_witness :
  exists text lines,
    _egg_fp (produce_egg Sample.host Sample.constructed).2.1
    = Some (header Sample.host (Sample.constructed).1 +:+ text)
    /\ closed_files (produce_egg Sample.host Sample.constructed).2.2 =
       [] ++ [("/out/my model.egg",
               header Sample.host (Sample.constructed).1 +:+ text)]
    /\ stdout (produce_egg Sample.host Sample.constructed).2.2 =
       ([] ++ ["Writing Egg file /out/my model.egg"]) ++ lines ++ ["Done."]
    /\ mkdir_calls (produce_egg Sample.host Sample.constructed).2.2
       = ["/out/textures"]
    /\ same_config (Sample.constructed).1
                   (produce_egg Sample.host Sample.constructed).2.1.
Proof.
  apply (produce_egg_closes Sample.host (Sample.constructed).1
           (Sample.constructed).2).
  reflexivity.
Defined.

(** X10: over a whole export, however it ends, [save_render] is called
    at most once for each source path, only for paths that were not
    registered as copied before, and every call writes into the texture
    folder under the base name of its source; afterwards exactly the
    paths registered before and the paths copied are registered. *)
Theorem export_copies_once host :
  keeps (copies_once host) (produce_egg host).
Proof.
  intros [self w].
  destruct (open_fails host (_filepath self)) eqn:H.
  - unfold produce_egg, try_finally, close_egg_fp.
    cbv beta iota zeta delta [mbind M_bind get_self fst]. rewrite H.
    destruct self. apply copies_once_same; reflexivity.
  - rewrite (produce_egg_opened host self w H).
    match goal with |- context [after_header host self ?st] =>
      set (st0 := st);
      pose proof (keeps_after_header (copies_once host) host self
                    (copies_once_refl host) (copies_once_trans host)
                    (copies_once_write host) (copies_once_print host)
                    (copies_once_copy host) st0) as Hk;
      pose proof (keeps_after_header went_on host self went_on_refl
                    went_on_trans went_on_write went_on_print
                    (went_on_copy host) st0) as (_ & [text He] & _) end.
    destruct (after_header host self st0) as [r st1]. cbn [snd] in *.
    assert (Hopen : _egg_fp st1.1 = Some (header host self +:+ text))
      by (rewrite He; subst st0; destruct self; reflexivity).
    rewrite (run_finally _ _ Hopen). cbn [snd].
    eapply copies_once_trans; [|eapply copies_once_trans; [exact Hk|]].
    + apply copies_once_same; subst st0; destruct self; reflexivity.
    + apply copies_once_same; reflexivity.
Qed.

(** ** The shape of a mesh's weight dictionary *)

Section WeightDictShape.

Variable tot : nat.

Lemma entry_foldl_from l : forall wd v g w,
  entry (foldl (set_weight tot) wd l) v g = Some w ->
  entry wd v g = Some w \/ ((v, g, w) ∈ l /\ (g < tot)%nat).
Proof.
  induction l as [|t l IH]; intros wd v g w H; [left; exact H|].
  simpl in H. apply IH in H as [H|[H Hlt]].
  - rewrite entry_set_weight in H.
    destruct (decide (t.1.2 < tot /\ key t = (v, g))%nat) as [[Hlt Hk]|_];
      [|left; exact H].
    right. destruct t as [[v0 g0] w0]. unfold key in Hk. simpl in *.
    injection Hk as -> ->. injection H as ->. split; [left|exact Hlt].
  - right. split; [right; exact H|exact Hlt].
Qed.

Lemma entry_foldl_some l : forall wd v g,
  is_Some (entry wd v g) \/ (exists w, (v, g, w) ∈ l /\ (g < tot)%nat) ->
  is_Some (entry (foldl (set_weight tot) wd l) v g).
Proof.
  induction l as [|t l IH]; intros wd v g H.
  - destruct H as [H|(w & H & _)]; [exact H|inversion H].
  - simpl. apply IH.
    destruct H as [H|(w & [<-|H]%elem_of_cons & Hlt)].
    + left. rewrite entry_set_weight. destruct (decide _); eauto.
    + left. rewrite entry_set_weight, decide_True by (split; [exact Hlt|reflexivity]).
      eauto.
    + right. eauto.
Qed.

Lemma inner_nonempty_foldl l : forall wd,
  (forall v d, wd !! v = Some d -> d <> ∅) ->
  forall v d, foldl (set_weight tot) wd l !! v = Some d -> d <> ∅.
Proof.
  induction l as [|t l IH]; intros wd H; [exact H|].
  simpl. apply IH. intros v d. unfold set_weight.
  destruct (Nat.ltb t.1.2 tot); [|apply H].
  destruct (decide (t.1.1 = v)) as [->|Hne].
  - rewrite olookup_insert_eq. intros [= <-]. apply oinsert_non_empty.
  - rewrite olookup_insert_ne by exact Hne. apply H.
Qed.

End WeightDictShape.

(** Every entry of the dictionary is a triple of the mesh with a group
    index in range, and every such triple has an entry. *)
Lemma entry_from_triple mesh_obj v g w :
  entry (_mesh_to_weight_dict mesh_obj).2 v g = Some w ->
  (g < length (group_names_of mesh_obj))%nat
  /\ (v, g, w) ∈ weight_triples mesh_obj.
Proof.
  rewrite mesh_to_weight_dict_fold. intros H.
  apply entry_foldl_from in H as [H|[H Hlt]]; [|auto].
  unfold entry in H. rewrite olookup_empty in H. discriminate.
Qed.

Lemma entry_of_triple mesh_obj v g w :
  (v, g, w) ∈ weight_triples mesh_obj ->
  (g < length (group_names_of mesh_obj))%nat ->
  is_Some (entry (_mesh_to_weight_dict mesh_obj).2 v g).
Proof.
  intros H Hlt. rewrite mesh_to_weight_dict_fold.
  apply entry_foldl_some. right. eauto.
Qed.

Lemma inner_nonempty mesh_obj v d :
  (_mesh_to_weight_dict mesh_obj).2 !! v = Some d -> d <> ∅.
Proof.
  rewrite mesh_to_weight_dict_fold. apply inner_nonempty_foldl.
  intros v' d' H. rewrite olookup_empty in H. discriminate.
Qed.

(** X11: the weight dictionary of a mesh has a key for exactly the
    vertex indices that carry a weight for a group index below the
    number of vertex groups; a vertex in no such group has no key at
    all.  No inner dictionary is empty, and each of its entries is the
    weight of such a group of such a vertex. *)
Theorem weight_dict_entries mesh_obj :
  let wd := (_mesh_to_weight_dict mesh_obj).2 in
  let tot := length (Object.vertex_groups mesh_obj) in
  (forall v, is_Some (wd !! v) <->
     exists vertex e,
       vertex ∈ Mesh.vertices (Object.data mesh_obj)
       /\ MeshVertex.index vertex = v
       /\ e ∈ MeshVertex.groups vertex
       /\ (VertexGroupElement.group e < tot)%nat)
  /\ (forall v d, wd !! v = Some d ->
        d <> ∅ /\
        forall g w, d !! g = Some w ->
          (g < tot)%nat /\
          exists vertex e,
            vertex ∈ Mesh.vertices (Object.data mesh_obj)
            /\ MeshVertex.index vertex = v
            /\ e ∈ MeshVertex.groups vertex
            /\ VertexGroupElement.group e = g
            /\ VertexGroupElement.weight e = w).
Proof.
  intros wd tot. subst wd.
  assert (Htot : length (group_names_of mesh_obj) = tot)
    by (unfold group_names_of; apply length_map).
  assert (Hfrom : forall v g w,
            entry (_mesh_to_weight_dict mesh_obj).2 v g = Some w ->
            (g < tot)%nat /\
            exists vertex e,
              vertex ∈ Mesh.vertices (Object.data mesh_obj)
              /\ MeshVertex.index vertex = v
              /\ e ∈ MeshVertex.groups vertex
              /\ VertexGroupElement.group e = g
              /\ VertexGroupElement.weight e = w).
  { intros v g w H. apply entry_from_triple in H as [Hlt H].
    split; [rewrite <- Htot; exact Hlt|].
    apply elem_of_weight_triples in H as (vertex & e & ? & ? & ? & ? & ?).
    exists vertex, e. auto. }
  split.
  - intros v. split.
    + intros [d Hd].
      destruct (ochoose d (inner_nonempty mesh_obj v d Hd)) as (g & w & Hg).
      destruct (Hfrom v g w) as (Hlt & vertex & e & Hv & Hi & He & Hgr & _).
      { unfold entry. rewrite Hd. exact Hg. }
      exists vertex, e. subst g. auto.
    + intros (vertex & e & Hv & Hi & He & Hlt).
      destruct (entry_of_triple mesh_obj v (VertexGroupElement.group e)
                  (VertexGroupElement.weight e)) as [w Hw].
      { apply elem_of_weight_triples. exists vertex, e. auto. }
      { rewrite Htot. exact Hlt. }
      unfold entry in Hw.
      destruct ((_mesh_to_weight_dict mesh_obj).2 !! v); [eauto|discriminate].
  - intros v d Hd. split; [exact (inner_nonempty mesh_obj v d Hd)|].
    intros g w Hg. apply Hfrom. unfold entry. rewrite Hd. exact Hg.
Qed.

(** ** When the index can be built *)

(** A loop that returns ran every pass, each from a state that satisfies
    what the passes maintain; a loop that raises raised in some pass. *)
Lemma for_fold_steps {A B} (I : B -> Prop) (f : B -> A -> result B) l :
  (forall b x b', I b -> f b x = Return b' -> I b') ->
  forall b b', I b -> for_fold f l b = Return b' ->
    I b' /\ forall x, x ∈ l -> exists b1 b2, I b1 /\ f b1 x = Return b2.
Proof.
  intros Hstep. induction l as [|a l IH]; intros b b' Hb H.
  - injection H as <-. split; [exact Hb|]. intros x Hx. inversion Hx.
  - rewrite for_fold_cons in H. destruct (f b a) as [b1|] eqn:E; [|discriminate].
    destruct (IH b1 b' (Hstep _ _ _ Hb E) H) as [Hb' Hall].
    split; [exact Hb'|]. intros x [->|Hx]%elem_of_cons; eauto.
Qed.

Lemma for_fold_raised {A B} (I : B -> Prop) (f : B -> A -> result B) l :
  (forall b x b', I b -> f b x = Return b' -> I b') ->
  forall b e, I b -> for_fold f l b = Raise e ->
    exists x b1, x ∈ l /\ I b1 /\ f b1 x = Raise e.
Proof.
  intros Hstep. induction l as [|a l IH]; intros b e Hb H; [discriminate|].
  rewrite for_fold_cons in H. destruct (f b a) as [b1|e'] eqn:E.
  - destruct (IH b1 e (Hstep _ _ _ Hb E) H) as (x & b2 & Hx & Hb2 & Hr).
    exists x, b2. split; [right; exact Hx|auto].
  - injection H as <-. exists a, b. split; [left|auto].
Qed.

Section IndexKeys.

Variable human : Armature.t.
Variable objects : gmap string Object.t.
Variable prec : nat.

Lemma insert_present_keys bwd b (x y : gmap string weights_t) :
  bwd !! b = Some x ->
  forall k, is_Some (<[b := y]> bwd !! k) <-> is_Some (bwd !! k).
Proof.
  intros Hb k. destruct (decide (k = b)) as [->|Hne].
  - rewrite lookup_insert_eq, Hb. split; eauto.
  - rewrite lookup_insert_ne by congruence. reflexivity.
Qed.

Lemma initial_keyed bones : forall (d : bone_weight_dict_t) k,
  is_Some (foldl (fun d bone => <[Bone.name bone := ∅]> d) d bones !! k)
  <-> is_Some (d !! k) \/ exists bone, bone ∈ bones /\ Bone.name bone = k.
Proof.
  induction bones as [|bone bones IH]; intros d k; simpl.
  - split; [auto|]. intros [H|(bone & H & _)]; [exact H|inversion H].
  - rewrite IH. destruct (decide (k = Bone.name bone)) as [->|Hne].
    + rewrite lookup_insert_eq. split; [|eauto].
      intros _. right. exists bone. split; [left|reflexivity].
    + rewrite lookup_insert_ne by congruence. split.
      * intros [H|(b & Hb & Hn)]; [auto|]. right. exists b. split; [right|]; auto.
      * intros [H|(b & [->|Hb]%elem_of_cons & Hn)]; [auto|congruence|eauto].
Qed.

Lemma allocate_step_keyed bwd p bwd' :
  keyed_by_bones human bwd -> allocate_step bwd p = Return bwd' ->
  keyed_by_bones human bwd'.
Proof.
  unfold allocate_step, getitem. intros Hk H.
  destruct (bwd !! Bone.name p.1) as [by_mesh|] eqn:E; [|discriminate].
  injection H as <-. intros k.
  rewrite (insert_present_keys _ _ _ _ E). apply Hk.
Qed.

Lemma allocate_keyed bwd :
  allocate human = Return bwd -> keyed_by_bones human bwd.
Proof.
  unfold allocate. intros H.
  eapply (for_fold_steps (keyed_by_bones human)); [|  |exact H].
  - intros b x b'. apply allocate_step_keyed.
  - intros k. rewrite initial_keyed, lookup_empty. split.
    + intros [[? H']|H']; [discriminate|exact H'].
    + auto.
Qed.

Lemma add_item_keyed group_names m bwd t bwd' :
  keyed_by_bones human bwd ->
  add_item prec group_names m bwd t = Return bwd' ->
  keyed_by_bones human bwd'.
Proof.
  unfold add_item, add_weight, list_getitem, getitem. intros Hk H.
  destruct (group_names !! t.1.2) as [b|]; [|discriminate]. simpl in H.
  destruct (bwd !! b) as [by_mesh|] eqn:E; [|discriminate]. simpl in H.
  destruct (by_mesh !! m) as [weights|]; [|discriminate]. simpl in H.
  destruct (Float.ne_zero t.2); injection H as <-; [|exact Hk].
  intros k. rewrite (insert_present_keys _ _ _ _ E). apply Hk.
Qed.

Lemma add_mesh_keyed bwd m bwd' :
  keyed_by_bones human bwd -> add_mesh objects prec bwd m = Return bwd' ->
  keyed_by_bones human bwd'.
Proof.
  rewrite add_mesh_items. unfold getitem. intros Hk H.
  destruct (objects !! m) as [mesh|]; [|discriminate].
  eapply (for_fold_steps (keyed_by_bones human)); [|exact Hk|exact H].
  intros b x b'. apply add_item_keyed.
Qed.

(** A pass for a triple returns only if the group of the triple is named
    after a bone. *)
Lemma add_item_needs_bone group_names m bwd t bwd' b :
  keyed_by_bones human bwd -> group_names !! t.1.2 = Some b ->
  add_item prec group_names m bwd t = Return bwd' ->
  exists bone, bone ∈ Armature.bones human /\ Bone.name bone = b.
Proof.
  unfold add_item, add_weight, list_getitem, getitem. intros Hk Hg H.
  rewrite Hg in H. simpl in H.
  destruct (bwd !! b) as [by_mesh|] eqn:E; [|discriminate].
  apply Hk. eauto.
Qed.

(** A pass for a triple in range raises nothing but [KeyError]. *)
Lemma add_item_raises group_names m bwd t e :
  (t.1.2 < length group_names)%nat ->
  add_item prec group_names m bwd t = Raise e -> e = KeyError.
Proof.
  unfold add_item, add_weight, list_getitem, getitem. intros Hlt H.
  destruct (lookup_lt_is_Some_2 _ _ Hlt) as [b Hb]. rewrite Hb in H.
  simpl in H.
  destruct (bwd !! b) as [by_mesh|]; [|injection H as <-; reflexivity].
  simpl in H.
  destruct (by_mesh !! m) as [weights|]; [|injection H as <-; reflexivity].
  simpl in H. destruct (Float.ne_zero t.2); discriminate.
Qed.

Lemma add_mesh_raises bwd m e :
  keyed_by_bones human bwd -> add_mesh objects prec bwd m = Raise e ->
  e = KeyError.
Proof.
  rewrite add_mesh_items. unfold getitem. intros Hk H.
  destruct (objects !! m) as [mesh|]; [|injection H as <-; reflexivity].
  apply (for_fold_raised (keyed_by_bones human)) in H
    as ([[v g] w] & b1 & Hin & _ & Hr); [| |exact Hk].
  - apply add_item_raises in Hr; [exact Hr|].
    apply elem_of_items in Hin; [|apply mesh_weight_dict_wf].
    apply entry_from_triple in Hin as [Hlt _]. exact Hlt.
  - intros b x b'. apply add_item_keyed.
Qed.

End IndexKeys.

(** The builder returns only if every vertex group that a vertex is
    assigned to is named after a bone. *)
Lemma build_needs_bones human objects prec :
  well_formed human objects ->
  (exists idx, _meshes_to_weight_dict human objects prec = Return idx) ->
  groups_name_bones human.
Proof.
  intros Hwf [idx H] child vertex e b Hchild Hv He Hb.
  destruct (allocate_ok human) as (bwd & Ha & _).
  pose proof (allocate_keyed human bwd Ha) as Hk.
  rewrite build_phases, Ha in H.
  change (for_fold (add_mesh objects prec) (mesh_names human) bwd = Return idx)
    in H.
  apply (for_fold_steps (keyed_by_bones human)) in H as [_ Hsteps];
    [|intros ? ? ?; apply add_mesh_keyed|exact Hk].
  destruct (Hsteps (Object.name child)) as (b1 & b2 & Hk1 & Hstep).
  { apply elem_of_mesh_names. eauto. }
  rewrite add_mesh_items in Hstep. unfold getitem in Hstep.
  rewrite (wf_objects _ _ Hwf child Hchild) in Hstep.
  change (for_fold (add_item prec (group_names_of child) (Object.name child))
            (items_of (_mesh_to_weight_dict child).2) b1 = Return b2)
    in Hstep.
  apply (for_fold_steps (keyed_by_bones human)) in Hstep as [_ Hitems];
    [|intros ? ? ?; apply add_item_keyed|exact Hk1].
  destruct (entry_of_triple child (MeshVertex.index vertex)
              (VertexGroupElement.group e) (VertexGroupElement.weight e))
    as [w Hw].
  { apply elem_of_weight_triples. exists vertex, e. auto. }
  { eapply lookup_lt_Some. exact Hb. }
  apply elem_of_items in Hw; [|apply mesh_weight_dict_wf].
  destruct (Hitems _ Hw) as (b3 & b4 & Hk3 & Hitem).
  eapply add_item_needs_bone; [exact Hk3| |exact Hitem]. exact Hb.
Qed.

(** The builder raises nothing but [KeyError]. *)
Lemma build_raises human objects prec e :
  _meshes_to_weight_dict human objects prec = Raise e -> e = KeyError.
Proof.
  intros H. destruct (allocate_ok human) as (bwd & Ha & _).
  pose proof (allocate_keyed human bwd Ha) as Hk.
  rewrite build_phases, Ha in H.
  change (for_fold (add_mesh objects prec) (mesh_names human) bwd = Raise e)
    in H.
  apply (for_fold_raised (keyed_by_bones human)) in H
    as (m & b1 & _ & Hk1 & Hr);
    [|intros ? ? ?; apply add_mesh_keyed|exact Hk].
  exact (add_mesh_raises human objects prec b1 m e Hk1 Hr).
Qed.

(** With a vertex group that is assigned and is no bone, the builder
    raises [KeyError]. *)
Lemma build_fails human objects prec :
  well_formed human objects -> ~ groups_name_bones human ->
  _meshes_to_weight_dict human objects prec = Raise KeyError.
Proof.
  intros Hwf Hn.
  destruct (_meshes_to_weight_dict human objects prec) as [idx|e] eqn:E.
  - destruct Hn. eapply build_needs_bones; eauto.
  - f_equal. eapply build_raises. exact E.
Qed.

(** ** The index of a scene, or [KeyError] *)

(** C1, as amended: in a well-formed scene in which every vertex group
    that a vertex is assigned to is named after a bone, the builder
    returns an index; the index has a table for every bone and every mesh
    child (possibly empty); in that table the vertex lists of all buckets
    together hold exactly the vertices of the mesh with a non-zero weight
    for the bone, the list under a weight string holds exactly those whose
    weight is formatted as that string, no list repeats a vertex and no
    vertex is in two lists.  In a well-formed scene with an assigned
    vertex group that is named after no bone, the builder raises
    [KeyError] and there is no index. *)
Theorem weight_index_complete human objects prec :
  well_formed human objects ->
  (groups_name_bones human ->
   exists idx,
     _meshes_to_weight_dict human objects prec = Return idx
     /\ forall bone child,
          bone ∈ Armature.bones human -> mesh_child human child ->
          exists by_mesh (weights : weights_t),
            idx !! Bone.name bone = Some by_mesh
            /\ by_mesh !! Object.name child = Some weights
            /\ (forall v, (exists s l, weights !! s = Some l /\ v ∈ l)
                          <-> exists s, has_weight prec child (Bone.name bone) v s)
            /\ (forall s l, weights !! s = Some l ->
                  NoDup l
                  /\ forall v, v ∈ l <-> has_weight prec child (Bone.name bone) v s)
            /\ (forall s1 s2 l1 l2 v,
                  weights !! s1 = Some l1 -> weights !! s2 = Some l2 ->
                  v ∈ l1 -> v ∈ l2 -> s1 = s2))
  /\ (~ groups_name_bones human ->
      _meshes_to_weight_dict human objects prec = Raise KeyError).
Proof.
  intros Hwf. split; [|apply build_fails; exact Hwf].
  intros Hgb. destruct (build_ok human objects prec Hwf Hgb) as [idx Hrun].
  exists idx. split; [exact Hrun|].
  intros bone child Hbone Hchild.
  destruct (index_buckets human objects prec idx Hwf Hrun) as [Htab Hbuckets].
  destruct (Htab bone child Hbone Hchild) as [weights Hw].
  assert (Hlist : forall s l, weights !! s = Some l ->
            l = contrib prec (group_names_of child)
                  (items_of (snd (_mesh_to_weight_dict child))) (Bone.name bone) s).
  { intros s l Hl. rewrite <- Hbuckets by exact Hchild.
    rewrite (bucket_lookup _ _ _ _ _ Hw), Hl. reflexivity. }
  assert (Hmem : forall s l v, weights !! s = Some l ->
            v ∈ l <-> has_weight prec child (Bone.name bone) v s).
  { intros s l v Hl. rewrite (Hlist s l Hl).
    apply elem_of_contrib, Hwf, Hchild. }
  unfold table in Hw.
  destruct (idx !! Bone.name bone) as [by_mesh|] eqn:Hb; [|discriminate].
  simpl in Hw. exists by_mesh, weights.
  split; [reflexivity|]. split; [exact Hw|]. split; [|split].
  - intros v. split.
    + intros (s & l & Hl & Hv). exists s. apply (Hmem s l v Hl). exact Hv.
    + intros (s & Hv). exists s.
      apply (elem_of_contrib prec child _ _ _ (wf_weights _ _ Hwf child Hchild)) in Hv.
      rewrite <- Hbuckets in Hv by exact Hchild.
      unfold bucket, table in Hv. rewrite Hb in Hv. simpl in Hv. rewrite Hw in Hv.
      simpl in Hv. destruct (weights !! s) as [l|]; [eauto|].
      simpl in Hv. inversion Hv.
  - intros s l Hl. split; [|intros v; apply Hmem; exact Hl].
    rewrite (Hlist s l Hl). apply NoDup_contrib, Hwf, Hchild.
  - intros s1 s2 l1 l2 v H1 H2 Hv1 Hv2.
    apply (Hmem s1 l1 v H1) in Hv1. apply (Hmem s2 l2 v H2) in Hv2.
    eapply has_weight_unique; [apply Hwf, Hchild|apply Hwf, Hchild|eassumption..].
Qed.

Lemma weight_index_complete_witness :
  well_formed Sample.human Sample.objects /\ groups_name_bones Sample.human /\
  exists idx,
    _meshes_to_weight_dict Sample.human Sample.objects 4 = Return idx
    /\ exists by_mesh (weights : weights_t),
         idx !! "child.L" = Some by_mesh
         /\ by_mesh !! "MakeHuman:Body" = Some weights
         /\ forall v, (exists s l, weights !! s = Some l /\ v ∈ l)
                      <-> exists s, has_weight 4 Sample.body "child.L" v s.
Proof.
  split; [exact sample_wf|]. split; [exact sample_gb|].
  destruct (proj1 (weight_index_complete Sample.human Sample.objects 4 sample_wf)
                  sample_gb) as (idx & Hrun & Hall).
  exists idx. split; [exact Hrun|].
  destruct (Hall Sample.child_bone Sample.body)
    as (by_mesh & weights & Hb & Hm & Hv & _).
  - right. left.
  - split; [left|reflexivity].
  - exists by_mesh, weights. auto.
Defined.

Lemma helped_mesh_child child :
  mesh_child Cases.helped_human child -> child = Cases.helped.
Proof. intros [Hin _]. apply list_elem_of_singleton in Hin. exact Hin. Qed.

Lemma helped_wf : well_formed Cases.helped_human Cases.helped_objects.
Proof.
  split.
  - apply (bool_decide_unpack _). vm_compute. exact I.
  - intros child ->%helped_mesh_child. reflexivity.
  - intros child ->%helped_mesh_child.
    apply (bool_decide_unpack _). vm_compute. exact I.
  - intros child ->%helped_mesh_child. split.
    + apply (bool_decide_unpack _). vm_compute. exact I.
    + intros v ->%list_elem_of_singleton.
      apply (bool_decide_unpack _). vm_compute. exact I.
Qed.

(** Its group [helper] is assigned to vertex 0 and is no bone. *)
Lemma helped_not_gb : ~ groups_name_bones Cases.helped_human.
Proof.
  intros H.
  destruct (H Cases.helped
              (MeshVertex.mk 0 Sample.origin Sample.up
                 [Sample.full 1; VertexGroupElement.mk 2 Sample.f0])
              (VertexGroupElement.mk 2 Sample.f0) "helper")
    as (bone & Hin & Hname).
  - split; [left|reflexivity].
  - left.
  - right. left.
  - reflexivity.
  - simpl in Hin.
    repeat (apply elem_of_cons in Hin as [->|Hin]);
      [discriminate Hname..|inversion Hin].
Qed.

(** It fails: the scene is well formed, and the weight 0.0 of vertex 0
    for the group [helper], which is no bone, makes the builder raise
    [KeyError]; no index is built. *)
Lemma helper_group_no_index :
  ~ index_built_complete Cases.helped_human Cases.helped_objects 4.
Proof.
  intros (idx & Hrun & _).
  rewrite (build_fails _ _ 4 helped_wf helped_not_gb) in Hrun.
  discriminate Hrun.
Qed.

(** C3, as amended: in a well-formed scene in which every vertex group
    that a vertex is assigned to is named after a bone, the builder
    returns an index, and: a triple whose group index is greater than or
    equal to the number of vertex groups never enters the mesh's weight
    dictionary; a triple in range with weight 0.0 puts its vertex in no
    bucket of its bone; every other triple puts its vertex index, once,
    in the bucket of its bone, mesh and weight string and in no other
    bucket of that table; and every vertex index in a bucket comes from
    such a triple.  In a well-formed scene where a triple in range names
    a group that is no bone, whatever its weight, the builder raises
    [KeyError] and no triple reaches a bucket. *)
Theorem weight_triples_skipped_or_bucketed human objects prec :
  well_formed human objects ->
  (groups_name_bones human ->
   exists idx,
     _meshes_to_weight_dict human objects prec = Return idx
     /\ forall child, mesh_child human child ->
        let group_names := group_names_of child in
        let m := Object.name child in
        (forall vertex e,
           vertex ∈ Mesh.vertices (Object.data child) ->
           e ∈ MeshVertex.groups vertex ->
           let v := MeshVertex.index vertex in
           let g := VertexGroupElement.group e in
           let w := VertexGroupElement.weight e in
           ((length group_names <= g)%nat ->
            entry (snd (_mesh_to_weight_dict child)) v g = None)
           /\ (forall b, group_names !! g = Some b -> Float.ne_zero w = false ->
                 forall s, v ∉ bucket idx b m s)
           /\ (forall b, group_names !! g = Some b -> Float.ne_zero w = true ->
                 exists weights l,
                   table idx b m = Some weights
                   /\ weights !! Float.format_f prec w = Some l
                   /\ v ∈ l /\ NoDup l
                   /\ forall s, v ∈ bucket idx b m s -> s = Float.format_f prec w))
        /\ (forall b s v, v ∈ bucket idx b m s -> has_weight prec child b v s))
  /\ ((exists child vertex e b,
         mesh_child human child
         /\ vertex ∈ Mesh.vertices (Object.data child)
         /\ e ∈ MeshVertex.groups vertex
         /\ group_names_of child !! VertexGroupElement.group e = Some b
         /\ ~ exists bone, bone ∈ Armature.bones human /\ Bone.name bone = b) ->
      _meshes_to_weight_dict human objects prec = Raise KeyError).
Proof.
  intros Hwf. split.
  2:{ intros (child & vertex & e & b & Hchild & Hv & He & Hb & Hn).
      apply build_fails; [exact Hwf|]. intros Hgb. apply Hn.
      exact (Hgb child vertex e b Hchild Hv He Hb). }
  intros Hgb. destruct (build_ok human objects prec Hwf Hgb) as [idx Hrun].
  exists idx. split; [exact Hrun|].
  intros child Hchild group_names m.
  destruct (index_buckets human objects prec idx Hwf Hrun) as [Htab Hbuckets].
  pose proof (wf_weights _ _ Hwf child Hchild) as Hd.
  pose proof (wf_groups _ _ Hwf child Hchild) as Hn.
  assert (Hmem : forall b s v,
            v ∈ bucket idx b m s <-> has_weight prec child b v s).
  { intros b s v. subst m. rewrite Hbuckets by exact Hchild.
    apply elem_of_contrib, Hd. }
  split; [|intros b s v; apply Hmem].
  intros vertex e Hv He v g w. split; [|split].
  - intros Hge. destruct (entry _ v g) as [w'|] eqn:E; [|reflexivity].
    apply elem_of_items in E; [|apply mesh_weight_dict_wf].
    apply (elem_of_mesh_items _ _ _ _ Hd) in E as [_ Hlt].
    fold group_names in Hlt. lia.
  - intros b Hb Hz s Hin. apply Hmem in Hin.
    destruct Hin as (x' & e' & Hx' & Hi' & He' & Hb' & Hz' & _).
    destruct Hd as [Hdv Hdg].
    assert (x' = vertex) as ->
      by (apply (NoDup_fmap_eq MeshVertex.index _ _ _ Hdv Hx' Hv); exact Hi').
    assert (e' = e) as ->.
    { apply (NoDup_fmap_eq VertexGroupElement.group _ _ _ (Hdg vertex Hv) He' He).
      eapply NoDup_lookup; eassumption. }
    fold w in Hz'. congruence.
  - intros b Hb Hz.
    assert (Hhas : has_weight prec child b v (Float.format_f prec w))
      by (exists vertex, e; auto 10).
    assert (Hbone : is_Some (table idx b m)).
    { apply Hmem in Hhas. unfold bucket in Hhas.
      destruct (table idx b m); [eauto|inversion Hhas]. }
    destruct Hbone as [weights Hw]. exists weights.
    pose proof Hhas as Hin. apply Hmem in Hin.
    rewrite (bucket_lookup _ _ _ _ _ Hw) in Hin.
    destruct (weights !! Float.format_f prec w) as [l|] eqn:Hl; [|inversion Hin].
    exists l. split; [exact Hw|]. split; [reflexivity|].
    split; [exact Hin|]. split.
    + assert (l = bucket idx b m (Float.format_f prec w)) as ->
        by (rewrite (bucket_lookup _ _ _ _ _ Hw), Hl; reflexivity).
      subst m. rewrite Hbuckets by exact Hchild. apply NoDup_contrib, Hn.
    + intros s Hs. apply Hmem in Hs.
      eapply has_weight_unique; eassumption.
Qed.

Lemma weight_triples_skipped_or_bucketed_witness :
  well_formed Sample.human Sample.objects /\ groups_name_bones Sample.human /\
  exists idx,
    _meshes_to_weight_dict Sample.human Sample.objects 4 = Return idx
    /\ entry (snd (_mesh_to_weight_dict Sample.body)) 2 5 = None
    /\ (forall s, 1%nat ∉ bucket idx "root" "MakeHuman:Body" s)
    /\ exists weights l,
         table idx "child.L" "MakeHuman:Body" = Some weights
         /\ weights !! "1.0000" = Some l /\ 0%nat ∈ l /\ NoDup l.
Proof.
  split; [exact sample_wf|]. split; [exact sample_gb|].
  destruct (weight_triples_skipped_or_bucketed
              Sample.human Sample.objects 4 sample_wf) as [Hok _].
  destruct (Hok sample_gb) as (idx & Hrun & Hinv). exists idx.
  split; [exact Hrun|].
  assert (Hchild : mesh_child Sample.human Sample.body)
    by (split; [left|reflexivity]).
  destruct (Hinv Sample.body Hchild) as [Htr _].
  split; [|split].
  - apply (Htr (MeshVertex.mk 2 (Vector.mk Sample.f0 Sample.f1 Sample.f0)
                  Sample.up
                  [Sample.full 1; VertexGroupElement.mk 5 (dec 25 2)])
               (VertexGroupElement.mk 5 (dec 25 2))).
    + simpl. right. right. left.
    + simpl. right. left.
    + simpl. lia.
  - apply (proj1 (proj2
      (Htr (MeshVertex.mk 1 (Vector.mk Sample.f1 Sample.f0 Sample.f0)
              Sample.up [Sample.full 1; VertexGroupElement.mk 0 Sample.f0])
           (VertexGroupElement.mk 0 Sample.f0)
           ltac:(simpl; right; left) ltac:(simpl; right; left)))
      "root" eq_refl eq_refl).
  - destruct (proj2 (proj2
      (Htr (MeshVertex.mk 0 Sample.origin Sample.up [Sample.full 1])
           (Sample.full 1) ltac:(simpl; left) ltac:(simpl; left)))
      "child.L" eq_refl ltac:(vm_compute; reflexivity))
      as (weights & l & Ht & Hl & Hv & Hnd & _).
    exists weights, l. split; [exact Ht|]. split; [|split; assumption].
    replace "1.0000" with (Float.format_f 4 Sample.f1)
      by (vm_compute; reflexivity).
    exact Hl.
Defined.


(** X12: in a well-formed scene the builder of the weight index returns
    exactly when every vertex group that some vertex is assigned to, with
    whatever weight, is named after a bone of the armature.  Otherwise it
    raises [KeyError], also when the offending weight is 0.0 (the bone is
    looked up before the weight is tested), and it raises nothing else. *)
Theorem weight_index_returns_iff human objects prec :
  well_formed human objects ->
  ((exists idx, _meshes_to_weight_dict human objects prec = Return idx)
   <-> groups_name_bones human)
  /\ forall e, _meshes_to_weight_dict human objects prec = Raise e ->
               e = KeyError.
Proof.
  intros Hwf. split; [split|].
  - apply build_needs_bones. exact Hwf.
  - apply build_ok. exact Hwf.
  - intros e. apply build_raises.
Qed.

Lemma weight_index_returns_iff_witness :
  ((exists idx, _meshes_to_weight_dict Sample.human Sample.objects 4 = Return idx)
   <-> groups_name_bones Sample.human)
  /\ forall e, _meshes_to_weight_dict Sample.human Sample.objects 4 = Raise e ->
               e = KeyError.
Proof.
  apply (weight_index_returns_iff Sample.human Sample.objects 4). exact sample_wf.
Defined.

Example helper_group_KeyError :
  _meshes_to_weight_dict
    (Armature.mk [Sample.root_bone; Sample.child_bone] [Cases.helped])
    {[ "MakeHuman:Body" := Cases.helped ]} 4
  = Raise KeyError.
Proof. vm_compute. reflexivity. Qed.

(** ** Sorting *)

Lemma string_leb_trans s1 s2 s3 :
  String.leb s1 s2 = true -> String.leb s2 s3 = true -> String.leb s1 s3 = true.
Proof.
  unfold String.leb. revert s2 s3.
  induction s1 as [|a1 s1 IH]; intros [|a2 s2] [|a3 s3]; simpl;
    try (intros; reflexivity || discriminate).
  unfold Ascii.compare.
  destruct (N.compare_spec (N_of_ascii a1) (N_of_ascii a2));
    destruct (N.compare_spec (N_of_ascii a2) (N_of_ascii a3));
    destruct (N.compare_spec (N_of_ascii a1) (N_of_ascii a3));
    try (exfalso; lia); try (intros; reflexivity || discriminate).
  apply IH.
Qed.

Section SortedFacts.

Context {A : Type} (leb : A -> A -> bool).
Hypothesis leb_total : forall x y, leb x y = true \/ leb y x = true.
Hypothesis leb_trans :
  forall x y z, leb x y = true -> leb y z = true -> leb x z = true.
Hypothesis leb_antisym : forall x y, leb x y = true -> leb y x = true -> x = y.

Lemma insert_sorted_perm x l : insert_sorted leb x l ≡ₚ x :: l.
Proof.
  induction l as [|y l IH]; simpl; [reflexivity|].
  destruct (leb x y); [reflexivity|].
  rewrite IH. apply Permutation_swap.
Qed.

Lemma sorted_perm l : sorted leb l ≡ₚ l.
Proof.
  induction l as [|x l IH]; [reflexivity|].
  unfold sorted. simpl. rewrite insert_sorted_perm.
  constructor. exact IH.
Qed.

Lemma insert_sorted_Sorted x l :
  Sorted (fun a b => leb a b = true) l ->
  Sorted (fun a b => leb a b = true) (insert_sorted leb x l).
Proof.
  induction 1 as [|y l Hl IH Hy]; simpl; [repeat constructor|].
  destruct (leb x y) eqn:E.
  - constructor; [constructor; assumption|constructor; exact E].
  - constructor; [exact IH|].
    assert (Hyx : leb y x = true)
      by (destruct (leb_total x y) as [H|H]; [congruence|exact H]).
    destruct Hy as [|z l Hz]; simpl; [constructor; exact Hyx|].
    destruct (leb x z); constructor; assumption.
Qed.

Lemma sorted_Sorted l : Sorted (fun a b => leb a b = true) (sorted leb l).
Proof.
  induction l as [|x l IH]; [constructor|].
  apply insert_sorted_Sorted. exact IH.
Qed.

(** [sorted] forgets the order of its argument. *)
Lemma sorted_of_perm l l' : l ≡ₚ l' -> sorted leb l = sorted leb l'.
Proof.
  intros H.
  assert (Ht : Transitive (fun a b => leb a b = true))
    by (intros x y z; apply leb_trans).
  assert (Ha : AntiSymm eq (fun a b => leb a b = true))
    by (intros x y; apply leb_antisym).
  apply (Sorted_unique (fun a b => leb a b = true));
    [apply sorted_Sorted..|].
  rewrite !sorted_perm. exact H.
Qed.

End SortedFacts.

Lemma sorted_strings l l' :
  l ≡ₚ l' -> sorted String.leb l = sorted String.leb l'.
Proof.
  apply sorted_of_perm;
    [apply String.leb_total|apply string_leb_trans|apply String.leb_antisym].
Qed.

Lemma sorted_nats (l l' : list nat) :
  l ≡ₚ l' -> sorted Nat.leb l = sorted Nat.leb l'.
Proof.
  apply sorted_of_perm.
  - intros x y. rewrite !Nat.leb_le. lia.
  - intros x y z. rewrite !Nat.leb_le. lia.
  - intros x y. rewrite !Nat.leb_le. lia.
Qed.

(** The keys of two dictionaries with the same domain, sorted. *)
Lemma sorted_keys {V W} (m : gmap string V) (m' : gmap string W) :
  (forall k, is_Some (m !! k) <-> is_Some (m' !! k)) ->
  sorted String.leb (map fst (map_to_list m))
  = sorted String.leb (map fst (map_to_list m')).
Proof.
  intros H. apply sorted_strings.
  change (map fst ?l) with (l.*1).
  apply NoDup_Permutation; [apply NoDup_fst_map_to_list..|].
  intros k. rewrite !list_elem_of_fmap. split.
  - intros ([k' v] & -> & Hv%elem_of_map_to_list). simpl.
    destruct (proj1 (H k')) as [v' Hv']; [eauto|].
    exists (k', v'). split; [reflexivity|]. apply elem_of_map_to_list. exact Hv'.
  - intros ([k' v] & -> & Hv%elem_of_map_to_list). simpl.
    destruct (proj2 (H k')) as [v' Hv']; [eauto|].
    exists (k', v'). split; [reflexivity|]. apply elem_of_map_to_list. exact Hv'.
Qed.

Lemma for_each_ext_in {A} (l : list A) (body body' : A -> M unit) :
  (forall a st, a ∈ l -> body a st = body' a st) ->
  forall st, for_each l body st = for_each l body' st.
Proof.
  induction l as [|a l IH]; intros H st; [reflexivity|].
  simpl. rewrite !run_bind, (H a st) by left.
  destruct (body' a st) as [[[]|e] st']; [|reflexivity].
  apply IH. intros a' st'' Ha. apply H. right. exact Ha.
Qed.

Lemma option_Forall2_is_Some {A B} (R : A -> B -> Prop) x y :
  option_Forall2 R x y -> is_Some x <-> is_Some y.
Proof. destruct 1; split; intros [? ?]; eauto; discriminate. Qed.

(** ** Vertex references *)

(** X13: what [_write_bone_vertex_ref] writes depends on the vertex
    indices in each bucket, not on the order in which they were appended:
    two dictionaries with the same meshes, the same weight strings and,
    under each, the same indices in any order give the same run, to the
    last character. *)
Theorem vertex_ref_order_independent mw mw' indent_level st :
  same_buckets mw mw' ->
  _write_bone_vertex_ref mw indent_level st
  = _write_bone_vertex_ref mw' indent_level st.
Proof.
  intros H. unfold _write_bone_vertex_ref.
  rewrite (sorted_keys mw mw')
    by (intros k; eapply option_Forall2_is_Some, H).
  apply for_each_ext_in. intros m st1 _.
  rewrite !run_bind. unfold lift, getitem.
  destruct (H m) as [t t' Ht|]; [|reflexivity].
  rewrite (sorted_keys t t')
    by (intros k; eapply option_Forall2_is_Some, Ht).
  apply for_each_ext_in. intros s st2 _.
  rewrite !run_bind.
  destruct (Ht s) as [l l' Hl|]; [|reflexivity].
  rewrite (sorted_nats l l' Hl). reflexivity.
Qed.

Lemma vertex_ref_order_independent_witness :
  _write_bone_vertex_ref {[ "Body" := {[ "1.0000" := [2; 0; 1]%nat ]} ]} 2
                         Sample.opened
  = _write_bone_vertex_ref {[ "Body" := {[ "1.0000" := [0; 1; 2]%nat ]} ]} 2
                           Sample.opened.
Proof.
  apply (vertex_ref_order_independent
           {[ "Body" := {[ "1.0000" := [2; 0; 1]%nat ]} ]}
           {[ "Body" := {[ "1.0000" := [0; 1; 2]%nat ]} ]} 2 Sample.opened).
  intros m. destruct (decide (m = "Body")) as [->|Hm].
  - rewrite !lookup_singleton_eq. constructor.
    intros s. destruct (decide (s = "1.0000")) as [->|Hs].
    + rewrite !lookup_singleton_eq. constructor.
      apply (bool_decide_unpack _). vm_compute. exact I.
    + rewrite !lookup_singleton_ne by congruence. constructor.
  - rewrite !lookup_singleton_ne by congruence. constructor.
Defined.

(** ** Scenes that can be exported *)

Section Runs.

Variable self0 : Self.

Lemma runs_ret {A} (a : A) : runs (writing_for self0) (mret a).
Proof. intros st H. exists a, st. split; [reflexivity|exact H]. Qed.

Lemma runs_bind {A B} (c : M A) (f : A -> M B) :
  runs (writing_for self0) c -> (forall a, runs (writing_for self0) (f a)) ->
  runs (writing_for self0) (c ≫= f).
Proof.
  intros Hc Hf st H. destruct (Hc st H) as (a & st1 & E & H1).
  destruct (Hf a st1 H1) as (b & st2 & E2 & H2).
  exists b, st2. split; [|exact H2]. rewrite run_bind, E. exact E2.
Qed.

Lemma runs_lift {A B} (a : A) (f : A -> M B) :
  runs (writing_for self0) (f a) ->
  runs (writing_for self0) (lift (Return a) ≫= f).
Proof. intros Hf st H. exact (Hf st H). Qed.

Lemma runs_get_self {B} (f : Self -> M B) :
  (forall self, same_config self0 self -> runs (writing_for self0) (f self)) ->
  runs (writing_for self0) (get_self ≫= f).
Proof. intros Hf st H. exact (Hf st.1 (proj2 H) st H). Qed.

Lemma runs_get_open {B} (f : Self -> M B) :
  (forall self, is_Some (_egg_fp self) -> runs (writing_for self0) (f self)) ->
  runs (writing_for self0) (get_self ≫= f).
Proof. intros Hf st H. exact (Hf st.1 (proj1 H) st H). Qed.

Lemma runs_for_each {A} (l : list A) (body : A -> M unit) :
  (forall a, a ∈ l -> runs (writing_for self0) (body a)) ->
  runs (writing_for self0) (for_each l body).
Proof.
  induction l as [|a l IH]; intros Hb; [apply runs_ret|].
  simpl. apply runs_bind; [apply Hb; left|intros _].
  apply IH. intros a' Ha. apply Hb. right. exact Ha.
Qed.

Lemma runs_write text : runs (writing_for self0) (write text).
Proof.
  intros [self w] [[buf Hopen] Hc]. simpl in Hopen.
  rewrite (run_write _ _ _ _ Hopen). eexists tt, _. split; [reflexivity|].
  split; [destruct self; simpl; eauto|].
  eapply same_config_trans; [exact Hc|apply same_config_egg_fp].
Qed.

Lemma runs_print line : runs (writing_for self0) (print line).
Proof. intros [self w] H. eexists tt, _. split; [reflexivity|exact H]. Qed.

Ltac runs_step :=
  first [ assumption |
  lazymatch goal with
  | |- runs _ (lift (Return _) ≫= _) => apply runs_lift
  | |- runs _ (get_self ≫= _) => apply runs_get_self; intros ? ?
  | |- runs _ (_ ≫= _) => apply runs_bind; [|intros ?]
  | |- runs _ (mret _) => apply runs_ret
  | |- runs _ (write _) => apply runs_write
  | |- runs _ (print _) => apply runs_print
  end ].

Lemma runs_write_materials rmeshes :
  (forall rmesh, rmesh ∈ rmeshes -> is_Some (Object.active_material rmesh)) ->
  runs (writing_for self0) (_write_materials rmeshes).
Proof.
  intros H. unfold _write_materials. apply runs_for_each. intros rmesh Hin.
  destruct (H rmesh Hin) as [mat ->]. unfold attr. repeat runs_step.
Qed.

Lemma runs_write_bone_translation bone indent_level :
  runs (writing_for self0) (_write_bone_translation bone indent_level).
Proof. unfold _write_bone_translation. apply runs_write. Qed.

Lemma sorted_keys_elem {V} (m : gmap string V) k :
  k ∈ sorted String.leb (map fst (map_to_list m)) -> is_Some (m !! k).
Proof.
  rewrite (sorted_perm String.leb). change (map fst ?l) with (l.*1).
  intros ([k' v] & -> & H%elem_of_map_to_list)%list_elem_of_fmap. eauto.
Qed.

Lemma runs_write_bone_vertex_ref meshes_weights indent_level :
  runs (writing_for self0) (_write_bone_vertex_ref meshes_weights indent_level).
Proof.
  unfold _write_bone_vertex_ref. apply runs_for_each.
  intros m [t Ht]%sorted_keys_elem. unfold getitem. rewrite Ht.
  apply runs_lift. apply runs_for_each.
  intros s [l Hl]%sorted_keys_elem. rewrite Hl.
  apply runs_lift. apply runs_bind; [apply runs_write|intros _].
  apply runs_bind; [|intros _; apply runs_write].
  apply runs_for_each. intros v _. apply runs_write.
Qed.

Lemma below_step root child bone :
  child ∈ Bone.children root -> below child bone -> below root bone.
Proof.
  intros Hc. induction 1 as [|b c _ IH Hin].
  - eapply below_child; [apply below_root|exact Hc].
  - eapply below_child; [exact IH|exact Hin].
Qed.

Lemma runs_write_bone bones_weights bone :
  (forall b, below bone b -> is_Some (bones_weights !! Bone.name b)) ->
  forall indent_level,
    runs (writing_for self0) (_write_bone bone bones_weights indent_level).
Proof.
  induction bone as [name head_local parent children IH]
    using Bone_ind_children.
  intros Hkeys indent_level. simpl.
  apply runs_bind; [apply runs_write|intros _].
  apply runs_bind; [apply runs_write_bone_translation|intros _].
  apply runs_bind; [apply runs_write|intros _].
  apply runs_bind.
  - assert (Hsub : forall child, child ∈ children ->
              forall b, below child b -> is_Some (bones_weights !! Bone.name b)).
    { intros child Hc b Hb. apply Hkeys. eapply below_step; [|exact Hb].
      exact Hc. }
    clear Hkeys.
    induction IH as [|child children Hchild _ IHc]; [apply runs_ret|].
    apply runs_bind.
    + apply Hchild. apply Hsub. left.
    + intros _. apply IHc. intros c Hc. apply Hsub. right. exact Hc.
  - intros _. destruct (Hkeys _ (below_root _)) as [mw Hmw].
    simpl in Hmw. unfold getitem. simpl. rewrite Hmw. apply runs_lift.
    apply runs_bind; [apply runs_write_bone_vertex_ref|intros _].
    apply runs_write.
Qed.

End Runs.

Lemma index_keyed human objects prec idx :
  _meshes_to_weight_dict human objects prec = Return idx ->
  keyed_by_bones human idx.
Proof.
  rewrite build_phases. destruct (allocate_ok human) as (bwd & Ha & _).
  rewrite Ha. intros H.
  change (for_fold (add_mesh objects prec) (mesh_names human) bwd = Return idx)
    in H.
  eapply (for_fold_steps (keyed_by_bones human)); [| |exact H].
  - intros ? ? ?. apply add_mesh_keyed.
  - apply allocate_keyed. exact Ha.
Qed.

Lemma for_fold_returns {A B} (f : B -> A -> result B) l :
  (forall b x, x ∈ l -> exists b', f b x = Return b') ->
  forall b, exists b', for_fold f l b = Return b'.
Proof.
  induction l as [|a l IH]; intros H b; [simpl; eauto|].
  destruct (H b a) as [b1 E]; [left|]. rewrite for_fold_cons, E.
  apply IH. intros b' x Hx. apply H. right. exact Hx.
Qed.

Lemma image_texture_names_returns mat :
  material_ok mat -> exists names, image_texture_names mat = Return names.
Proof.
  intros H. apply for_fold_returns. intros acc [slot|] Hin; [|eauto].
  destruct (H slot Hin) as (texture & Ht & Himg). unfold attr. rewrite Ht.
  simpl. destruct (String.eqb_spec (Texture.type texture) "IMAGE") as [E|_];
    [|eauto].
  destruct (Himg E) as [image ->]. simpl. eauto.
Qed.

Lemma elem_of_link_loops mesh v loop :
  loop ∈ link_loops_of mesh v <->
  exists poly l,
    poly ∈ Mesh.polygons mesh
    /\ BMLoop.index loop ∈ MeshPolygon.loop_indices poly
    /\ Mesh.loops mesh !! BMLoop.index loop = Some l
    /\ MeshLoop.vertex_index l = v
    /\ BMLoop.face_material_index loop = MeshPolygon.material_index poly.
Proof.
  unfold link_loops_of. rewrite list_elem_of_In, in_flat_map. split.
  - intros (poly & Hp & Hin). apply in_flat_map in Hin as (li & Hli & Hin).
    destruct (Mesh.loops mesh !! li) as [l|] eqn:El; [|destruct Hin].
    destruct (Nat.eqb_spec (MeshLoop.vertex_index l) v) as [Ev|_];
      [|destruct Hin].
    destruct Hin as [<-|[]]. exists poly, l. simpl.
    rewrite <- !list_elem_of_In in *. auto.
  - intros (poly & l & Hp & Hli & El & Ev & Em). exists poly.
    split; [apply list_elem_of_In; exact Hp|].
    apply in_flat_map. exists (BMLoop.index loop).
    split; [apply list_elem_of_In; exact Hli|].
    rewrite El. rewrite (proj2 (Nat.eqb_eq _ _) Ev). left.
    destruct loop; simpl in *. congruence.
Qed.

Lemma last_of_nonempty {A} (l : list A) :
  l <> [] -> exists x, List.last (map Some l) None = Some x /\ x ∈ l.
Proof.
  induction l as [|a l IH]; [congruence|]. intros _.
  destruct l as [|b l]; [exists a; split; [reflexivity|left]|].
  destruct IH as (x & Hx & Hin); [discriminate|].
  exists x. split; [exact Hx|right; exact Hin].
Qed.

(** The two UV look-ups of a vertex with face corners. *)
Lemma uv_from_vert_returns layer bvertex mesh :
  bvertex <> [] ->
  (forall loop, loop ∈ bvertex ->
     (BMLoop.index loop < length layer)%nat
     /\ exists mat,
          Mesh.materials mesh !! BMLoop.face_material_index loop
          = Some (Some mat)
          /\ material_ok mat) ->
  (exists uv,
     (BMLoop.index <$> bvertex) !! 0%nat ≫= (layer !!.) = Some uv
     /\ _uv_from_vert_first (Some layer) bvertex = Return (Some uv))
  /\ exists tex_uv, _uv_from_vert_set (Some layer) bvertex mesh = Return tex_uv.
Proof.
  intros Hne Hloops.
  assert (Huv : forall loop, loop ∈ bvertex ->
            exists uv, layer !! BMLoop.index loop = Some uv
                       /\ loop_uv (Some layer) loop = Return uv).
  { intros loop Hin. destruct (Hloops loop Hin) as [Hlt _].
    destruct (lookup_lt_is_Some_2 _ _ Hlt) as [uv E].
    exists uv. unfold loop_uv, list_getitem. rewrite E. auto. }
  split.
  - destruct bvertex as [|loop rest]; [congruence|].
    destruct (Huv loop) as (uv & El & E); [left|]. exists uv.
    unfold _uv_from_vert_first. rewrite E. simpl. auto.
  - unfold _uv_from_vert_set.
    destruct (for_fold_returns
                (fun uv_set loop =>
                   uv ← loop_uv (Some layer) loop;
                   if negb (existsb (uv_eqb uv) uv_set)
                   then Return (uv_set ++ [uv]) else Return uv_set)
                bvertex) with (b := @nil (float * float)) as [uv_set E].
    { intros acc loop Hin. destruct (Huv loop Hin) as (uv' & _ & ->). simpl.
      destruct (negb _); eauto. }
    rewrite E. simpl.
    destruct (last_of_nonempty bvertex Hne) as (loop & -> & Hin). simpl.
    destruct (Hloops loop Hin) as (_ & mat & Hm & Hok).
    unfold list_getitem. rewrite Hm. simpl.
    destruct (image_texture_names_returns mat Hok) as [names ->]. simpl.
    eauto.
Qed.

Section RunsGeometry.

Variable self0 : Self.

Ltac runs_step :=
  first [ assumption |
  lazymatch goal with
  | |- runs _ (lift (Return _) ≫= _) => apply runs_lift
  | |- runs _ (get_self ≫= _) => apply runs_get_self; intros ? ?
  | |- runs _ (_ ≫= _) => apply runs_bind; [|intros ?]
  | |- runs _ (mret _) => apply runs_ret
  | |- runs _ (write _) => apply runs_write
  | |- runs _ (print _) => apply runs_print
  end ].

Lemma runs_write_armature host meshes name indent_level :
  armature_ok host (_human self0) ->
  runs (writing_for self0) (_write_armature host meshes name indent_level).
Proof.
  intros [Hwf Hgb (root & Hroot & Hbelow)]. unfold _write_armature.
  apply runs_get_self. intros self (_ & Hh & Hp & _). rewrite Hh, Hp.
  destruct (build_ok _ _ (_vertex_weight_precision self0) Hwf Hgb)
    as [idx Hidx].
  rewrite Hidx. apply runs_lift. fold (roots (_human self0)).
  unfold list_getitem. rewrite Hroot. apply runs_lift.
  apply runs_write_bone. intros b Hb.
  apply (index_keyed _ _ _ _ Hidx). apply Hbelow, Hb.
Qed.

Lemma runs_write_vertex vertex indent_level bvertex layer mesh
    group_names weights :
  bvertex <> [] ->
  (forall loop, loop ∈ bvertex ->
     (BMLoop.index loop < length layer)%nat
     /\ exists mat,
          Mesh.materials mesh !! BMLoop.face_material_index loop
          = Some (Some mat)
          /\ material_ok mat) ->
  (forall g w, (g, w) ∈ oitems weights -> (g < length group_names)%nat) ->
  runs (writing_for self0)
       (_write_vertex vertex indent_level bvertex (Some layer) mesh
                      group_names weights).
Proof.
  intros Hne Hloops Hw. unfold _write_vertex.
  destruct (uv_from_vert_returns layer bvertex mesh Hne Hloops)
    as [(uv & _ & ->) Hset].
  apply runs_lift.
  destruct Hset as [tex_uv ->]. apply runs_lift.
  apply runs_bind; [apply runs_write|intros _]. apply runs_lift.
  apply runs_bind; [apply runs_write|intros _].
  apply runs_bind; [apply runs_write|intros _].
  apply runs_bind; [|intros _; apply runs_write].
  apply runs_for_each.
  intros [g w] Hin.
  destruct (lookup_lt_is_Some_2 _ _ (Hw g w Hin)) as [gname E].
  unfold list_getitem. rewrite E. apply runs_lift.
  destruct (Float.ne_zero w); [apply runs_write|apply runs_ret].
Qed.

Lemma bm_verts_lookup_lt mesh i :
  (i < length (Mesh.vertices mesh))%nat ->
  bm_verts mesh !! i = Some (link_loops_of mesh i).
Proof.
  intros H. unfold bm_verts. change (map ?f ?l) with (f <$> l).
  rewrite list_lookup_fmap, lookup_seq_lt by exact H. reflexivity.
Qed.

Lemma runs_write_vertexPool mesh_obj indent_level :
  mesh_ok mesh_obj ->
  runs (writing_for self0) (_write_vertexPool mesh_obj indent_level).
Proof.
  intros [Hindex Hgroup Hcorner (layer & Hlayer & Hlen) Hmat Hloops].
  unfold _write_vertexPool.
  apply runs_bind; [apply runs_write|intros _].
  pose proof (mesh_to_weight_dict_names mesh_obj) as Hnames.
  pose proof (entry_from_triple mesh_obj) as Hfrom.
  pose proof (entry_of_triple mesh_obj) as Hof.
  pose proof (mesh_weight_dict_wf mesh_obj) as [_ Hwf].
  destruct (_mesh_to_weight_dict mesh_obj) as [group_names weight_dict].
  simpl in Hnames, Hfrom, Hof, Hwf. subst group_names.
  apply runs_bind; [|intros _; apply runs_write].
  apply runs_for_each. intros vertex Hin.
  unfold list_getitem. rewrite (bm_verts_lookup_lt _ _ (Hindex vertex Hin)).
  apply runs_lift.
  destruct (Hgroup vertex Hin) as (e & He & Hlt).
  destruct (Hof (MeshVertex.index vertex) (VertexGroupElement.group e)
                (VertexGroupElement.weight e)) as [w0 Hw0].
  { apply elem_of_weight_triples. exists vertex, e. auto. }
  { unfold group_names_of. rewrite length_map. exact Hlt. }
  unfold entry in Hw0. unfold odict_getitem.
  destruct (weight_dict !! MeshVertex.index vertex) as [weights|] eqn:Ew;
    [|discriminate].
  apply runs_lift. rewrite Hlayer. apply runs_write_vertex.
  - destruct (Hcorner vertex Hin) as (poly & li & loop & Hp & Hli & Hl & Hv).
    intros Hnil.
    assert (H : BMLoop.mk li (MeshPolygon.material_index poly)
                ∈ link_loops_of (Object.data mesh_obj) (MeshVertex.index vertex)).
    { apply elem_of_link_loops. exists poly, loop. simpl. auto. }
    rewrite Hnil in H. inversion H.
  - intros loop (poly & l & Hp & Hli & Hl & _ & Hm)%elem_of_link_loops. split.
    + apply lookup_lt_Some in Hl. lia.
    + rewrite Hm. apply Hmat. exact Hp.
  - intros g w Hg. apply (Hfrom (MeshVertex.index vertex) g w).
    unfold entry. rewrite Ew. apply elem_of_oitems; [|exact Hg].
    eapply Hwf. exact Ew.
Qed.

Lemma runs_write_polygons mesh_obj indent_level :
  mesh_ok mesh_obj ->
  runs (writing_for self0) (_write_polygons (Object.data mesh_obj) indent_level).
Proof.
  intros [_ _ _ _ Hmat Hloops]. unfold _write_polygons.
  apply runs_for_each. intros poly Hin.
  destruct (Hmat poly Hin) as (mat & Hm & Hok).
  unfold list_getitem. rewrite Hm. apply runs_lift.
  unfold attr. apply runs_lift.
  destruct (image_texture_names_returns mat Hok) as [names ->].
  apply runs_lift.
  apply runs_bind; [apply runs_write|intros _].
  apply runs_bind;
    [apply runs_for_each; intros ? _; apply runs_write|intros _].
  apply runs_bind; [apply runs_write|intros _].
  apply runs_bind; [|intros _; apply runs_write].
  apply runs_for_each. intros li Hli.
  destruct (lookup_lt_is_Some_2 _ _ (Hloops poly li Hin Hli)) as [loop ->].
  apply runs_lift. apply runs_write.
Qed.

Lemma runs_write_mesh_object mesh_obj indent_level :
  mesh_ok mesh_obj ->
  runs (writing_for self0) (_write_mesh_object mesh_obj indent_level).
Proof.
  intros H. unfold _write_mesh_object.
  apply runs_bind; [apply runs_write|intros _].
  apply runs_bind; [apply runs_write_vertexPool; exact H|intros _].
  apply runs_bind; [apply runs_write_polygons; exact H|intros _].
  apply runs_write.
Qed.

Lemma runs_write_groups host meshes name :
  (forall mesh, mesh ∈ meshes -> mesh_ok mesh) ->
  (Armature.bones (_human self0) <> [] -> armature_ok host (_human self0)) ->
  runs (writing_for self0) (_write_groups host meshes name).
Proof.
  intros Hmeshes Harm. unfold _write_groups.
  apply runs_bind; [apply runs_write|intros _].
  apply runs_get_self. intros self (_ & Hh & _). rewrite Hh.
  apply runs_bind;
    [destruct (Nat.ltb _ _); [apply runs_write|apply runs_ret]|intros _].
  apply runs_bind; [apply runs_write|intros _].
  apply runs_bind.
  { apply runs_for_each. intros mesh Hin.
    apply runs_write_mesh_object, Hmeshes, Hin. }
  intros _. apply runs_bind; [|intros _; apply runs_write].
  destruct (Nat.ltb_spec 0 (length (Armature.bones (_human self0))))
    as [Hlt|_]; [|apply runs_ret].
  apply runs_write_armature, Harm.
  intros E. rewrite E in Hlt. simpl in Hlt. lia.
Qed.

End RunsGeometry.

(** The textures that [_write_textures] lists for a material: of type
    [IMAGE], with an image that comes from a file, and from a slot of the
    material. *)
Lemma image_textures_elem mat l texture texture_coords mapping :
  image_textures mat = Return l ->
  (texture, texture_coords, mapping) ∈ l ->
  exists slot image,
    Some slot ∈ Material.texture_slots mat
    /\ TextureSlot.texture slot = Some texture
    /\ Texture.type texture = "IMAGE"
    /\ Texture.image texture = Some image
    /\ Image.source image = "FILE".
Proof.
  unfold image_textures. intros H Hin.
  set (Q := fun (x : Texture.t * string * string) =>
              exists slot image,
                Some slot ∈ Material.texture_slots mat
                /\ TextureSlot.texture slot = Some x.1.1
                /\ Texture.type x.1.1 = "IMAGE"
                /\ Texture.image x.1.1 = Some image
                /\ Image.source image = "FILE").
  assert (Hgen : forall slots acc l',
            (forall s, s ∈ slots -> s ∈ Material.texture_slots mat) ->
            (forall x, x ∈ acc -> Q x) ->
            for_fold
              (fun acc tslot =>
                 match tslot with
                 | None => Return acc
                 | Some slot =>
                     texture ← attr (TextureSlot.texture slot);
                     if String.eqb (Texture.type texture) "IMAGE"
                        && String.eqb (match Texture.image texture with
                                       | Some image => Image.source image
                                       | None => EmptyString
                                       end) "FILE"
                     then Return (acc ++ [(texture, TextureSlot.texture_coords slot,
                                           TextureSlot.mapping slot)])
                     else Return acc
                 end) slots acc = Return l' ->
            forall x, x ∈ l' -> Q x).
  { induction slots as [|s slots IH]; intros acc l' Hsub Hacc Hrun.
    - injection Hrun as <-. exact Hacc.
    - rewrite for_fold_cons in Hrun. destruct s as [slot|].
      + destruct (TextureSlot.texture slot) as [tex|] eqn:Et; [|discriminate].
        simpl in Hrun.
        destruct (String.eqb_spec (Texture.type tex) "IMAGE") as [Ety|_];
          simpl in Hrun.
        * destruct (Texture.image tex) as [image|] eqn:Ei.
          -- destruct (String.eqb_spec (Image.source image) "FILE") as [Es|_].
             ++ eapply IH; [| |exact Hrun].
                ** intros s Hs. apply Hsub. right. exact Hs.
                ** intros x [Hx|Hx%list_elem_of_singleton]%elem_of_app;
                     [apply Hacc; exact Hx|].
                   subst x. exists slot, image. simpl.
                   split; [apply Hsub; left|]. auto.
             ++ eapply IH; [|exact Hacc|exact Hrun].
                intros s Hs. apply Hsub. right. exact Hs.
          -- eapply IH; [|exact Hacc|exact Hrun].
             intros s Hs. apply Hsub. right. exact Hs.
        * eapply IH; [|exact Hacc|exact Hrun].
          intros s Hs. apply Hsub. right. exact Hs.
      + eapply IH; [|exact Hacc|exact Hrun].
        intros s Hs. apply Hsub. right. exact Hs. }
  destruct (Hgen _ _ _ (fun s Hs => Hs)
              (fun x (Hx : x ∈ []) => match not_elem_of_nil _ Hx with end)
              H _ Hin)
    as (slot & image & ?). exists slot, image. assumption.
Qed.

Lemma image_textures_returns mat :
  (forall slot, Some slot ∈ Material.texture_slots mat ->
     is_Some (TextureSlot.texture slot)) ->
  exists l, image_textures mat = Return l.
Proof.
  intros H. apply for_fold_returns. intros acc [slot|] Hin; [|eauto].
  destruct (H slot Hin) as [texture ->]. simpl. destruct (_ && _); eauto.
Qed.

Section RunsTextures.

Variable self0 : Self.
Variable host : Host.
Hypothesis has_folder : is_Some (_tex_folder self0).

Lemma runs_copy image :
  runs (writing_for self0) (_copy_texture_to_new_location host image).
Proof.
  intros [self w] [Hopen Hc]. destruct has_folder as [tf Htf].
  assert (Htf' : _tex_folder self = Some tf)
    by (destruct Hc as (_ & _ & _ & Ht & _); simpl in Ht; congruence).
  destruct (_copied_files self !! Image.filepath image) as [done|] eqn:E.
  - rewrite (copy_texture_again host image self w tf done Htf' E).
    eexists _, _. split; [reflexivity|]. split; assumption.
  - rewrite (copy_texture_first host image self w tf Htf' E).
    eexists _, _. split; [reflexivity|]. split.
    + destruct self; exact Hopen.
    + eapply same_config_trans; [exact Hc|apply same_config_copied_files].
Qed.

Lemma runs_write_texture texture image texture_coords mapping :
  Texture.image texture = Some image ->
  Image.colorspace_settings_name image = "sRGB" ->
  runs (writing_for self0)
       (_write_texture host (Some texture) texture_coords mapping).
Proof.
  intros Hi Hcs. unfold _write_texture. rewrite Hi.
  apply runs_bind; [apply runs_copy|intros newpath].
  apply runs_get_open. intros self [buf ->]. apply runs_lift.
  apply runs_bind.
  { unfold _get_image_format. rewrite Hcs.
    change ("sRGB" =? "sRGB")%string with true. cbv iota.
    apply runs_bind; intros; apply runs_ret. }
  intros format. apply runs_bind.
  { unfold _get_texture_wrap_u. destruct (_ && _); [apply runs_ret|].
    apply runs_bind; [apply runs_print|intros _; apply runs_ret]. }
  intros wrapu. apply runs_bind.
  { unfold _get_texture_wrap_v. destruct (_ && _); [apply runs_ret|].
    apply runs_bind; [apply runs_print|intros _; apply runs_ret]. }
  intros wrapv. apply runs_bind.
  { unfold _get_texture_type. destruct (_ && _); [apply runs_ret|].
    apply runs_bind; [apply runs_print|intros _; apply runs_ret]. }
  intros type. apply runs_write.
Qed.

Lemma runs_write_textures rmeshes :
  (forall rmesh, rmesh ∈ rmeshes -> textures_ok rmesh) ->
  runs (writing_for self0) (_write_textures host rmeshes).
Proof.
  intros Hok. unfold _write_textures. apply runs_for_each. intros rmesh Hin.
  apply runs_for_each. intros [mat|] Hmat; [|apply runs_ret].
  destruct (image_textures_returns mat) as [l Hl].
  { intros slot Hs. destruct (Hok rmesh Hin mat slot Hmat Hs) as (t & -> & _).
    eauto. }
  rewrite Hl. apply runs_lift. apply runs_for_each.
  intros [[texture texture_coords] mapping] Hx.
  destruct (image_textures_elem mat l _ _ _ Hl Hx)
    as (slot & image & Hs & Ht & Hty & Hi & Hsrc).
  rewrite Hi. unfold attr. apply runs_lift.
  apply runs_get_self. intros self _.
  destruct (negb _); [|apply runs_ret].
  apply (runs_write_texture texture image); [exact Hi|].
  destruct (Hok rmesh Hin mat slot Hmat Hs) as (t & Ht' & Hcs).
  rewrite Ht in Ht'. injection Ht' as <-. apply Hcs; assumption.
Qed.

End RunsTextures.

(** The sample scene can be exported. *)
Lemma sample_below bone :
  below Sample.root_bone bone -> bone = Sample.root_bone \/ bone = Sample.child_bone.
Proof.
  induction 1 as [|bone child _ [->| ->] Hin]; [left; reflexivity| |].
  - apply list_elem_of_singleton in Hin. right. exact Hin.
  - inversion Hin.
Qed.

Lemma sample_armature_ok : armature_ok Sample.host Sample.human.
Proof.
  split; [exact sample_wf|exact sample_gb|].
  exists Sample.root_bone. split; [reflexivity|].
  intros bone [->| ->]%sample_below.
  - exists Sample.root_bone. split; [left|reflexivity].
  - exists Sample.child_bone. split; [right; left|reflexivity].
Qed.

Lemma sample_material_ok : material_ok Sample.material.
Proof.
  intros slot Hin. simpl in Hin.
  apply elem_of_cons in Hin as [[= ->]|Hin].
  - exists Sample.texture. split; [reflexivity|]. intros _. simpl. eauto.
  - apply list_elem_of_singleton in Hin. discriminate.
Qed.

Lemma sample_mesh_ok : mesh_ok Sample.body.
Proof.
  split.
  - intros vertex Hin. simpl in Hin.
    repeat (apply elem_of_cons in Hin as [->|Hin]); simpl; try lia.
    inversion Hin.
  - intros vertex Hin. exists (Sample.full 1). simpl in Hin.
    repeat (apply elem_of_cons in Hin as [->|Hin]);
      [split; [left|simpl; lia]..|inversion Hin].
  - intros vertex Hin. simpl in Hin.
    exists (MeshPolygon.mk 0 0 [0; 1; 2]%nat), (MeshVertex.index vertex),
           (MeshLoop.mk (MeshVertex.index vertex)).
    repeat (apply elem_of_cons in Hin as [->|Hin]); [| | |inversion Hin];
      (split; [left|]); (split; [|split; reflexivity]); simpl.
    + left.
    + right. left.
    + right. right. left.
  - eexists. split; [reflexivity|]. simpl. lia.
  - intros poly ->%list_elem_of_singleton. exists Sample.material.
    split; [reflexivity|apply sample_material_ok].
  - intros poly li ->%list_elem_of_singleton Hli. simpl in *.
    repeat (apply elem_of_cons in Hli as [->|Hli]); try lia. inversion Hli.
Qed.

Lemma sample_textures_ok : textures_ok Sample.body.
Proof.
  intros mat slot Hmat Hslot. simpl in Hmat.
  apply list_elem_of_singleton in Hmat. injection Hmat as ->.
  simpl in Hslot. apply elem_of_cons in Hslot as [[= ->]|Hslot].
  - exists Sample.texture. split; [reflexivity|].
    intros image [= <-] _ _. reflexivity.
  - apply list_elem_of_singleton in Hslot. discriminate.
Qed.

Lemma sample_exportable : exportable Sample.host Sample.human.
Proof.
  split.
  - intros mesh ->%sample_mesh_child. apply sample_textures_ok.
  - intros mesh ->%sample_mesh_child. simpl. eauto.
  - intros mesh ->%sample_mesh_child. apply sample_mesh_ok.
  - intros _. apply sample_armature_ok.
Qed.

Lemma writing_for_self self w :
  is_Some (_egg_fp self) -> writing_for self (self, w).
Proof. intros H. split; [exact H|apply same_config_refl]. Qed.

(** X14: with the file open, the skeleton is written without an error
    as soon as the scene is well formed, every assigned vertex group is
    named after a bone, the armature has a parentless bone, and the bones
    below the first of them are bones of the armature: then every lookup
    in the weight index finds its bone. *)
Theorem write_armature_returns host meshes name indent_level self w :
  is_Some (_egg_fp self) -> armature_ok host (_human self) ->
  exists st',
    _write_armature host meshes name indent_level (self, w) = (Return tt, st').
Proof.
  intros Hopen Hok.
  destruct (runs_write_armature self host meshes name indent_level Hok
              (self, w) (writing_for_self self w Hopen)) as ([] & st' & E & _).
  eauto.
Qed.

Lemma write_armature_returns_witness :
  exists st',
    _write_armature Sample.host [Sample.body] "my_model" 4
                    (Cases.writing, Sample.world)
    = (Return tt, st').
Proof.
  apply (write_armature_returns Sample.host [Sample.body] "my_model" 4
           Cases.writing Sample.world).
  - simpl. eauto.
  - exact sample_armature_ok.
Defined.



(** X16: with the file open and a texture folder, the texture writer
    returns when every texture slot in use has a texture and every image
    it has to declare is in the [sRGB] color space; a failing copy, an
    unsupported wrap mode or an unsupported mapping does not stop it. *)
Theorem write_textures_returns host rmeshes self w :
  is_Some (_egg_fp self) -> is_Some (_tex_folder self) ->
  (forall rmesh, rmesh ∈ rmeshes -> textures_ok rmesh) ->
  exists st', _write_textures host rmeshes (self, w) = (Return tt, st').
Proof.
  intros Hopen Htf Hok.
  destruct (runs_write_textures self host Htf rmeshes Hok
              (self, w) (writing_for_self self w Hopen)) as ([] & st' & E & _).
  eauto.
Qed.

Lemma write_textures_returns_witness :
  exists st',
    _write_textures Cases.failing_host [Sample.body]
                    (Cases.writing, Sample.world)
    = (Return tt, st').
Proof.
  apply (write_textures_returns Cases.failing_host [Sample.body]
           Cases.writing Sample.world).
  - simpl. eauto.
  - simpl. eauto.
  - intros rmesh ->%list_elem_of_singleton. exact sample_textures_ok.
Defined.

Lemma runs_after_header host self :
  is_Some (_tex_folder self) -> exportable host (_human self) ->
  runs (writing_for self) (after_header host self).
Proof.
  intros Htf [Htex Hmat Hmesh Harm]. unfold after_header.
  assert (Hchild : forall mesh,
            mesh ∈ List.filter
                     (fun child => String.eqb (Object.type child) "MESH")
                     (Armature.children (_human self)) ->
            mesh_child (_human self) mesh).
  { intros mesh Hin. apply list_elem_of_In, filter_In in Hin as [Hin Hty].
    split; [apply list_elem_of_In; exact Hin|apply String.eqb_eq; exact Hty]. }
  apply runs_bind; [apply runs_print|intros _].
  apply runs_bind; [apply runs_write_textures; [exact Htf|auto]|intros _].
  apply runs_bind; [apply runs_print|intros _].
  apply runs_bind; [apply runs_write_materials; auto|intros _].
  apply runs_bind; [apply runs_print|intros _].
  apply runs_write_groups; auto.
Qed.

(** An export that goes through: the state before the [finally]
    clause, and the file that is closed. *)
Lemma produce_egg_finishes host self w :
  open_fails host (_filepath self) = false ->
  is_Some (_tex_folder self) ->
  exportable host (_human self) ->
  exists st1 text,
    produce_egg host (self, w) = (Return "FINISHED", closed_with text st1)
    /\ _egg_fp st1.1 = Some text
    /\ went_on (set_egg_fp (Some (header host self)) self,
                printed ["Writing Egg file " +:+ _filepath self] w) st1.
Proof.
  intros Hopen Htf Hok. rewrite (produce_egg_opened host self w Hopen).
  match goal with |- context [after_header host self ?st] =>
    set (st0 := st);
    pose proof (keeps_after_header went_on host self went_on_refl went_on_trans
                  went_on_write went_on_print (went_on_copy host) st0) as Hk;
    destruct (runs_after_header host self Htf Hok st0)
      as ([] & st1 & E & [text Ht] & _) end.
  { split; [destruct self; simpl; eauto|apply same_config_egg_fp]. }
  rewrite E in Hk |- *. rewrite (run_finally _ _ Ht).
  exists st1, text. auto.
Qed.

(** X17: [produce_egg] returns ['FINISHED'] when the output file can be
    opened, the worker has its texture folder, and the scene can be
    exported: for every mesh child the textures, the active material and
    the geometry can be written, and if the armature has bones, so can
    the skeleton. *)
Theorem export_returns host self w :
  open_fails host (_filepath self) = false ->
  is_Some (_tex_folder self) ->
  exportable host (_human self) ->
  exists st', produce_egg host (self, w) = (Return "FINISHED", st').
Proof.
  intros Hopen Htf Hok.
  destruct (produce_egg_finishes host self w Hopen Htf Hok)
    as (st1 & text & E & _).
  eauto.
Qed.

Lemma export_returns_witness :
  exists st',
    produce_egg Sample.host ((Sample.constructed).1, (Sample.constructed).2)
    = (Return "FINISHED", st').
Proof.
  apply (export_returns Sample.host (Sample.constructed).1
           (Sample.constructed).2).
  - reflexivity.
  - simpl. eauto.
  - exact sample_exportable.
Defined.

(** ** The operator *)

(** X18: [execute] exports the first selected object.  When [poll]
    is false, that is on an empty selection, it raises [IndexError] and
    touches nothing.  Otherwise, if the texture folder -- [textures]
    under what [os.path.realpath] gives on the host for the directory of
    the chosen path -- is there or can be made, the file can be opened
    and the scene can be exported, it returns ['FINISHED']: the folder
    was made if it was missing, and exactly one file was closed, the one
    at the chosen path. *)
Theorem execute_outcome host op selected st :
  (ExportEggOperator.poll selected = false ->
   ExportEggOperator.execute host op selected st = (Raise IndexError, st))
  /\ forall human rest,
       selected = human :: rest ->
       let folder := tex_folder_of host (ExportEggOperator.filepath op) in
       path_exists host folder = true \/ mkdir_fails host folder = false ->
       open_fails host (ExportEggOperator.filepath op) = false ->
       exportable host human ->
       exists st' text,
         ExportEggOperator.execute host op selected st = (Return "FINISHED", st')
         /\ mkdir_calls st'.2 =
            mkdir_calls st.2 ++ (if path_exists host folder then [] else [folder])
         /\ closed_files st'.2 =
            closed_files st.2 ++ [(ExportEggOperator.filepath op, text)].
Proof.
  split.
  { destruct selected; [reflexivity|discriminate]. }
  intros human rest -> folder Hdir Hopen Hok. destruct st as [self w].
  unfold ExportEggOperator.execute. rewrite run_bind.
  change (lift (list_getitem (human :: rest) 0) (self, w))
    with (Return human, (self, w)).
  cbv beta iota. rewrite run_bind, (run_init _ _ _ _ _ _ _ Hdir).
  cbv beta iota. subst folder.
  match goal with |- context [produce_egg host (?s, ?w0)] =>
    destruct (produce_egg_finishes host s w0)
      as (st1 & text & E & Ht & Hc & _ & Hm & Hf & _);
      [exact Hopen|simpl; eauto|exact Hok|] end.
  rewrite E. exists (closed_with text st1), text.
  split; [reflexivity|]. split.
  - cbn [closed_with snd mkdir_calls]. rewrite Hm. reflexivity.
  - cbn [closed_with snd closed_files]. rewrite Hf.
    destruct Hc as (_ & _ & _ & _ & _ & _ & -> & _). reflexivity.
Qed.

Lemma execute_outcome_witness :
  ExportEggOperator.execute Sample.host
    (ExportEggOperator.mk 4 "/out/my model.egg" false) []
    (Sample.blank, Sample.world)
  = (Raise IndexError, (Sample.blank, Sample.world))
  /\ exists st' text,
       ExportEggOperator.execute Sample.host
         (ExportEggOperator.mk 4 "//out/my model.egg" false) [Sample.human]
         (Sample.blank, Sample.world)
       = (Return "FINISHED", st')
       /\ mkdir_calls st'.2 = [] ++ ["/out/textures"]
       /\ closed_files st'.2 = [] ++ [("//out/my model.egg", text)].
Proof.
  split.
  - apply (proj1 (execute_outcome Sample.host
                    (ExportEggOperator.mk 4 "/out/my model.egg" false) []
                    (Sample.blank, Sample.world))).
    reflexivity.
  - apply (proj2 (execute_outcome Sample.host
                    (ExportEggOperator.mk 4 "//out/my model.egg" false)
                    [Sample.human] (Sample.blank, Sample.world))
                 Sample.human [] eq_refl).
    + right. reflexivity.
    + reflexivity.
    + exact sample_exportable.
Defined.

(** ** Declaring the textures twice *)

Lemma bind_returned {A B} (c : M A) (f : A -> M B) st b st' :
  (c ≫= f) st = (Return b, st') ->
  exists a s, c st = (Return a, s) /\ f a s = (Return b, st').
Proof.
  rewrite run_bind. destruct (c st) as [[a|e] s]; [eauto|discriminate].
Qed.

(** Every pass of a loop that returned has returned, between two states
    that whatever the passes keep relates to the first and the last. *)
Lemma for_each_returned {A} (R : State -> State -> Prop) (l : list A) body :
  (forall st, R st st) ->
  (forall st1 st2 st3, R st1 st2 -> R st2 st3 -> R st1 st3) ->
  (forall a, keeps R (body a)) ->
  forall st st', for_each l body st = (Return tt, st') ->
  forall a, a ∈ l ->
    exists s1 s2, R st s1 /\ body a s1 = (Return tt, s2) /\ R s2 st'.
Proof.
  intros Hrefl Htrans Hk. induction l as [|x l IH]; intros st st' H a Ha;
    [inversion Ha|].
  simpl in H. apply bind_returned in H as ([] & s & Hx & Hrest).
  pose proof (Hk x st) as Rx. rewrite Hx in Rx. simpl in Rx.
  pose proof (keeps_for_each R Hrefl Htrans l body Hk s) as Rrest.
  rewrite Hrest in Rrest. simpl in Rrest.
  apply elem_of_cons in Ha as [->|Ha].
  - exists st, s. auto.
  - destruct (IH s st' Hrest a Ha) as (s1 & s2 & H1 & H2 & H3).
    exists s1, s2. split; [eapply Htrans; eassumption|auto].
Qed.

Lemma for_each_noop {A} (l : list A) (body : A -> M unit) st :
  (forall a, a ∈ l -> body a st = (Return tt, st)) ->
  for_each l body st = (Return tt, st).
Proof.
  induction l as [|x l IH]; intros H; [reflexivity|].
  simpl. rewrite run_bind, (H x) by left. apply IH.
  intros a Ha. apply H. right. exact Ha.
Qed.

Lemma copies_once_mono host st st' src :
  copies_once host st st' ->
  is_Some (_copied_files st.1 !! src) -> is_Some (_copied_files st'.1 !! src).
Proof. intros (_ & calls & _ & _ & Hr & _) H. apply Hr. left. exact H. Qed.

Lemma copy_returned_registered host image st path s :
  _copy_texture_to_new_location host image st = (Return path, s) ->
  is_Some (_copied_files s.1 !! Image.filepath image).
Proof.
  destruct st as [self w]. intros H.
  destruct (_tex_folder self) as [tf|] eqn:Htf.
  - destruct (_copied_files self !! Image.filepath image) as [done|] eqn:E.
    + rewrite (copy_texture_again host image self w tf done Htf E) in H.
      injection H as _ <-. simpl. rewrite E. eauto.
    + rewrite (copy_texture_first host image self w tf Htf E) in H.
      injection H as _ <-. destruct self; simpl. rewrite lookup_insert_eq.
      eauto.
  - exfalso. revert H. unfold _copy_texture_to_new_location.
    rewrite run_bind.
    change (get_self (self, w)) with (Return self, (self, w)).
    cbv beta iota. rewrite run_bind, Htf. discriminate.
Qed.

Section TexturesTwice.

Variable host : Host.

Ltac kstep :=
  first
    [ apply (keeps_write_texture (copies_once host));
        [apply copies_once_refl|apply copies_once_trans
        |apply copies_once_write|apply copies_once_print
        |apply copies_once_copy]
    | apply (keeps_get_image_format (copies_once host));
        [apply copies_once_refl|apply copies_once_trans|apply copies_once_print]
    | apply copies_once_write | apply copies_once_print
    | apply copies_once_copy
    | apply (keeps_ret (copies_once host)); apply copies_once_refl
    | apply (keeps_lift (copies_once host)); apply copies_once_refl
    | apply (keeps_get_self (copies_once host)); apply copies_once_refl
    | apply (keeps_for_each (copies_once host));
        [apply copies_once_refl|apply copies_once_trans|intros ?]
    | apply (keeps_bind (copies_once host));
        [apply copies_once_trans| |intros ?]
    | lazymatch goal with
      | |- keeps _ (if ?b then _ else _) => destruct b
      | |- keeps _ (match ?x with _ => _ end) => destruct x
      end ].

(** When a texture is declared, its image is registered. *)
Lemma write_texture_registers texture image texture_coords mapping st st' :
  Texture.image texture = Some image ->
  _write_texture host (Some texture) texture_coords mapping st = (Return tt, st') ->
  is_Some (_copied_files st'.1 !! Image.filepath image).
Proof.
  intros Hi H. unfold _write_texture in H. rewrite Hi in H.
  apply bind_returned in H as (newpath & s & Hcopy & Hrest).
  apply copy_returned_registered in Hcopy.
  eapply copies_once_mono; [|exact Hcopy].
  match type of Hrest with ?c s = _ =>
    assert (Hk : keeps (copies_once host) c) end.
  { unfold _get_texture_wrap_u, _get_texture_wrap_v, _get_texture_type.
    repeat kstep. }
  specialize (Hk s). rewrite Hrest in Hk. exact Hk.
Qed.

(** After the texture writer has returned, every image it had to declare
    is registered. *)
Lemma write_textures_registers rmeshes st st' :
  _write_textures host rmeshes st = (Return tt, st') ->
  forall rmesh mat,
    rmesh ∈ rmeshes -> Some mat ∈ Mesh.materials (Object.data rmesh) ->
    exists l,
      image_textures mat = Return l
      /\ forall texture texture_coords mapping image,
           (texture, texture_coords, mapping) ∈ l ->
           Texture.image texture = Some image ->
           is_Some (_copied_files st'.1 !! Image.filepath image).
Proof.
  intros H rmesh mat Hrmesh Hmat. unfold _write_textures in H.
  destruct (fun Hk => for_each_returned (copies_once host) _ _
              (copies_once_refl host) (copies_once_trans host) Hk _ _ H
              rmesh Hrmesh) as (s1 & s2 & _ & H1 & R2).
  { intros ?; repeat kstep. }
  destruct (fun Hk => for_each_returned (copies_once host) _ _
              (copies_once_refl host) (copies_once_trans host) Hk _ _ H1
              (Some mat) Hmat) as (s3 & s4 & _ & H2 & R4).
  { intros ?; repeat kstep. }
  apply bind_returned in H2 as (l & s & Hl & H2).
  unfold lift in Hl. injection Hl as Hl <-.
  exists l. split; [exact Hl|].
  intros texture texture_coords mapping image Hx Hi.
  destruct (fun Hk => for_each_returned (copies_once host) _ _
              (copies_once_refl host) (copies_once_trans host) Hk _ _ H2
              (texture, texture_coords, mapping) Hx)
    as (s5 & s6 & _ & H3 & R6).
  { intros [[? ?] ?]; repeat kstep. }
  eapply copies_once_mono; [exact R2|].
  eapply copies_once_mono; [exact R4|].
  eapply copies_once_mono; [exact R6|].
  rewrite Hi in H3. unfold attr in H3.
  apply bind_returned in H3 as (image' & s7 & E & H3).
  unfold lift in E. injection E as <- <-.
  apply bind_returned in H3 as (self & s8 & E & H3).
  unfold get_self in E. injection E as <- <-.
  destruct (bool_decide_reflect
              (is_Some (_copied_files s5.1 !! Image.filepath image)))
    as [Hreg|_]; simpl in H3.
  - injection H3 as <-. exact Hreg.
  - eapply write_texture_registers; eassumption.
Qed.

End TexturesTwice.

(** X19: once the texture writer has returned, running it again on the
    same meshes declares nothing and copies nothing: it returns in the
    same state.  Every image is declared at most once by a worker, so a
    second export by the same worker has no texture records. *)
Theorem write_textures_idempotent host rmeshes st st' :
  _write_textures host rmeshes st = (Return tt, st') ->
  _write_textures host rmeshes st' = (Return tt, st').
Proof.
  intros H. pose proof (write_textures_registers host rmeshes st st' H) as Hreg.
  unfold _write_textures. apply for_each_noop. intros rmesh Hrmesh.
  apply for_each_noop. intros [mat|] Hmat; [|reflexivity].
  destruct (Hreg rmesh mat Hrmesh Hmat) as (l & Hl & Himg).
  rewrite run_bind, Hl. unfold lift at 1. cbv beta iota.
  apply for_each_noop. intros [[texture texture_coords] mapping] Hx.
  destruct (image_textures_elem mat l _ _ _ Hl Hx)
    as (slot & image & _ & _ & _ & Hi & _).
  rewrite run_bind, Hi. unfold lift at 1, attr. cbv beta iota.
  rewrite run_bind. unfold get_self at 1. cbv beta iota.
  rewrite bool_decide_true by (eapply Himg; eassumption). reflexivity.
Qed.

Lemma write_textures_idempotent_witness :
  _write_textures Sample.host [Sample.body]
    (_write_textures Sample.host [Sample.body] (Cases.writing, Sample.world)).2
  = (Return tt,
     (_write_textures Sample.host [Sample.body] (Cases.writing, Sample.world)).2).
Proof.
  apply (write_textures_idempotent Sample.host [Sample.body]
           (Cases.writing, Sample.world)).
  vm_compute. reflexivity.
Defined.

(** ** Vertex records *)





(** The comment lines follow the order of assignment, not the order of
    the group indices; a weight of 0.0 has no line. *)
Example sample_vertex_record :
  vertex_record (MeshVertex.mk 0 Sample.origin Sample.up []) 6
                (Sample.f0, Sample.f0) ["root"; "spine"; "upper arm.L"]
                (<[1%nat := Sample.f0]>
                   (<[0%nat := dec 25 2]> (<[2%nat := dec 75 2]> ∅)))
  = "      <Vertex> 0 {" +:+ nl
    +:+ "        0.0000 0.0000 0.0000" +:+ nl
    +:+ "        <UV> { 0.0000 0.0000 }" +:+ nl
    +:+ "        <Normal> { 0.0000 0.0000 1.0000 }" +:+ nl
    +:+ "        // upper arm_L:0.75000000" +:+ nl
    +:+ "        // root:0.25000000" +:+ nl
    +:+ "      }" +:+ nl.
Proof. vm_compute. reflexivity. Qed.
